(** * pydicer.dataset.preparation: a shallow embedding and its properties

    The module under study has two classes.  [PrepareDataset] links the
    objects selected from the converted pool into a named dataset directory
    and merges their rows into the per-patient manifest [converted.csv].
    [StructureSet] is a lazy, cached accessor over the label volumes of one
    structure set.

    The embedding follows the Python text statement by statement.  What the
    text takes from its libraries is modelled here first:
    - [str] helpers ([split], [join], [replace], ...),
    - [pathlib] pure paths ([Path], [relative_to], [joinpath], [parent]),
    - a file system with directories, symbolic links and typed files,
    - [pandas] rows and frames,
    - a store of Python objects, so that in-place mutation and copies can be
      told apart,
    - a state-and-exception monad [M] in which every method runs. *)

From Stdlib Require Import ZArith Ascii.
From Stdlib Require String.
From stdpp Require Import gmap strings list.

Set Warnings "-register-all".

(** ** Python strings *)

Module py_str.

(** [s.lstrip(c)] for a one-character [c]. *)
Fixpoint lstrip (c : ascii) (s : string) : string :=
  match s with
  | String a r => if Ascii.eqb a c then lstrip c r else s
  | EmptyString => EmptyString
  end.

(** [s.split(c)] for a one-character separator: never empty, and empty
    fields are kept. *)
Fixpoint split (c : ascii) (s : string) : list string :=
  match s with
  | EmptyString => [EmptyString]
  | String a r =>
      if Ascii.eqb a c then EmptyString :: split c r
      else match split c r with
           | x :: xs => String a x :: xs
           | [] => [String a EmptyString]
           end
  end.

(** [sep.join(l)]. *)
Fixpoint join (sep : string) (l : list string) : string :=
  match l with
  | [] => EmptyString
  | [x] => x
  | x :: r => x +:+ sep +:+ join sep r
  end.

(** [s.startswith(p)]. *)
Fixpoint startswith (p s : string) : bool :=
  match p, s with
  | EmptyString, _ => true
  | String a p', String b s' => Ascii.eqb a b && startswith p' s'
  | String _ _, EmptyString => false
  end.

Fixpoint drop (n : nat) (s : string) : string :=
  match n, s with
  | S k, String _ r => drop k r
  | _, _ => s
  end.

(** [s.endswith(p)]. *)
Definition endswith (p s : string) : bool :=
  String.eqb (drop (String.length s - String.length p) s) p
  && (String.length p <=? String.length s)%nat.

(** [s.replace(old, new)] for a non-empty [old]: every occurrence, left to
    right, without overlap.  [skip] counts the characters of an occurrence
    still to be passed over. *)
Fixpoint replace_from (old new : string) (skip : nat) (s : string) : string :=
  match s with
  | EmptyString => EmptyString
  | String a r =>
      match skip with
      | S k => replace_from old new k r
      | O =>
          if startswith old s
          then new +:+ replace_from old new (String.length old - 1) r
          else String a (replace_from old new 0 r)
      end
  end.

Definition replace (old new s : string) : string := replace_from old new 0 s.

End py_str.

(** ** Exceptions and results *)

(** The [errno] of a failed system call. *)
Inductive errno := EEXIST | ENOENT | ENOTDIR | EISDIR | ELOOP.

(** The exceptions the module can raise.  [ValueError_subpath p other] is
    pathlib's "[p] is not in the subpath of [other]"; the file-system
    errors of Python ([FileExistsError], [FileNotFoundError],
    [NotADirectoryError], [IsADirectoryError]) are [OSError] with their
    [errno]. *)
Inductive exn :=
| ValueError_subpath (p other : string)
| ValueError (msg : string)
| AttributeError (msg : string)
| KeyError (msg : string)
| TypeError (msg : string)
| OSError (e : errno)
| ParserError
| RuntimeError (msg : string).

Inductive result (A : Type) :=
| Ok (a : A)
| Err (e : exn).
Arguments Ok {A} a.
Arguments Err {A} e.

Definition is_ok {A} (r : result A) : bool :=
  match r with Ok _ => true | Err _ => false end.

(** ** pathlib: pure POSIX paths *)

(** A parsed path: the root ([""], ["/"] or ["//"]) and the components
    after it.  Python keeps exactly this ([_root] and the tail of
    [_parts]); the drive is always empty on POSIX. *)
Record PurePath := mkPath { root : string; tail : list string }.

#[global] Instance PurePath_eq_dec : EqDecision PurePath.
Proof. solve_decision. Defined.

Definition os_sep : string := "/".

(** [splitroot]: one leading slash or three and more give the root ["/"],
    exactly two give ["//"]. *)
Definition splitroot (part : string) : string * string :=
  let stripped := py_str.lstrip "/"%char part in
  let k := (String.length part - String.length stripped)%nat in
  (if (k =? 0)%nat then "" else if (k =? 2)%nat then "//" else "/", stripped).

(** [Path(s)]: the components are the fields between slashes, without the
    empty ones and without ["."]; [".."] is kept. *)
Definition Path (s : string) : PurePath :=
  let '(r, rel) := splitroot s in
  {| root := r;
     tail := filter (λ x, x ≠ "" ∧ x ≠ ".") (py_str.split "/"%char rel) |}.

(** [str(p)]. *)
Definition str (p : PurePath) : string :=
  let s := root p +:+ py_str.join os_sep (tail p) in
  if decide (s = "") then "." else s.

Definition is_absolute (p : PurePath) : bool := bool_decide (root p ≠ "").

(** [p.parts]: the root, when there is one, counts as a part. *)
Definition parts (p : PurePath) : list string :=
  if is_absolute p then root p :: tail p else tail p.

(** [p.parent]: a path without components is its own parent. *)
Definition parent (p : PurePath) : PurePath :=
  {| root := root p; tail := removelast (tail p) |}.

(** [p.name]. *)
Definition path_name (p : PurePath) : string := List.last (tail p) "".

(** [p.joinpath(q)]: an absolute [q] replaces [p]. *)
Definition joinpath (p q : PurePath) : PurePath :=
  if is_absolute q then q
  else {| root := root p; tail := tail p ++ tail q |}.

Fixpoint strip_prefix (pre l : list string) : option (list string) :=
  match pre, l with
  | [], _ => Some l
  | x :: pre', y :: l' => if decide (x = y) then strip_prefix pre' l' else None
  | _ :: _, [] => None
  end.

(** [p.relative_to(other)]: defined when both have the same root and the
    components of [other] start those of [p]; the result is relative. *)
Definition relative_to (p other : PurePath) : result PurePath :=
  if decide (root p = root other) then
    match strip_prefix (tail other) (tail p) with
    | Some rest => Ok {| root := ""; tail := rest |}
    | None => Err (ValueError_subpath (str p) (str other))
    end
  else Err (ValueError_subpath (str p) (str other)).


(** ** pandas: rows and frames *)

(** One row of a converted-data table, as a [pd.Series]: its index label
    ([Series.name]) and the columns the module reads. *)
Record Series := mkSeries {
  index_label : Z;
  patient_id : string;
  hashed_uid : string;
  modality : string;
  path : string
}.

#[global] Instance Series_eq_dec : EqDecision Series.
Proof. solve_decision. Defined.

(** A [pd.DataFrame]: its rows in order, each with its index label. *)
Abbreviation DataFrame := (list Series).

Definition set_path (p : string) (r : Series) : Series :=
  {| index_label := index_label r; patient_id := patient_id r;
     hashed_uid := hashed_uid r; modality := modality r; path := p |}.

Definition set_index_label (i : Z) (r : Series) : Series :=
  {| index_label := i; patient_id := patient_id r;
     hashed_uid := hashed_uid r; modality := modality r; path := path r |}.

(** [df.reset_index(drop=True)]: the labels become 0, 1, 2, ... *)
Definition reset_index (df : DataFrame) : DataFrame :=
  imap (λ i r, set_index_label (Z.of_nat i) r) df.

(** *** What [read_csv] makes of the text of a cell

    A frame holds a missing value (NaN) as the empty text: [to_csv] writes
    a missing value as the empty text, and [read_csv] reads the empty text
    as a missing value. *)

(** The texts [read_csv] takes for a missing value, by default and in
    every column, also in a column read with [dtype=str]. *)
Definition na_values : list string :=
  [""; "#N/A"; "#N/A N/A"; "#NA"; "-1.#IND"; "-1.#QNAN"; "-NaN"; "-nan"; "1.#IND";
   "1.#QNAN"; "<NA>"; "N/A"; "NA"; "NULL"; "NaN"; "None"; "n/a"; "nan"; "null"].

Definition isna (s : string) : bool := bool_decide (s ∈ na_values).

(** A cell of a column read with [dtype=str]: the text, or a missing
    value. *)
Definition read_str (s : string) : string := if isna s then "" else s.

Definition lower_ascii (c : ascii) : ascii :=
  let n := nat_of_ascii c in
  if (65 <=? n)%nat && (n <=? 90)%nat then ascii_of_nat (n + 32) else c.

Fixpoint lower (s : string) : string :=
  match s with
  | EmptyString => EmptyString
  | String c r => String (lower_ascii c) (lower r)
  end.

Definition is_letter (c : ascii) : bool :=
  let n := nat_of_ascii c in
  ((65 <=? n)%nat && (n <=? 90)%nat) || ((97 <=? n)%nat && (n <=? 122)%nat).

(** Enough for a text to be read neither as a number nor as a truth
    value nor as a missing value: it starts with a letter, and is not one
    of the words that stand for such a value. *)
Definition text_cell (s : string) : bool :=
  match s with
  | String c _ =>
      is_letter c && negb (isna s)
      && negb (bool_decide (lower s ∈ ["inf"; "infinity"; "nan"; "true"; "false"]))
  | EmptyString => false
  end.

(** A column read without [dtype] ([modality], [path]).  Missing values
    are taken out first.  When a cell that is left is text, pandas keeps
    the column as text.  Otherwise it may take the column for numbers or
    truth values, and what [to_csv] writes for such a cell ([1] for [01],
    [1.0] for [1] beside a missing value, [True] for [TRUE]) is pandas's
    business: [numeric], given the column, says it. *)
Definition read_untyped (numeric : list string → string → string) (col : list string)
  : list string :=
  let col' := map read_str col in
  if existsb text_cell col' then col'
  else map (λ s, if decide (s = "") then "" else numeric col' s) col'.

(** [df[df.hashed_uid == uid]]; a missing value is equal to nothing. *)
Definition with_hashed_uid (uid : string) (df : DataFrame) : DataFrame :=
  filter (λ r, hashed_uid r ≠ "" ∧ hashed_uid r = uid) df.

(** ** Values held by files and by Python objects *)

(** A JSON document, as [json.dump] writes it and [json.load] returns it. *)
Inductive json :=
| JNull
| JBool (b : bool)
| JNum (z : Z)
| JStr (s : string)
| JArr (items : list json)
| JObj (fields : list (string * json)).

(** The voxels of a [SimpleITK.Image]; nothing here looks inside. *)
Abbreviation sitk_Image := (list Z).

(** A structure-name mapping: a dict from the canonical name to its
    variants, in insertion order. *)
Abbreviation mapping := (list (string * list string)).

Definition mapping_to_json (m : mapping) : json :=
  JObj (map (λ kv, (kv.1, JArr (map JStr kv.2))) m).

(** ** The file system *)

(** What a file holds.  A manifest written by [DataFrame.to_csv] holds the
    text of every cell, index column included; quoting is pandas's
    business. *)
Inductive content :=
| Csv (df : DataFrame)
| Json (doc : json)
| Nifti (img : sitk_Image)
| Bytes (b : string).

Inductive node :=
| Dir
| Symlink (target : string)
| File (c : content).

(** A location: the components from the root of the physical place of a
    node. *)
Abbreviation loc := (list string).

Abbreviation fs := (gmap (list string) node).

Definition MAXSYMLINKS : nat := 40.

Section walk.

Variable m : fs.

(** How the target of a symbolic link is resolved, from the directory of
    the link, with one link less to go. *)
Variable walk_target : loc → list string → result loc.

(** Path resolution, one component at a time, from the directory [cur]:
    every directory on the way must exist; [".."] goes to the physical
    parent; a symbolic link is replaced by its target, except a last
    component when [nofollow] is set.  The location of a last component
    that does not exist is still returned, for the calls that create it. *)
Fixpoint walk_with (nofollow : bool) (cur : loc) (rest : list string) : result loc :=
  match rest with
  | [] => Ok cur
  | x :: rest' =>
      match m !! cur with
      | Some Dir =>
          if decide (x = "..") then walk_with nofollow (removelast cur) rest'
          else
            match m !! (cur ++ [x]) with
            | Some (Symlink t) =>
                if nofollow && bool_decide (rest' = []) then Ok (cur ++ [x])
                else
                  match walk_target (if is_absolute (Path t) then [] else cur)
                                    (tail (Path t)) with
                  | Ok l => walk_with nofollow l rest'
                  | Err e => Err e
                  end
            | _ => walk_with nofollow (cur ++ [x]) rest'
            end
      | Some _ => Err (OSError ENOTDIR)
      | None => Err (OSError ENOENT)
      end
  end.

End walk.

(** [walk n m nofollow cur rest]: resolution through at most [n] nested
    symbolic links. *)
Fixpoint walk (n : nat) (m : fs) (nofollow : bool) (cur : loc) (rest : list string)
  : result loc :=
  match n with
  | O => walk_with m (λ _ _, Err (OSError ELOOP)) nofollow cur rest
  | S k => walk_with m (walk k m false) nofollow cur rest
  end.

(** ** State and exceptions *)

(** A computation on a state [S]: it returns or raises, and an exception
    keeps the state reached so far. *)
Definition ST (S A : Type) : Type := S → result A * S.

Definition ret {S A} (a : A) : ST S A := λ s, (Ok a, s).

Definition raise {S A} (e : exn) : ST S A := λ s, (Err e, s).

Definition bind {S A B} (c : ST S A) (k : A → ST S B) : ST S B :=
  λ s, match c s with
       | (Ok a, s') => k a s'
       | (Err e, s') => (Err e, s')
       end.

Notation "x <- c ;; k" := (bind c (λ x, k))
  (at level 100, c at next level, right associativity).
Notation "c ;;; k" := (bind c (λ _, k))
  (at level 100, right associativity).

(** A pure computation that may raise. *)
Definition lift {S A} (r : result A) : ST S A := λ s, (r, s).

(** [for x in l: body(x)]: an exception ends the loop. *)
Fixpoint for_each {S A} (l : list A) (body : A → ST S unit) : ST S unit :=
  match l with
  | [] => ret tt
  | x :: l' => body x ;;; for_each l' body
  end.

(** ** System calls on paths *)

Module os.

Section calls.

(** The working directory of the process. *)
Variable cwd : loc.

(** Where the resolution of [p] starts. *)
Definition start_of (p : PurePath) : loc :=
  if is_absolute p then [] else cwd.

(** The location [p] names, the last symbolic link followed ([stat]). *)
Definition stat (m : fs) (p : PurePath) : result loc :=
  walk MAXSYMLINKS m false (start_of p) (tail p).

(** The location [p] names, a last symbolic link not followed ([lstat]). *)
Definition lstat (m : fs) (p : PurePath) : result loc :=
  walk MAXSYMLINKS m true (start_of p) (tail p).

(** [p.exists()]: false also when resolution fails. *)
Definition path_exists (p : PurePath) : ST fs bool :=
  λ m, (Ok match stat m p with
           | Ok l => bool_decide (is_Some (m !! l))
           | Err _ => false
           end, m).

(** [p.is_dir()]. *)
Definition is_dir (m : fs) (p : PurePath) : bool :=
  match stat m p with
  | Ok l => match m !! l with Some Dir => true | _ => false end
  | Err _ => false
  end.

(** [os.mkdir(p)]. *)
Definition mkdir (p : PurePath) : ST fs unit :=
  λ m, match lstat m p with
       | Ok l =>
           match m !! l with
           | None => (Ok tt, <[l := Dir]> m)
           | Some _ => (Err (OSError EEXIST), m)
           end
       | Err e => (Err e, m)
       end.

(** [Path(root, names reversed).mkdir(parents=True, exist_ok=True)], as
    pathlib does it: try [os.mkdir]; when a parent is missing, make the
    parent the same way and try once more; on any other error accept an
    existing directory. *)
Fixpoint mkdir_rev (r : string) (rnames : list string) : ST fs unit :=
  λ m,
    let p := {| root := r; tail := rev rnames |} in
    match mkdir p m with
    | (Ok tt, m') => (Ok tt, m')
    | (Err (OSError ENOENT), _) =>
        match rnames with
        | [] => (Err (OSError ENOENT), m)
        | _ :: rparent =>
            match mkdir_rev r rparent m with
            | (Ok tt, m1) =>
                match mkdir p m1 with
                | (Ok tt, m2) => (Ok tt, m2)
                | (Err (OSError ENOENT), _) => (Err (OSError ENOENT), m1)
                | (Err e, _) => if is_dir m1 p then (Ok tt, m1) else (Err e, m1)
                end
            | (Err e, m1) => (Err e, m1)
            end
        end
    | (Err e, _) => if is_dir m p then (Ok tt, m) else (Err e, m)
    end.

Definition makedirs_exist_ok (p : PurePath) : ST fs unit :=
  mkdir_rev (root p) (rev (tail p)).

(** [os.symlink(target, p)]. *)
Definition symlink (target : string) (p : PurePath) : ST fs unit :=
  λ m, match lstat m p with
       | Ok l =>
           match m !! l with
           | None => (Ok tt, <[l := Symlink target]> m)
           | Some _ => (Err (OSError EEXIST), m)
           end
       | Err e => (Err e, m)
       end.

(** [open(p, "w")] and writing [c]: the file is created or replaced. *)
Definition write_file (p : PurePath) (c : content) : ST fs unit :=
  λ m, match stat m p with
       | Ok l =>
           match m !! l with
           | Some Dir => (Err (OSError EISDIR), m)
           | Some (Symlink _) => (Err (OSError ELOOP), m)
           | Some (File _) | None => (Ok tt, <[l := File c]> m)
           end
       | Err e => (Err e, m)
       end.

(** Reading the file at [p]. *)
Definition read_file (p : PurePath) : ST fs content :=
  λ m, match stat m p with
       | Ok l =>
           match m !! l with
           | Some (File c) => (Ok c, m)
           | Some Dir => (Err (OSError EISDIR), m)
           | Some (Symlink _) => (Err (OSError ELOOP), m)
           | None => (Err (OSError ENOENT), m)
           end
       | Err e => (Err e, m)
       end.

(** The entries of the directory [p] whose name ends with [suffix], each
    as [p / name]; nothing when [p] is not a directory. *)
Definition listdir_suffix (p : PurePath) (suffix : string) : ST fs (list PurePath) :=
  λ m, (Ok match stat m p with
           | Ok d =>
               match m !! d with
               | Some Dir =>
                   omap (λ kv, match strip_prefix d kv.1 with
                               | Some [x] =>
                                   if py_str.endswith suffix x
                                   then Some {| root := root p; tail := tail p ++ [x] |}
                                   else None
                               | _ => None
                               end)
                        (map_to_list m)
               | _ => []
               end
           | Err _ => []
           end, m).

End calls.

End os.

(** ** Python objects *)

(** The accessor object of class [StructureSet]. *)
Record StructureSet_obj := mkStructureSet {
  structure_set_path : PurePath;
  structure_names : list string;
  structure_mapping : option mapping;
  cache : gmap string sitk_Image
}.

Inductive pyobj :=
| OSeries (s : Series)
| ODataFrame (df : DataFrame)
| OStructureSet (s : StructureSet_obj).

(** A reference to an object of the store. *)
Abbreviation ref := nat.

(** ** The state of a run *)

(** The working directory of the process, the file system, the store of
    Python objects, the paths [sitk.ReadImage] was called with (oldest
    first), and the pandas that is installed, for what the model leaves to
    it: the text written for the cells of a column read as numbers or
    truth values (see [read_untyped]). *)
Record world := mkWorld {
  cwd : loc;
  nodes : fs;
  heap : gmap nat pyobj;
  image_reads : list string;
  pandas_numeric : list string → string → string
}.

Definition set_nodes (m : fs) (w : world) : world :=
  {| cwd := cwd w; nodes := m; heap := heap w; image_reads := image_reads w;
     pandas_numeric := pandas_numeric w |}.

Definition set_heap (h : gmap nat pyobj) (w : world) : world :=
  {| cwd := cwd w; nodes := nodes w; heap := h; image_reads := image_reads w;
     pandas_numeric := pandas_numeric w |}.

Definition log_image_read (s : string) (w : world) : world :=
  {| cwd := cwd w; nodes := nodes w; heap := heap w;
     image_reads := image_reads w ++ [s];
     pandas_numeric := pandas_numeric w |}.

(** The monad of methods. *)
Definition M (A : Type) : Type := ST world A.

(** A system call made by a method. *)
Definition syscall {A} (c : loc → ST fs A) : M A :=
  λ w, (fst (c (cwd w) (nodes w)), set_nodes (snd (c (cwd w) (nodes w))) w).

(** ** pathlib and pandas on the file system *)

(** [p.exists()]. *)
Definition path_exists (p : PurePath) : M bool :=
  syscall (λ cwd, os.path_exists cwd p).

(** [p.mkdir(parents=True, exist_ok=True)]. *)
Definition mkdir_parents_exist_ok (p : PurePath) : M unit :=
  syscall (λ cwd, os.makedirs_exist_ok cwd p).

(** [p.symlink_to(target)]. *)
Definition symlink_to (p target : PurePath) : M unit :=
  syscall (λ cwd, os.symlink cwd (str target) p).

(** [df.to_csv(p)]: the text of every cell, a missing value as the empty
    text.  pandas first checks that the parent of [p] is a directory;
    opening the file fails in the same cases. *)
Definition to_csv (df : DataFrame) (p : PurePath) : M unit :=
  syscall (λ cwd, os.write_file cwd p (Csv df)).

(** The frame [read_csv] makes of the rows of a file, with
    [dtype={"patient_id": str, "hashed_uid": str}]: the two columns are
    read as text, the other two without [dtype]. *)
Definition read_frame (numeric : list string → string → string) (df : DataFrame)
  : DataFrame :=
  zip_with (λ r (mp : string * string),
              {| index_label := index_label r;
                 patient_id := read_str (patient_id r);
                 hashed_uid := read_str (hashed_uid r);
                 modality := mp.1;
                 path := mp.2 |})
           df
           (zip (read_untyped numeric (map modality df))
                (read_untyped numeric (map path df))).

(** What [pd.read_csv] makes of the file. *)
Definition parse_csv (numeric : list string → string → string) (c : content)
  : result DataFrame :=
  match c with
  | Csv df => Ok (read_frame numeric df)
  | _ => Err ParserError
  end.

(** [pd.read_csv(p, index_col=0, dtype=col_types)]. *)
Definition read_csv (p : PurePath) : M DataFrame :=
  c <- syscall (λ cwd, os.read_file cwd p) ;;
  (λ w, (parse_csv (pandas_numeric w) c, w)).

(** ** The store of Python objects *)

(** A new object; its reference is not in use. *)
Definition alloc (o : pyobj) : M ref :=
  λ w, let r := fresh (dom (heap w)) in
       (Ok r, set_heap (<[r := o]> (heap w)) w).

Definition get_Series (r : ref) : M Series :=
  λ w, match heap w !! r with
       | Some (OSeries s) => (Ok s, w)
       | _ => (Err (TypeError "not a Series"), w)
       end.

Definition get_DataFrame (r : ref) : M DataFrame :=
  λ w, match heap w !! r with
       | Some (ODataFrame df) => (Ok df, w)
       | _ => (Err (TypeError "not a DataFrame"), w)
       end.

Definition get_StructureSet (r : ref) : M StructureSet_obj :=
  λ w, match heap w !! r with
       | Some (OStructureSet s) => (Ok s, w)
       | _ => (Err (TypeError "not a StructureSet"), w)
       end.

(** The object behind [r] changes in place: every holder of [r] sees it. *)
Definition put (r : ref) (o : pyobj) : M unit :=
  λ w, (Ok tt, set_heap (<[r := o]> (heap w)) w).

(** [row.copy()]: a new [Series] with the same entries. *)
Definition Series_copy (row : ref) : M ref :=
  s <- get_Series row ;; alloc (OSeries s).

(** [row.path = p]. *)
Definition Series_set_path (row : ref) (p : string) : M unit :=
  s <- get_Series row ;; put row (OSeries (set_path p s)).

(** [column.apply(f)]: [f] on every entry, in order; the first exception
    ends it. *)
Fixpoint apply (f : string → result string) (col : list string) : result (list string) :=
  match col with
  | [] => Ok []
  | x :: col' =>
      match f x with
      | Ok y => match apply f col' with
                | Ok ys => Ok (y :: ys)
                | Err e => Err e
                end
      | Err e => Err e
      end
  end.

(** [df.path = col]: the column is replaced in the frame object itself. *)
Definition DataFrame_set_path (df : ref) (col : list string) : M unit :=
  d <- get_DataFrame df ;; put df (ODataFrame (zip_with set_path col d)).

(** ** The constants of [pydicer.constants] *)

(** Modelled from the spec: [pydicer.constants] is not among the sources;
    the spec names the pool directory [converted/], a subdirectory of the
    working root. *)
Definition CONVERTED_DIR_NAME : string := "converted".

(** ** class PrepareDataset *)

Module PrepareDataset.

Record t := mk { working_directory : PurePath }.

Definition __init__ (working_directory : string) : t :=
  {| working_directory := Path working_directory |}.

(** [add_object_to_dataset(self, dataset_name, data_object_row)].
    Logging is left out: it changes nothing a method reads. *)
Definition add_object_to_dataset (self : t) (dataset_name : string)
    (data_object_row : ref) : M unit :=
  let dataset_dir := joinpath (working_directory self) (Path dataset_name) in
  (* Create a copy so that we aren't manipulating the original entry *)
  data_object_row <- Series_copy data_object_row ;;
  row <- get_Series data_object_row ;;
  let object_path := Path (path row) in
  (if is_absolute object_path then
     rel <- lift (relative_to object_path (working_directory self)) ;;
     Series_set_path data_object_row (str rel)
   else ret tt) ;;;
  row <- get_Series data_object_row ;;
  let object_path := Path (path row) in
  stripped <- lift (relative_to object_path (Path CONVERTED_DIR_NAME)) ;;
  let symlink_path := joinpath dataset_dir stripped in
  rel_parent <- lift (relative_to (parent symlink_path) (working_directory self)) ;;
  let rel_part := py_str.join os_sep (map (λ _, "..") (parts rel_parent)) in
  let src_path := Path (rel_part +:+ os_sep +:+ str object_path) in
  mkdir_parents_exist_ok (parent symlink_path) ;;;
  present <- path_exists symlink_path ;;
  (if present then ret tt else symlink_to symlink_path src_path) ;;;
  row <- get_Series data_object_row ;;
  let pat_id := patient_id row in
  let pat_dir := joinpath dataset_dir (Path pat_id) in
  let pat_converted_csv := joinpath pat_dir (Path "converted.csv") in
  let df_pat := [row] in
  present <- path_exists pat_converted_csv ;;
  df_pat <- (if present then
               df_converted <- read_csv pat_converted_csv ;;
               (* Check if this object already exists in the converted dataframe *)
               if (length (with_hashed_uid (hashed_uid row) df_converted) =? 0)%nat
               then ret (df_converted ++ df_pat)
               else ret df_converted
             else ret df_pat) ;;
  let df_pat := reset_index df_pat in
  to_csv df_pat (joinpath pat_dir (Path "converted.csv")).

(** [prepare_from_dataframe(self, dataset_name, df_prepare)].  The warning
    about an existing dataset directory is only logged. *)
Definition prepare_from_dataframe (self : t) (dataset_name : string)
    (df_prepare : ref) : M unit :=
  let dataset_dir := joinpath (working_directory self) (Path dataset_name) in
  path_exists dataset_dir ;;;
  (* Remove the working directory part *)
  df <- get_DataFrame df_prepare ;;
  col <- lift (apply (λ p, match relative_to (Path p) (working_directory self) with
                           | Ok rel => Ok (str rel)
                           | Err e => Err e
                           end)
                     (map path df)) ;;
  DataFrame_set_path df_prepare col ;;;
  (* For each data object prepare the data in the dataset directory *)
  df <- get_DataFrame df_prepare ;;
  for_each df (λ r, row <- alloc (OSeries r) ;;
                    add_object_to_dataset self dataset_name row).

Section prepare.

(** The collaborators of [prepare], which are not among the sources:
    [pydicer.utils.read_converted_data], which reads the manifest of the
    whole pool, and the module [pydicer.dataset.functions], looked up by
    attribute name. *)
Variable read_converted_data : PurePath → option (list string) → world → DataFrame.
Variable functions : string → option (ref → M ref).

(** [prepare(self, dataset_name, preparation_function, patients)]: the
    preparation function is a name or a callable; keyword arguments are
    part of the callable.  The callable is given the table of the pool, a
    new object, and returns a table: a new one, the one it was given, or
    one that was there before. *)
Definition prepare (self : t) (dataset_name : string)
    (preparation_function : string + (ref → M ref))
    (patients : option (list string)) : M unit :=
  preparation_function <-
    match preparation_function with
    | inl name =>
        match functions name with
        | Some f => ret f
        | None => raise (AttributeError name)
        end
    | inr f => ret f
    end ;;
  (* Grab the DataFrame containing all the converted data *)
  df_converted <-
    (λ w, alloc (ODataFrame (read_converted_data (working_directory self) patients w)) w) ;;
  df_clean_data <- preparation_function df_converted ;;
  prepare_from_dataframe self dataset_name df_clean_data.

End prepare.

End PrepareDataset.

(** ** SimpleITK, glob and json *)

(** [sitk.ReadImage(s)]: every call is recorded, then the file is read. *)
Definition ReadImage (s : string) : M sitk_Image :=
  λ w, let w := log_image_read s w in
       match syscall (λ cwd, os.read_file cwd (Path s)) w with
       | (Ok (Nifti img), w') => (Ok img, w')
       | (_, w') => (Err (RuntimeError "unable to read image"), w')
       end.

(** [p.glob("*" + suffix)]: only the directory is listed. *)
Definition glob_suffix (p : PurePath) (suffix : string) : M (list PurePath) :=
  syscall (λ cwd, os.listdir_suffix cwd p suffix).

(** [json.dump(doc, open(p, "w"))]. *)
Definition json_dump (doc : json) (p : PurePath) : M unit :=
  syscall (λ cwd, os.write_file cwd p (Json doc)).

(** [json.load(open(p))]. *)
Definition json_load (p : PurePath) : M json :=
  c <- syscall (λ cwd, os.read_file cwd p) ;;
  match c with
  | Json doc => ret doc
  | _ => raise (ValueError "not a JSON document")
  end.

(** ** class StructureSet *)

Module StructureSet.

Section methods.

(** [pydicer.utils.map_structure_name] is not among the sources: it takes
    the requested name and the mapping and gives the name to look up. *)
Variable map_structure_name : string → mapping → string.

Definition set_cache (c : gmap string sitk_Image) (s : StructureSet_obj)
  : StructureSet_obj :=
  {| structure_set_path := structure_set_path s;
     structure_names := structure_names s;
     structure_mapping := structure_mapping s;
     cache := c |}.

(** [StructureSet(structure_set_row, structure_mapping)]: the reference of
    the new accessor. *)
Definition __init__ (structure_set_row : ref) (structure_mapping : option mapping)
  : M ref :=
  row <- get_Series structure_set_row ;;
  if negb (bool_decide (modality row = "RTSTRUCT")) then
    raise (AttributeError "structure_set_row modality must be of RTSTRUCT")
  else
    let structure_set_path := Path (path row) in
    files <- glob_suffix structure_set_path ".nii.gz" ;;
    let structure_names :=
      map (λ s, py_str.replace ".nii.gz" "" (path_name s)) files in
    let structure_names :=
      match structure_mapping with
      | Some m => map fst m
      | None => structure_names
      end in
    alloc (OStructureSet {| structure_set_path := structure_set_path;
                            structure_names := structure_names;
                            structure_mapping := structure_mapping;
                            cache := ∅ |}).

(** [self[item]]. *)
Definition __getitem__ (self : ref) (item : string) : M sitk_Image :=
  s <- get_StructureSet self ;;
  let item :=
    match structure_mapping s with
    | Some m => map_structure_name item m
    | None => item
    end in
  if negb (bool_decide (item ∈ structure_names s)) then
    raise (KeyError ("Structure name " +:+ item +:+ " not found in structure set."))
  else
    match cache s !! item with
    | Some img => ret img
    | None =>
        let structure_path :=
          joinpath (structure_set_path s) (Path (item +:+ ".nii.gz")) in
        result <- ReadImage (str structure_path) ;;
        s <- get_StructureSet self ;;
        put self (OStructureSet (set_cache (<[item := result]> (cache s)) s)) ;;;
        ret result
    end.

(** [self.keys()]. *)
Definition keys (self : ref) : M (list string) :=
  s <- get_StructureSet self ;; ret (structure_names s).

(** [self.create_mapping_json(mapping_dict, level)]. *)
Definition create_mapping_json (self : ref) (mapping_dict : mapping) (level : string)
  : M unit :=
  s <- get_StructureSet self ;;
  let final_map := JObj [("structures", mapping_to_json mapping_dict)] in
  p <- (if decide (level = "project") then
          ret (joinpath (parent (parent (parent (parent (structure_set_path s)))))
                        (Path ".pydicer"))
        else if decide (level = "patient") then
          ret (parent (parent (structure_set_path s)))
        else if decide (level = "current_structure_set") then
          ret (structure_set_path s)
        else
          raise (ValueError
                   "level must be one of 'project', 'patient' or 'current_structure_set'.")) ;;
  (* Create the mapping file *)
  json_dump final_map (joinpath p (Path "structures_map.json")).

End methods.

End StructureSet.

(** ** Notions used to state the properties *)

Fixpoint has_char (c : ascii) (s : string) : bool :=
  match s with
  | EmptyString => false
  | String a r => Ascii.eqb a c || has_char c r
  end.

(** A component as [Path] produces them. *)
Definition name_ok (x : string) : Prop :=
  x ≠ "" ∧ x ≠ "." ∧ has_char "/" x = false.

(** A parsed path. *)
Definition wf_path (p : PurePath) : Prop :=
  (root p = "" ∨ root p = "/" ∨ root p = "//") ∧ Forall name_ok (tail p).

(** *** The steps of [add_object_to_dataset] *)

(** The row the method works on: the copy, its path made relative to the
    working directory when it is absolute (lines 34-37). *)
Definition normalised_row (self : PrepareDataset.t) (row : Series) : result Series :=
  let object_path := Path (path row) in
  if is_absolute object_path then
    match relative_to object_path (PrepareDataset.working_directory self) with
    | Ok rel => Ok (set_path (str rel) row)
    | Err e => Err e
    end
  else Ok row.

(** Where the reference goes and what it points to (lines 39-45). *)
Definition reference_of (self : PrepareDataset.t) (dataset_name : string) (row : Series)
  : result (PurePath * PurePath) :=
  let dataset_dir := joinpath (PrepareDataset.working_directory self) (Path dataset_name) in
  let object_path := Path (path row) in
  match relative_to object_path (Path CONVERTED_DIR_NAME) with
  | Ok stripped =>
      let symlink_path := joinpath dataset_dir stripped in
      match relative_to (parent symlink_path) (PrepareDataset.working_directory self) with
      | Ok rel_parent =>
          let rel_part := py_str.join os_sep (map (λ _, "..") (parts rel_parent)) in
          Ok (symlink_path, Path (rel_part +:+ os_sep +:+ str object_path))
      | Err e => Err e
      end
  | Err e => Err e
  end.

(** The manifest of the patient of [row] in the dataset (lines 54-56). *)
Definition manifest_path (self : PrepareDataset.t) (dataset_name : string) (row : Series)
  : PurePath :=
  let dataset_dir := joinpath (PrepareDataset.working_directory self) (Path dataset_name) in
  joinpath (joinpath dataset_dir (Path (patient_id row))) (Path "converted.csv").

(** The merge of lines 64-69. *)
Definition merge_row (row : Series) (df_converted : DataFrame) : DataFrame :=
  if (length (with_hashed_uid (hashed_uid row) df_converted) =? 0)%nat
  then df_converted ++ [row]
  else df_converted.

(** The reference is made unless something is there (lines 49-52). *)
Definition link_step (cwd : loc) (symlink_path src_path : PurePath) : ST fs unit :=
  present <- os.path_exists cwd symlink_path ;;
  if present then ret tt else os.symlink cwd (str src_path) symlink_path.

(** The manifest is read, merged and written (lines 57-72). *)
Definition merge_step (numeric : list string → string → string) (cwd : loc)
    (csv : PurePath) (row : Series) : ST fs unit :=
  present <- os.path_exists cwd csv ;;
  df_pat <- (if present then
               c <- os.read_file cwd csv ;;
               df_converted <- lift (parse_csv numeric c) ;;
               ret (merge_row row df_converted)
             else ret [row]) ;;
  os.write_file cwd csv (Csv (reset_index df_pat)).

(** The system calls of the method (lines 47-72), for a reference at
    [symlink_path] to [src_path] and the manifest [csv]. *)
Definition place (numeric : list string → string → string) (cwd : loc)
    (symlink_path src_path csv : PurePath) (row : Series) : ST fs unit :=
  os.makedirs_exist_ok cwd (parent symlink_path) ;;;
  link_step cwd symlink_path src_path ;;;
  merge_step numeric cwd csv row.

(** The column [prepare_from_dataframe] computes (lines 90-92). *)
Definition relative_paths (self : PrepareDataset.t) (df : DataFrame) : result (list string) :=
  apply (λ p, match relative_to (Path p) (PrepareDataset.working_directory self) with
              | Ok rel => Ok (str rel)
              | Err e => Err e
              end)
        (map path df).


(** *** Orders on file systems *)

(** The record a row stands for: its columns, without the index label. *)
Definition record_of (r : Series) : string * string * string * string :=
  (patient_id r, hashed_uid r, modality r, path r).

Definition records (df : DataFrame) : list (string * string * string * string) :=
  map record_of df.

(** A node keeps its kind: a directory stays a directory, a link keeps its
    target, a file stays a file. *)
Definition node_kind_le (a b : node) : Prop :=
  match a with
  | Dir => b = Dir
  | Symlink t => b = Symlink t
  | File _ => ∃ c, b = File c
  end.

Definition kind_le (m m' : fs) : Prop :=
  ∀ l n, m !! l = Some n → ∃ n', m' !! l = Some n' ∧ node_kind_le n n'.

(** A file keeps its content, but a manifest may get more rows after the
    ones it has. *)
Definition content_le (c c' : content) : Prop :=
  match c with
  | Csv df => ∃ df', c' = Csv df' ∧ records df `prefix_of` records df'
  | _ => c' = c
  end.

Definition node_le (a b : node) : Prop :=
  match a with
  | Dir => b = Dir
  | Symlink t => b = Symlink t
  | File c => ∃ c', b = File c' ∧ content_le c c'
  end.

(** Nothing is removed: every node is still there, links point where they
    did, and manifests have kept their rows. *)
Definition fs_le (m m' : fs) : Prop :=
  ∀ l n, m !! l = Some n → ∃ n', m' !! l = Some n' ∧ node_le n n'.

(** No manifest has two rows with the same [hashed_uid]. *)
Definition unique_uids (df : DataFrame) : Prop := NoDup (map hashed_uid df).

Definition node_unique (n : node) : Prop :=
  match n with
  | File (Csv df) => unique_uids df
  | _ => True
  end.

Definition manifests_unique (m : fs) : Prop := map_Forall (λ _, node_unique) m.

#[global] Instance node_unique_dec n : Decision (node_unique n).
Proof. destruct n as [| |[]]; simpl; unfold unique_uids; apply _. Defined.

#[global] Instance manifests_unique_dec m : Decision (manifests_unique m).
Proof. unfold manifests_unique. apply _. Defined.

(** A row that [read_csv] gives back as [to_csv] wrote it, whatever the
    other rows are: no cell is read as a missing value, and the cells of
    the columns without [dtype] are text. *)
Definition plain_row (r : Series) : Prop :=
  isna (patient_id r) = false ∧ isna (hashed_uid r) = false
  ∧ text_cell (modality r) = true ∧ text_cell (path r) = true.

(** The same for a record as a caller gives it, whose path is still to be
    made relative: the row that the call writes is plain. *)
Definition stored_plain (self : PrepareDataset.t) (row : Series) : Prop :=
  match normalised_row self row with
  | Ok row' => plain_row row'
  | Err _ => True
  end.

(** The object at [r] is there and, when it is a record, it is stored as a
    plain row. *)
Definition plain_at (self : PrepareDataset.t) (w : world) (r : ref) : Prop :=
  match heap w !! r with
  | Some (OSeries row) => stored_plain self row
  | Some _ => True
  | None => False
  end.

Definition node_plain (n : node) : Prop :=
  match n with
  | File (Csv df) => Forall plain_row df
  | _ => True
  end.

(** Every manifest is read back as it was written. *)
Definition manifests_plain (m : fs) : Prop := map_Forall (λ _, node_plain) m.

#[global] Instance plain_row_dec r : Decision (plain_row r).
Proof. unfold plain_row. apply _. Defined.

#[global] Instance stored_plain_dec self r : Decision (stored_plain self r).
Proof. unfold stored_plain. destruct (normalised_row self r); apply _. Defined.

#[global] Instance plain_at_dec self w r : Decision (plain_at self w r).
Proof. unfold plain_at. destruct (heap w !! r) as [[]|]; apply _. Defined.

#[global] Instance node_plain_dec n : Decision (node_plain n).
Proof. destruct n as [| |[]]; simpl; apply _. Defined.

#[global] Instance manifests_plain_dec m : Decision (manifests_plain m).
Proof. unfold manifests_plain. apply _. Defined.

(** [m'] is [m] with some new directories. *)
Definition dirs_added (m m' : fs) : Prop :=
  ∀ l, m' !! l = m !! l ∨ (m !! l = None ∧ m' !! l = Some Dir).

(** *** Callers *)

(** A caller that makes the calls [calls] one after the other and goes on
    after an exception. *)
Definition run_calls (calls : list (M unit)) (w : world) : world :=
  fold_left (λ w c, snd (c w)) calls w.

(** The object [row] is in the manifest of its patient: the manifest has a
    row with its [hashed_uid]. *)
Definition placed (self : PrepareDataset.t) (dataset_name : string) (cwd : loc) (m : fs)
    (row : Series) : Prop :=
  ∃ l df, os.stat cwd m (manifest_path self dataset_name row) = Ok l ∧
          m !! l = Some (File (Csv df)) ∧
          hashed_uid row ∈ map hashed_uid df.

(** Lexical resolution of [".."], as [os.path.normpath] does it on the
    components below a root. *)
Fixpoint normpath_from (acc : list string) (l : list string) : list string :=
  match l with
  | [] => rev acc
  | x :: l' =>
      if decide (x = "..") then normpath_from (List.tl acc) l'
      else normpath_from (x :: acc) l'
  end.

Definition normpath (l : list string) : list string := normpath_from [] l.

(** *** A small pool, for the examples

    The working root is [/work]; patient [P1] has a CT image [a] and a
    structure set [b] with two label volumes. *)

(** In the examples the columns without [dtype] hold text; what pandas
    writes for a column of numbers is not asked for. *)
Definition sample_numeric (col : list string) (s : string) : string := s.

Definition sample_fs : fs :=
  list_to_map
    [([], Dir);
     (["work"], Dir);
     (["work"; "converted"], Dir);
     (["work"; "converted"; "P1"], Dir);
     (["work"; "converted"; "P1"; "CT"], Dir);
     (["work"; "converted"; "P1"; "CT"; "a"], Dir);
     (["work"; "converted"; "P1"; "RTSTRUCT"], Dir);
     (["work"; "converted"; "P1"; "RTSTRUCT"; "b"], Dir);
     (["work"; "converted"; "P1"; "RTSTRUCT"; "b"; "heart.nii.gz"], File (Nifti [1%Z]));
     (["work"; "converted"; "P1"; "RTSTRUCT"; "b"; "lung_l.nii.gz"], File (Nifti [2%Z]))].

Definition row_a : Series :=
  mkSeries 0 "P1" "a" "CT" "/work/converted/P1/CT/a".

Definition row_b : Series :=
  mkSeries 1 "P1" "b" "RTSTRUCT" "/work/converted/P1/RTSTRUCT/b".

(** A row whose object is not under the working root. *)
Definition row_outside : Series :=
  mkSeries 2 "P9" "z" "CT" "/elsewhere/converted/P9/CT/z".

(** The store holds the three rows and three tables. *)
Definition sample_heap : gmap nat pyobj :=
  list_to_map
    [(0, OSeries row_a);
     (1, OSeries row_b);
     (2, OSeries row_outside);
     (3, ODataFrame [row_a]);
     (4, ODataFrame [row_b]);
     (5, ODataFrame [row_outside; row_a; row_b])].

Definition sample_world : world :=
  {| cwd := ["work"]; nodes := sample_fs; heap := sample_heap; image_reads := [];
     pandas_numeric := sample_numeric |}.

Definition sample_self : PrepareDataset.t := PrepareDataset.__init__ "/work".

(** The body of the loop of [prepare_from_dataframe] (lines 95-96): the
    row comes out of [iterrows] as a new [Series]. *)
Definition place_row (self : PrepareDataset.t) (dataset_name : string) (r : Series)
  : M unit :=
  row <- alloc (OSeries r) ;;
  PrepareDataset.add_object_to_dataset self dataset_name row.

(** The callable [prepare] uses: a name is looked up in
    [pydicer.dataset.functions] (lines 113-120). *)
Definition preparation_function_of (functions : string → option (ref → M ref))
    (preparation_function : string + (ref → M ref))
  : option (ref → M ref) :=
  match preparation_function with
  | inl name => functions name
  | inr f => Some f
  end.

(** The pool manifest of the examples, and two filters. *)
Definition sample_read_converted_data (wd : PurePath) (patients : option (list string))
    (w : world) : DataFrame :=
  [row_a; row_b].

Definition only_uid (uid : string) (df : DataFrame) : DataFrame :=
  with_hashed_uid uid df.

(** A preparation function that selects rows: its result is a new
    table. *)
Definition selecting (f : DataFrame → DataFrame) (df_converted : ref) : M ref :=
  df <- get_DataFrame df_converted ;; alloc (ODataFrame (f df)).

Definition sample_functions (name : string) : option (ref → M ref) :=
  if decide (name = "rt_latest_struct") then Some (selecting (only_uid "b")) else None.

(** *** The accessor *)

(** The name [__getitem__] looks up (lines 154-155). *)
Definition resolved_name (map_structure_name : string → mapping → string)
    (structure_mapping : option mapping) (item : string) : string :=
  match structure_mapping with
  | Some m => map_structure_name item m
  | None => item
  end.

(** The file of the structure [name] (line 163). *)
Definition structure_file (structure_set_path : PurePath) (name : string) : string :=
  str (joinpath structure_set_path (Path (name +:+ ".nii.gz"))).

(** The message of line 158 for [name]. *)
Definition not_found_message (name : string) : string :=
  "Structure name " +:+ name +:+ " not found in structure set.".

(** The levels [create_mapping_json] knows, and where it writes for each
    (lines 182-196). *)
Definition known_levels : list string := ["project"; "patient"; "current_structure_set"].

Definition mapping_file (structure_set_path : PurePath) (level : string) : PurePath :=
  joinpath
    (if decide (level = "project") then
       joinpath (parent (parent (parent (parent structure_set_path)))) (Path ".pydicer")
     else if decide (level = "patient") then parent (parent structure_set_path)
     else structure_set_path)
    (Path "structures_map.json").

(** Reading a mapping back from a document. *)
Fixpoint strings_of_json (items : list json) : option (list string) :=
  match items with
  | [] => Some []
  | JStr s :: items' =>
      match strings_of_json items' with
      | Some l => Some (s :: l)
      | None => None
      end
  | _ :: _ => None
  end.

Fixpoint mapping_of_fields (fields : list (string * json)) : option mapping :=
  match fields with
  | [] => Some []
  | (k, JArr items) :: fields' =>
      match strings_of_json items, mapping_of_fields fields' with
      | Some vs, Some m => Some ((k, vs) :: m)
      | _, _ => None
      end
  | _ :: _ => None
  end.

Definition mapping_of_json (doc : json) : option mapping :=
  match doc with
  | JObj [("structures", JObj fields)] => mapping_of_fields fields
  | _ => None
  end.

(** A resolver for the examples, of the kind the spec leaves open (exact or
    fuzzy matching): the requested name is matched in lower case against
    the variants, and is looked up in lower case when no variant matches. *)
Definition match_ignoring_case (item : string) (m : mapping) : string :=
  let name := lower item in
  match List.find (λ kv : string * list string, bool_decide (name ∈ kv.2)) m with
  | Some kv => kv.1
  | None => name
  end.

(** A resolver with exact matching: the canonical name of the first entry
    that has the name among its variants, else the name itself. *)
Definition match_variant (item : string) (m : mapping) : string :=
  match List.find (λ kv : string * list string, bool_decide (item ∈ kv.2)) m with
  | Some kv => kv.1
  | None => item
  end.

(** The resolver that leaves every name as it is. *)
Definition match_exactly (item : string) (m : mapping) : string := item.

Definition sample_mapping : mapping :=
  [("heart", ["heart"; "cor"]); ("lung_l", ["lung_l"; "left lung"])].

(** The accessor of the structure set [b], without and with a mapping; in
    both worlds the accessor is the object [6]. *)
Definition sample_accessor_world : world :=
  snd (StructureSet.__init__ 1 None sample_world).

Definition sample_mapped_accessor_world : world :=
  snd (StructureSet.__init__ 1 (Some sample_mapping) sample_world).

(** *** More examples *)

(** The dataset [clean] with a link for the image [a] whose target is
    gone. *)
Definition sample_dangling_fs : fs :=
  <[ ["work"; "clean"; "P1"; "CT"; "a"] := Symlink "../../../converted/P1/CT/gone" ]>
    (<[ ["work"; "clean"; "P1"; "CT"] := Dir ]>
       (<[ ["work"; "clean"; "P1"] := Dir ]>
          (<[ ["work"; "clean"] := Dir ]> sample_fs))).

Definition sample_dangling_world : world :=
  {| cwd := ["work"]; nodes := sample_dangling_fs; heap := sample_heap; image_reads := [];
     pandas_numeric := sample_numeric |}.

(** A row whose object is below the working root, but not in the pool. *)
Definition row_stray : Series :=
  mkSeries 3 "P1" "s" "CT" "/work/scratch/P1/CT/s".

Definition sample_stray_world : world :=
  {| cwd := ["work"]; nodes := sample_fs;
     heap := <[7 := OSeries row_stray]> sample_heap; image_reads := [];
     pandas_numeric := sample_numeric |}.

(** Lookups made one after the other by a caller that goes on after an
    exception. *)
Definition run_lookups (map_structure_name : string → mapping → string) (self : ref)
    (items : list string) (w : world) : world :=
  fold_left (λ w item, snd (StructureSet.__getitem__ map_structure_name self item w))
            items w.

(** A mapping with a canonical name that has no file. *)
Definition sample_mapping_spine : mapping :=
  [("heart", ["heart"; "cor"]); ("spine", ["spine"; "cord"])].

Definition sample_spine_accessor_world : world :=
  snd (StructureSet.__init__ 1 (Some sample_mapping_spine) sample_world).

(** A row for a structure set whose directory does not exist. *)
Definition row_missing : Series :=
  mkSeries 4 "P2" "m" "RTSTRUCT" "/work/converted/P2/RTSTRUCT/m".

Definition sample_missing_world : world :=
  {| cwd := ["work"]; nodes := sample_fs;
     heap := <[7 := OSeries row_missing]> sample_heap; image_reads := [];
     pandas_numeric := sample_numeric |}.

(** The dataset [clean] after the image [a] has been placed. *)
Definition sample_placed_world : world :=
  snd (PrepareDataset.add_object_to_dataset sample_self "clean" 0 sample_world).

(** The store with one more table, which has no rows. *)
Definition sample_empty_table_world : world :=
  set_heap (<[8 := ODataFrame []]> sample_heap) sample_world.

(** The names the constructor takes from the directory [p] (lines
    142-144): the entries whose name ends in [.nii.gz], every [.nii.gz]
    taken out of the name. *)
Definition listed_structures (w : world) (p : PurePath) : list string :=
  match fst (os.listdir_suffix (cwd w) p ".nii.gz" (nodes w)) with
  | Ok files => map (λ s, py_str.replace ".nii.gz" "" (path_name s)) files
  | Err _ => []
  end.

(** The accessor of [b] after a lookup of [heart]. *)
Definition sample_cached_world : world :=
  snd (StructureSet.__getitem__ match_exactly 6 "heart" sample_accessor_world).

Definition sample_cached_accessor : StructureSet_obj :=
  {| structure_set_path := Path "/work/converted/P1/RTSTRUCT/b";
     structure_names := ["heart"; "lung_l"];
     structure_mapping := None;
     cache := {[ "heart" := [1%Z] ]} |}.

(** [PrepareDataset()]: the working directory is the default, [.]. *)
Definition sample_default_self : PrepareDataset.t := PrepareDataset.__init__ ".".

(** A record whose [hashed_uid] is a text that pandas reads as a missing
    value, and the tables that hold it. *)
Definition row_na : Series :=
  mkSeries 0 "P1" "NA" "CT" "/work/converted/P1/CT/a".

Definition sample_na_heap : gmap nat pyobj :=
  list_to_map
    [(0, OSeries row_na);
     (3, ODataFrame [row_na]);
     (4, ODataFrame [])].

Definition sample_na_world : world :=
  {| cwd := ["work"]; nodes := sample_fs; heap := sample_na_heap; image_reads := [];
     pandas_numeric := sample_numeric |}.

(** The manifest of patient [P1] in the dataset [clean]. *)
Definition sample_manifest : loc := ["work"; "clean"; "P1"; "converted.csv"].

(** The rows of a table are plain once their paths are made relative to
    the working directory (lines 90-92). *)
Definition table_plain (self : PrepareDataset.t) (df : DataFrame) : Prop :=
  Forall (λ row,
            match relative_to (Path (path row)) (PrepareDataset.working_directory self) with
            | Ok rel => plain_row (set_path (str rel) row)
            | Err _ => True
            end) df.

#[global] Instance table_plain_dec self df : Decision (table_plain self df).
Proof.
  unfold table_plain. apply Forall_dec. intros row.
  destruct (relative_to _ _); apply _.
Defined.

(** The object at [df_prepare], when it is a table, has plain rows. *)
Definition holds_plain_table (self : PrepareDataset.t) (w : world) (df_prepare : ref) : Prop :=
  ∀ df, heap w !! df_prepare = Some (ODataFrame df) → table_plain self df.

(** The world in which [prepare] calls the preparation function: the
    table of the pool is a new object. *)
Definition pool_table_world
    (read_converted_data : PurePath → option (list string) → world → DataFrame)
    (self : PrepareDataset.t) (patients : option (list string)) (w : world) : world :=
  set_heap (<[fresh (dom (heap w)) :=
                ODataFrame (read_converted_data (PrepareDataset.working_directory self)
                              patients w)]> (heap w)) w.

(** The rows of the table that the preparation function [f] returns to
    [prepare] (line 129). *)
Definition selected
    (read_converted_data : PurePath → option (list string) → world → DataFrame)
    (self : PrepareDataset.t) (f : ref → M ref) (patients : option (list string))
    (w : world) : DataFrame :=
  let res := f (fresh (dom (heap w))) (pool_table_world read_converted_data self patients w) in
  match fst res with
  | Ok t => match heap (snd res) !! t with Some (ODataFrame df) => df | _ => [] end
  | Err _ => []
  end.

(** The preparation function [f], as [prepare] calls it in [w], leaves
    the file system alone, and the rows of its table are plain. *)
Definition plain_run
    (read_converted_data : PurePath → option (list string) → world → DataFrame)
    (self : PrepareDataset.t) (f : ref → M ref) (patients : option (list string))
    (w : world) : Prop :=
  let res := f (fresh (dom (heap w))) (pool_table_world read_converted_data self patients w) in
  nodes (snd res) = nodes w ∧ cwd (snd res) = cwd w
  ∧ table_plain self (selected read_converted_data self f patients w).

(** A pool whose image has the [hashed_uid] [NA]. *)
Definition sample_na_read_converted_data (wd : PurePath) (patients : option (list string))
    (w : world) : DataFrame :=
  [row_na; row_b].

(** An object directly below the pool root, of a patient whose directory
    is below the working root. *)
Definition row_flat : Series :=
  mkSeries 0 "P9" "x" "CT" "/work/converted/x".

Definition sample_flat_fs : fs :=
  <[ ["work"; "P9"] := Dir ]>
    (<[ ["work"; "converted"; "x"] := File (Nifti [3%Z]) ]> sample_fs).

Definition sample_flat_world : world :=
  {| cwd := ["work"]; nodes := sample_flat_fs;
     heap := <[0 := OSeries row_flat]> sample_heap; image_reads := [];
     pandas_numeric := sample_numeric |}.

(** The dataset directory [clean] is a link to a directory elsewhere. *)
Definition sample_linked_fs : fs :=
  <[ ["work"; "clean"] := Symlink "/data/clean" ]>
    (<[ ["data"; "clean"] := Dir ]> (<[ ["data"] := Dir ]> sample_fs)).

Definition sample_linked_world : world :=
  {| cwd := ["work"]; nodes := sample_linked_fs; heap := sample_heap; image_reads := [];
     pandas_numeric := sample_numeric |}.

(** The accessor of [b] with the mapping of the examples, as its
    constructor leaves it. *)
Definition sample_mapped_accessor : StructureSet_obj :=
  {| structure_set_path := Path "/work/converted/P1/RTSTRUCT/b";
     structure_names := ["heart"; "lung_l"];
     structure_mapping := Some sample_mapping;
     cache := ∅ |}.

(** * Part II: properties *)

(** ** Strings and paths *)

Lemma string_app_nil_l s : "" +:+ s = s.
Proof. reflexivity. Qed.

Lemma string_app_cons a s d : String a s +:+ d = String a (s +:+ d).
Proof. reflexivity. Qed.

Lemma string_app_nil_r s : s +:+ "" = s.
Proof. induction s as [|a s IH]; [done|]. by rewrite string_app_cons, IH. Qed.

Lemma string_app_assoc a b d : (a +:+ b) +:+ d = a +:+ (b +:+ d).
Proof. induction a as [|x a IH]; [done|]. by rewrite !string_app_cons, IH. Qed.

Lemma string_length_app a b : String.length (a +:+ b) = String.length a + String.length b.
Proof. induction a as [|x a IH]; [done|]. rewrite string_app_cons. simpl. by rewrite IH. Qed.

Section strings.

Variable c : ascii.

Lemma split_not_nil s : py_str.split c s ≠ [].
Proof. destruct s as [|a r]; simpl; [done|]. destruct (Ascii.eqb a c); [done|]. by destruct (py_str.split c r). Qed.

Lemma split_no_char s : has_char c s = false → py_str.split c s = [s].
Proof.
  induction s as [|a r IH]; simpl; [done|].
  intros [Ha Hr]%orb_false_iff. rewrite Ha, (IH Hr). done.
Qed.

Lemma split_fields s : Forall (λ x, has_char c x = false) (py_str.split c s).
Proof.
  induction s as [|a r IH]; simpl.
  - by repeat constructor.
  - destruct (Ascii.eqb a c) eqn:Ha.
    + by constructor.
    + destruct (py_str.split c r) as [|x xs]; [by repeat constructor; simpl; rewrite Ha|].
      inversion_clear IH. constructor; [|done]. simpl. by rewrite Ha.
Qed.

Lemma split_app_sep x s :
  has_char c x = false →
  py_str.split c (x +:+ String c s) = x :: py_str.split c s.
Proof.
  induction x as [|a r IH].
  - intros _. rewrite string_app_nil_l. simpl. by rewrite Ascii.eqb_refl.
  - intros [Ha Hr]%orb_false_iff. rewrite string_app_cons. simpl.
    rewrite Ha, (IH Hr). done.
Qed.

Lemma split_join l :
  Forall (λ x, has_char c x = false) l → l ≠ [] →
  py_str.split c (py_str.join (String c EmptyString) l) = l.
Proof.
  induction l as [|x l IH]; [done|]. intros Hl _.
  inversion_clear Hl as [|? ? Hx Hl'].
  destruct l as [|y l]; simpl.
  - by apply split_no_char.
  - change (String c "" +:+ ?s) with (String c s).
    rewrite split_app_sep by done. f_equal. by apply IH.
Qed.

Lemma lstrip_other s : py_str.startswith (String c EmptyString) s = false → py_str.lstrip c s = s.
Proof. destruct s as [|a r]; simpl; [done|]. rewrite andb_true_r, Ascii.eqb_sym. by intros ->. Qed.

End strings.


Lemma join_app sep l1 l2 :
  l1 ≠ [] → l2 ≠ [] →
  py_str.join sep (l1 ++ l2) = py_str.join sep l1 +:+ sep +:+ py_str.join sep l2.
Proof.
  induction l1 as [|x l1 IH]; [done|]. intros _ Hl2.
  destruct l1 as [|y l1].
  - simpl. by destruct l2.
  - change (py_str.join sep ((x :: y :: l1) ++ l2))
      with (x +:+ sep +:+ py_str.join sep ((y :: l1) ++ l2)).
    rewrite IH by done.
    change (py_str.join sep (x :: y :: l1)) with (x +:+ sep +:+ py_str.join sep (y :: l1)).
    by rewrite !string_app_assoc.
Qed.

Lemma Path_wf s : wf_path (Path s).
Proof.
  unfold Path, splitroot. split; simpl.
  - repeat case_match; auto.
  - apply Forall_forall. intros x [[? ?] Hx]%list_elem_of_filter.
    repeat split; [done..|].
    by eapply (proj1 (Forall_forall _ _) (split_fields "/" _)).
Qed.

Lemma join_names_head l :
  Forall name_ok l → py_str.startswith "/" (py_str.join "/" l) = false.
Proof.
  destruct l as [|x l]; [done|]. intros Hl. inversion_clear Hl as [|? ? (Hx1 & _ & Hx2) _].
  destruct x as [|a r]; [done|]. simpl in Hx2. apply orb_false_iff in Hx2 as [Ha _].
  assert (Hjoin : ∃ s, py_str.join "/" (String a r :: l) = String a s).
  { destruct l; simpl; [by eexists|]. rewrite string_app_cons. by eexists. }
  destruct Hjoin as [s ->].
  change (("/" =? a)%char && true = false). by rewrite andb_true_r, Ascii.eqb_sym.
Qed.

Lemma filter_names l : Forall name_ok l → filter (λ x, x ≠ "" ∧ x ≠ ".") l = l.
Proof.
  induction 1 as [|x l (? & ? & ?) _ IH]; [done|].
  rewrite filter_cons_True by done. by rewrite IH.
Qed.

Lemma names_fields l : Forall name_ok l → Forall (λ x, has_char "/" x = false) l.
Proof. intros Hl. eapply Forall_impl; [exact Hl|]. by intros x (_ & _ & ?). Qed.

Lemma tail_Path_join l :
  Forall name_ok l → tail (Path (py_str.join "/" l)) = l.
Proof.
  intros Hl. unfold Path, splitroot.
  rewrite (lstrip_other "/") by by apply join_names_head. simpl.
  destruct l as [|x l]; [done|].
  rewrite split_join by (by apply names_fields || done). by apply filter_names.
Qed.

(** [str] and [Path] are inverse on parsed paths. *)
Lemma Path_str p : wf_path p → Path (str p) = p.
Proof.
  destruct p as [r l]. intros [Hr Hl]; simpl in *. unfold str, os_sep; simpl.
  assert (Hhead := join_names_head l Hl).
  assert (Hstrip : py_str.lstrip "/" (py_str.join "/" l) = py_str.join "/" l)
    by by apply lstrip_other.
  assert (Htail : filter (λ x, x ≠ "" ∧ x ≠ ".") (py_str.split "/" (py_str.join "/" l)) = l).
  { destruct l as [|x l']; [done|].
    rewrite split_join by (by apply names_fields || done). by apply filter_names. }
  set (j := py_str.join "/" l) in *.
  destruct Hr as [-> | [-> | ->]].
  - rewrite string_app_nil_l. case_decide as Hs.
    + destruct l as [|x l']; [done|]. inversion_clear Hl as [|? ? (Hx & _) _].
      destruct x; [done|]. subst j. destruct l'; simpl in Hs; [done|].
      by rewrite string_app_cons in Hs.
    + unfold Path, splitroot. rewrite Hstrip, Nat.sub_diag. simpl. by rewrite Htail.
  - change ("/" +:+ j) with (String "/" j). rewrite decide_False by done.
    unfold Path, splitroot.
    change (py_str.lstrip "/" (String "/" j)) with (py_str.lstrip "/" j).
    rewrite Hstrip.
    replace (String.length (String "/" j) - String.length j) with 1 by (simpl; lia).
    simpl. by rewrite Htail.
  - change ("//" +:+ j) with (String "/" (String "/" j)). rewrite decide_False by done.
    unfold Path, splitroot.
    change (py_str.lstrip "/" (String "/" (String "/" j))) with (py_str.lstrip "/" j).
    rewrite Hstrip.
    replace (String.length (String "/" (String "/" j)) - String.length j) with 2 by (simpl; lia).
    simpl. by rewrite Htail.
Qed.

Lemma strip_prefix_Some pre l rest :
  strip_prefix pre l = Some rest ↔ l = pre ++ rest.
Proof.
  revert l. induction pre as [|x pre IH]; intros l; simpl.
  - split; congruence.
  - destruct l as [|y l]; [split; [done|by intros ?]|].
    case_decide; subst.
    + rewrite IH. split; congruence.
    + split; [done|]. intros ?; simplify_eq.
Qed.

(** What a successful [relative_to] says. *)
Lemma relative_to_Ok p other rel :
  relative_to p other = Ok rel ↔
  root p = root other ∧ tail p = tail other ++ tail rel ∧ root rel = "".
Proof.
  unfold relative_to. case_decide as Hr.
  - destruct (strip_prefix (tail other) (tail p)) as [rest|] eqn:Hs.
    + apply strip_prefix_Some in Hs. split.
      * intros [= <-]. done.
      * intros (_ & Ht & Hroot). destruct rel as [r t]; simpl in *; subst.
        rewrite Hs in Ht. by apply app_inv_head in Ht as ->.
    + split; [done|]. intros (_ & Ht & _).
      apply strip_prefix_Some in Ht. congruence.
  - split; [done|]. by intros (? & _).
Qed.

Lemma relative_to_wf p other rel :
  wf_path p → relative_to p other = Ok rel → wf_path rel.
Proof.
  intros [_ Hp] (_ & Ht & Hr)%relative_to_Ok. split; [auto|].
  rewrite Ht in Hp. by apply Forall_app in Hp as [_ ?].
Qed.

Lemma relative_to_joinpath p other rel :
  relative_to p other = Ok rel → joinpath other rel = p.
Proof.
  intros (Hr & Ht & Hrel)%relative_to_Ok. unfold joinpath, is_absolute.
  rewrite Hrel. simpl. destruct p; simpl in *. by subst.
Qed.

(** A relative path is not changed by a second normalisation. *)
Lemma is_absolute_relative_to p other rel :
  relative_to p other = Ok rel → is_absolute rel = false.
Proof. intros (_ & _ & Hrel)%relative_to_Ok. unfold is_absolute. by rewrite Hrel. Qed.

(** ** The string of a target, and going up *)

Lemma join_not_empty l : l ≠ [] → Forall name_ok l → py_str.join "/" l ≠ "".
Proof.
  destruct l as [|x l]; [done|]. intros _ Hl.
  inversion_clear Hl as [|? ? (Hx & _) _].
  destruct x as [|a x]; [done|]. destruct l; simpl; [done|].
  by rewrite string_app_cons.
Qed.

Lemma str_relative l :
  l ≠ [] → Forall name_ok l → str {| root := ""; tail := l |} = py_str.join "/" l.
Proof.
  intros Hne Hl. unfold str, os_sep. simpl. rewrite string_app_nil_l.
  rewrite decide_False; [done|]. by apply join_not_empty.
Qed.

Lemma Path_join l :
  l ≠ [] → Forall name_ok l → Path (py_str.join "/" l) = {| root := ""; tail := l |}.
Proof.
  intros Hne Hl. rewrite <- (str_relative l Hne Hl). apply Path_str. split; simpl; auto.
Qed.

Lemma map_dots {A} (l : list A) : map (λ _, "..") l = repeat ".." (length l).
Proof. induction l; simpl; congruence. Qed.

Lemma dots_ok n : Forall name_ok (repeat ".." n).
Proof. induction n; simpl; constructor; [|done]. by repeat split. Qed.

(** The string of lines 41-43 is parsed into that many [".."] and then the
    components of the object's path. *)
Lemma src_path_shape {A} (names : list A) p :
  names ≠ [] → wf_path p → root p = "" → tail p ≠ [] →
  Path (py_str.join os_sep (map (λ _, "..") names) +:+ os_sep +:+ str p)
  = {| root := ""; tail := repeat ".." (length names) ++ tail p |}.
Proof.
  intros Hn [_ Hp] Hr Ht. destruct p as [r t]. simpl in *. subst r.
  rewrite str_relative by done. rewrite map_dots. unfold os_sep.
  rewrite <- join_app; [|by destruct names|done].
  apply Path_join.
  - by destruct names.
  - apply Forall_app. split; [apply dots_ok|done].
Qed.

Lemma removelast_app_ne {A} (l1 l2 : list A) :
  l2 ≠ [] → removelast (l1 ++ l2) = l1 ++ removelast l2.
Proof. intros. by apply removelast_app. Qed.

(** The parent of the reference, seen from the working directory. *)
Lemma parent_reference_relative wd ds stripped :
  is_absolute ds = false → root stripped = "" → tail stripped ≠ [] →
  relative_to (parent (joinpath (joinpath wd ds) stripped)) wd
  = Ok {| root := ""; tail := tail ds ++ removelast (tail stripped) |}.
Proof.
  intros Hds Hr Ht. apply relative_to_Ok. unfold joinpath, is_absolute in *.
  rewrite Hr. rewrite bool_decide_eq_false_2 by (by intros ?).
  apply bool_decide_eq_false in Hds. rewrite bool_decide_eq_false_2 by done. simpl.
  split; [done|]. split; [|done].
  rewrite removelast_app_ne by done. by rewrite app_assoc.
Qed.

(** *** Lexical resolution *)

Lemma normpath_from_app acc a :
  ∃ acc', ∀ b, normpath_from acc (a ++ b) = normpath_from acc' b.
Proof.
  revert acc. induction a as [|x a IH]; intros acc; simpl.
  - by exists acc.
  - case_decide; apply IH.
Qed.

Lemma repeat_snoc {A} (x : A) n : repeat x (S n) = repeat x n ++ [x].
Proof. induction n; simpl in *; congruence. Qed.

Lemma normpath_from_up acc names rest :
  ".." ∉ names →
  normpath_from acc (names ++ repeat ".." (length names) ++ rest) = normpath_from acc rest.
Proof.
  revert acc rest. induction names as [|x names IH]; intros acc rest Hn; [done|].
  apply not_elem_of_cons in Hn as [Hx Hn].
  change (length (x :: names)) with (S (length names)).
  rewrite repeat_snoc.
  replace ((repeat ".." (length names) ++ [".."]) ++ rest)
    with (repeat ".." (length names) ++ ".." :: rest) by (by rewrite <- app_assoc).
  simpl. rewrite decide_False by done.
  rewrite IH by done. done.
Qed.

Lemma normpath_up base names rest :
  ".." ∉ names →
  normpath (base ++ names ++ repeat ".." (length names) ++ rest) = normpath (base ++ rest).
Proof.
  intros Hn. unfold normpath.
  destruct (normpath_from_app [] base) as [acc Hacc].
  by rewrite !Hacc, normpath_from_up.
Qed.

(** *** Resolution in a file system *)

Lemma walk_with_up m rec nf names lw rest :
  (∀ i, 1 ≤ i ≤ length names → m !! (lw ++ take i names) = Some Dir) →
  walk_with m rec nf (lw ++ names) (repeat ".." (length names) ++ rest)
  = walk_with m rec nf lw rest.
Proof.
  induction names as [|x names IH] using rev_ind; intros Hd.
  - simpl. by rewrite app_nil_r.
  - rewrite length_app. simpl. rewrite Nat.add_1_r. simpl.
    pose proof (Hd (S (length names))) as Hlast.
    rewrite length_app in Hlast. simpl in Hlast.
    rewrite take_ge in Hlast by (rewrite length_app; simpl; lia).
    rewrite Hlast by lia.
    change (walk_with m rec nf (removelast (lw ++ names ++ [x]))
              (repeat ".." (length names) ++ rest) = walk_with m rec nf lw rest).
    rewrite app_assoc, removelast_last. apply IH.
    intros i Hi. specialize (Hd i). rewrite length_app in Hd. simpl in Hd.
    rewrite take_app_le in Hd by lia. apply Hd. lia.
Qed.

Lemma walk_up n m nf names lw rest :
  (∀ i, 1 ≤ i ≤ length names → m !! (lw ++ take i names) = Some Dir) →
  walk n m nf (lw ++ names) (repeat ".." (length names) ++ rest) = walk n m nf lw rest.
Proof. intros Hd. destruct n; apply walk_with_up, Hd. Qed.

(** ** The monad and the system calls of a method *)

#[local] Arguments walk : simpl never.

Lemma bind_Ok {S A B : Type} (c : ST S A) (k : A → ST S B) s a s' :
  c s = (Ok a, s') → bind c k s = k a s'.
Proof. unfold bind. by intros ->. Qed.

Lemma bind_Err {S A B : Type} (c : ST S A) (k : A → ST S B) s e s' :
  c s = (Err e, s') → bind c k s = (Err e, s').
Proof. unfold bind. by intros ->. Qed.

Lemma syscall_bind {A B : Type} (c : loc → ST fs A) (k : A → loc → ST fs B) w :
  syscall (λ cwd, bind (c cwd) (λ a, k a cwd)) w
  = bind (syscall c) (λ a, syscall (k a)) w.
Proof.
  unfold syscall, bind. simpl.
  destruct (c (cwd w) (nodes w)) as [[a|e] m']; done.
Qed.

Lemma bind_syscall {A B : Type} (c : loc → ST fs A) (k : A → M B) w :
  bind (syscall c) k w =
  match c (cwd w) (nodes w) with
  | (Ok a, m') => k a (set_nodes m' w)
  | (Err e, m') => (Err e, set_nodes m' w)
  end.
Proof. unfold bind, syscall. simpl. by destruct (c (cwd w) (nodes w)) as [[a|e] m']. Qed.

Lemma syscall_bind_split {A B : Type} (c : loc → ST fs A) (k : loc → A → ST fs B) w :
  syscall (λ cwd, bind (c cwd) (k cwd)) w =
  match c (cwd w) (nodes w) with
  | (Ok a, m') => syscall (λ cwd, k cwd a) (set_nodes m' w)
  | (Err e, m') => (Err e, set_nodes m' w)
  end.
Proof. unfold bind, syscall. simpl. by destruct (c (cwd w) (nodes w)) as [[a|e] m']. Qed.

Lemma syscall_bind_assoc {A B C : Type} (c : loc → ST fs A) (k1 : loc → A → ST fs B)
    (k2 : loc → B → ST fs C) w :
  syscall (λ cwd, bind (bind (c cwd) (k1 cwd)) (k2 cwd)) w
  = syscall (λ cwd, bind (c cwd) (λ a, bind (k1 cwd a) (k2 cwd))) w.
Proof.
  unfold bind, syscall. simpl. by destruct (c (cwd w) (nodes w)) as [[a|e] m'].
Qed.

Lemma get_Series_Some r (v : world) row :
  heap v !! r = Some (OSeries row) → get_Series r v = (Ok row, v).
Proof. unfold get_Series. by intros ->. Qed.

Lemma syscall_heap {A : Type} (c : loc → ST fs A) w : heap (snd (syscall c w)) = heap w.
Proof. done. Qed.

Lemma syscall_set_heap {A : Type} (c : loc → ST fs A) h w :
  syscall c (set_heap h w) = (fst (syscall c w), set_heap h (snd (syscall c w))).
Proof. done. Qed.

#[local] Arguments os.makedirs_exist_ok : simpl never.
#[local] Arguments os.path_exists : simpl never.
#[local] Arguments os.symlink : simpl never.
#[local] Arguments os.read_file : simpl never.
#[local] Arguments os.write_file : simpl never.
#[local] Arguments Path : simpl never.
#[local] Arguments relative_to : simpl never.
#[local] Arguments joinpath : simpl never.
#[local] Arguments parent : simpl never.
#[local] Arguments str : simpl never.
#[local] Arguments parts : simpl never.
#[local] Arguments is_absolute : simpl never.
#[local] Arguments py_str.join : simpl never.
#[local] Arguments reset_index : simpl never.
#[local] Arguments with_hashed_uid : simpl never.

(** [add_object_to_dataset] on a row [row]: a copy is made, the paths are
    computed, and then come the system calls of [place]. *)
Lemma add_object_to_dataset_run self dataset_name r w row :
  heap w !! r = Some (OSeries row) →
  PrepareDataset.add_object_to_dataset self dataset_name r w =
    let r' := fresh (dom (heap w)) in
    match normalised_row self row with
    | Err e => (Err e, set_heap (<[r' := OSeries row]> (heap w)) w)
    | Ok row' =>
        let w' := set_heap (<[r' := OSeries row']> (heap w)) w in
        match reference_of self dataset_name row' with
        | Err e => (Err e, w')
        | Ok (symlink_path, src_path) =>
            syscall (λ cwd, place (pandas_numeric w) cwd symlink_path src_path
                                  (manifest_path self dataset_name row') row') w'
        end
    end.
Proof.
  intros Hr. cbv zeta. set (r' := fresh (dom (heap w))).
  unfold PrepareDataset.add_object_to_dataset.
  rewrite (bind_Ok _ _ _ r' (set_heap (<[r' := OSeries row]> (heap w)) w)).
  2:{ unfold Series_copy. erewrite bind_Ok by by apply get_Series_Some. done. }
  set (w0 := set_heap _ w).
  assert (Hw0 : heap w0 !! r' = Some (OSeries row)) by apply lookup_insert_eq.
  rewrite (bind_Ok _ _ _ row w0) by by apply get_Series_Some.
  match goal with |- bind _ ?k _ = _ => set (K := k) end.
  assert (HK : ∀ row' (v : world) u,
    heap v !! r' = Some (OSeries row') → pandas_numeric v = pandas_numeric w →
    K u v = match reference_of self dataset_name row' with
            | Err e => (Err e, v)
            | Ok (symlink_path, src_path) =>
                syscall (λ cwd, place (pandas_numeric w) cwd symlink_path src_path
                                  (manifest_path self dataset_name row') row') v
            end).
  { intros row' v u Hv Hpd. subst K. cbv beta.
    rewrite (bind_Ok _ _ _ row' v) by by apply get_Series_Some.
    unfold reference_of. cbv zeta.
    destruct (relative_to (Path (path row')) (Path CONVERTED_DIR_NAME)) as [stripped|e];
      [|done].
    rewrite (bind_Ok _ _ _ stripped v) by done.
    destruct (relative_to _ (PrepareDataset.working_directory self)) as [rel_parent|e];
      [|done].
    rewrite (bind_Ok _ _ _ rel_parent v) by done.
    unfold place, mkdir_parents_exist_ok.
    rewrite bind_syscall, syscall_bind_split.
    destruct (os.makedirs_exist_ok _ _ _) as [[[]|e] m1]; [|done].
    unfold link_step. rewrite syscall_bind_assoc.
    unfold path_exists at 1. rewrite bind_syscall, syscall_bind_split.
    destruct (os.path_exists _ _ _) as [[present|e] m2]; [|done].
    assert (Hlink : ∀ (k : () → M ()) (k' : loc → () → ST fs ()) v1,
      (∀ u m, k u (set_nodes m v1) = syscall (λ cwd, k' cwd u) (set_nodes m v1)) →
      bind (if present then ret () else symlink_to
              (joinpath (joinpath (PrepareDataset.working_directory self) (Path dataset_name)) stripped)
              (Path (py_str.join os_sep (map (λ _, "..") (parts rel_parent)) +:+ os_sep
                     +:+ str (Path (path row'))))) k (set_nodes m2 v1)
      = syscall (λ cwd, bind (if present then ret () else os.symlink cwd
              (str (Path (py_str.join os_sep (map (λ _, "..") (parts rel_parent)) +:+ os_sep
                     +:+ str (Path (path row')))))
              (joinpath (joinpath (PrepareDataset.working_directory self) (Path dataset_name)) stripped))
            (k' cwd)) (set_nodes m2 v1)).
    { intros k k' v1 Hk. destruct present.
      - rewrite (bind_Ok _ _ _ () (set_nodes m2 v1)) by done.
        rewrite syscall_bind_split. simpl. apply (Hk () m2).
      - unfold symlink_to. rewrite bind_syscall, syscall_bind_split.
        destruct (os.symlink _ _ _ _) as [[[]|e] m3]; [|done]. apply (Hk () m3). }
    apply Hlink. intros [] m3.
    rewrite (bind_Ok _ _ _ row' (set_nodes m3 v)) by by apply get_Series_Some.
    unfold merge_step, path_exists, manifest_path. rewrite bind_syscall, syscall_bind_split.
    destruct (os.path_exists _ _ _) as [[present2|e] m4]; [|done].
    destruct present2.
    - unfold read_csv, to_csv, bind, syscall, lift, ret, merge_row. simpl.
      destruct (os.read_file _ _ _) as [[c|e] m5]; simpl; [|done].
      rewrite Hpd.
      destruct (parse_csv (pandas_numeric w) c) as [dfc|e]; simpl; [|done].
      by destruct (_ =? _).
    - unfold to_csv, bind, syscall, ret. simpl. done. }
  unfold normalised_row. cbv zeta.
  destruct (is_absolute (Path (path row))).
  - destruct (relative_to (Path (path row)) (PrepareDataset.working_directory self))
      as [rel|e]; [|done].
    rewrite (bind_Ok _ _ _ () (set_heap (<[r' := OSeries (set_path (str rel) row)]> (heap w)) w)).
    + apply HK; [apply lookup_insert_eq|done].
    + rewrite (bind_Ok _ _ _ rel w0) by done. unfold Series_set_path.
      rewrite (bind_Ok _ _ _ row w0) by by apply get_Series_Some.
      unfold put, w0, set_heap. simpl. by rewrite insert_insert_eq.
  - rewrite (bind_Ok _ _ _ () w0) by done. by apply HK.
Qed.

(** ** The file system: what stays when nodes are added *)

#[local] Arguments walk : simpl never.
#[local] Arguments Path : simpl never.

Lemma content_le_refl c : content_le c c.
Proof. destruct c; simpl; eauto. Qed.

Lemma node_le_refl n : node_le n n.
Proof. destruct n; simpl; eauto using content_le_refl. Qed.

Lemma content_le_trans c1 c2 c3 : content_le c1 c2 → content_le c2 c3 → content_le c1 c3.
Proof.
  destruct c1; simpl; try (intros -> ; done).
  intros (df2 & -> & H12) (df3 & -> & H23). eexists; split; [done|]. by etrans.
Qed.

Lemma node_le_trans n1 n2 n3 : node_le n1 n2 → node_le n2 n3 → node_le n1 n3.
Proof.
  destruct n1; simpl; try (intros ->; done).
  intros (c2 & -> & H12) (c3 & -> & H23). eauto using content_le_trans.
Qed.

Lemma node_le_kind n n' : node_le n n' → node_kind_le n n'.
Proof. destruct n; simpl; try done. intros (c' & -> & _). eauto. Qed.

Lemma fs_le_refl m : fs_le m m.
Proof. intros l n Hl. eauto using node_le_refl. Qed.

Lemma fs_le_trans m1 m2 m3 : fs_le m1 m2 → fs_le m2 m3 → fs_le m1 m3.
Proof.
  intros H12 H23 l n Hl. destruct (H12 l n Hl) as (n2 & Hl2 & Hn).
  destruct (H23 l n2 Hl2) as (n3 & Hl3 & Hn'). eauto using node_le_trans.
Qed.

Lemma fs_le_kind m m' : fs_le m m' → kind_le m m'.
Proof. intros H l n Hl. destruct (H l n Hl) as (n' & ? & ?). eauto using node_le_kind. Qed.

Lemma fs_le_insert_fresh m l n : m !! l = None → fs_le m (<[l := n]> m).
Proof.
  intros Hl l' n' Hl'. exists n'. split; [|apply node_le_refl].
  rewrite lookup_insert_ne; [done|]. intros ->. congruence.
Qed.

Lemma fs_le_insert_file m l c c' :
  m !! l = Some (File c) → content_le c c' → fs_le m (<[l := File c']> m).
Proof.
  intros Hl Hc l' n' Hl'. destruct (decide (l = l')) as [->|Hne].
  - rewrite lookup_insert_eq. simplify_eq. eexists; split; [done|]. simpl. eauto.
  - rewrite lookup_insert_ne by done. eauto using node_le_refl.
Qed.

Lemma kind_le_refl m : kind_le m m.
Proof. apply fs_le_kind, fs_le_refl. Qed.

Lemma kind_le_trans m1 m2 m3 : kind_le m1 m2 → kind_le m2 m3 → kind_le m1 m3.
Proof.
  intros H12 H23 l n Hl. destruct (H12 l n Hl) as (n2 & Hl2 & Hn).
  destruct (H23 l n2 Hl2) as (n3 & Hl3 & Hn'). exists n3. split; [done|].
  destruct n; simpl in *; subst; simpl in *; try done.
  destruct Hn as [c2 ->]. done.
Qed.

Lemma kind_le_insert_file m l c c' :
  m !! l = Some (File c) → kind_le m (<[l := File c']> m).
Proof.
  intros Hl l' n' Hl'. destruct (decide (l = l')) as [->|Hne].
  - rewrite lookup_insert_eq. simplify_eq. eexists; split; [done|]. simpl. eauto.
  - rewrite lookup_insert_ne by done. exists n'. split; [done|].
    apply node_le_kind, node_le_refl.
Qed.

Lemma kind_le_Dir m m' l : kind_le m m' → m !! l = Some Dir → m' !! l = Some Dir.
Proof. intros H Hl. by destruct (H l _ Hl) as (n' & ? & ->). Qed.

Lemma kind_le_Symlink m m' l t :
  kind_le m m' → m !! l = Some (Symlink t) → m' !! l = Some (Symlink t).
Proof. intros H Hl. by destruct (H l _ Hl) as (n' & ? & ->). Qed.

Lemma kind_le_File m m' l c :
  kind_le m m' → m !! l = Some (File c) → ∃ c', m' !! l = Some (File c').
Proof. intros H Hl. destruct (H l _ Hl) as (n' & ? & [c' ->]). eauto. Qed.

Lemma kind_le_is_Some m m' l : kind_le m m' → is_Some (m !! l) → is_Some (m' !! l).
Proof. intros H [n Hl]. destruct (H l n Hl) as (n' & ? & _). eauto. Qed.

(** *** Path resolution *)

Section walk_with.

Context (m : fs) (rec : loc → list string → result loc).

(** A walk that ends at an existing node started at one. *)
Lemma walk_with_start nf rest cur l :
  rest ≠ [] → walk_with m rec nf cur rest = Ok l → m !! cur = Some Dir.
Proof.
  destruct rest as [|x rest]; [done|]. intros _. simpl.
  by destruct (m !! cur) as [[]|].
Qed.

Lemma walk_with_start_Some nf rest cur l :
  walk_with m rec nf cur rest = Ok l → is_Some (m !! l) → is_Some (m !! cur).
Proof.
  destruct rest as [|x rest].
  - simpl. by intros [= ->].
  - intros H _. rewrite (walk_with_start nf (x :: rest) cur l); [eauto|done|done].
Qed.

End walk_with.

Lemma walk_with_stable m m' rec rec' nf :
  kind_le m m' →
  (∀ c r l, rec c r = Ok l → is_Some (m !! l) → rec' c r = Ok l) →
  ∀ rest cur l,
    walk_with m rec nf cur rest = Ok l → is_Some (m !! l) →
    walk_with m' rec' nf cur rest = Ok l.
Proof.
  intros Hle Hrec. induction rest as [|x rest IH]; intros cur l; simpl; [done|].
  destruct (m !! cur) as [[]|] eqn:Hcur; try done.
  rewrite (kind_le_Dir _ _ _ Hle Hcur).
  case_decide; [apply IH|].
  destruct (m !! (cur ++ [x])) as [[|t|c]|] eqn:Hnxt.
  - rewrite (kind_le_Dir _ _ _ Hle Hnxt). apply IH.
  - rewrite (kind_le_Symlink _ _ _ _ Hle Hnxt).
    destruct (nf && bool_decide (rest = [])); [done|].
    destruct (rec _ _) as [l1|e] eqn:Hl1; [|done].
    intros Hw Hl. rewrite (Hrec _ _ _ Hl1); [by apply IH|].
    by eapply walk_with_start_Some.
  - destruct (kind_le_File _ _ _ _ Hle Hnxt) as [c' ->]. apply IH.
  - intros Hw Hl. apply (walk_with_start_Some _ _ _ _ _ _ Hw) in Hl as [? ?]. congruence.
Qed.

Lemma walk_stable n m m' nf cur rest l :
  kind_le m m' →
  walk n m nf cur rest = Ok l → is_Some (m !! l) →
  walk n m' nf cur rest = Ok l.
Proof.
  intros Hle. revert nf cur rest l.
  induction n as [|n IH]; intros nf cur rest l; simpl;
    apply walk_with_stable; auto.
Qed.

(** A walk that ends where nothing is, after something is put there. *)
Lemma walk_with_insert m rec rec' nf l x :
  m !! l = None →
  (nf = true ∨ ∀ t, x ≠ Symlink t) →
  (∀ c r l1, rec c r = Ok l1 → is_Some (m !! l1) → rec' c r = Ok l1) →
  (∀ c r, rec c r = Ok l → (∀ t, x ≠ Symlink t) → rec' c r = Ok l) →
  ∀ rest cur,
    walk_with m rec nf cur rest = Ok l →
    walk_with (<[l := x]> m) rec' nf cur rest = Ok l.
Proof.
  intros Hl Hx Hrec Hrec'. induction rest as [|x0 rest IH]; intros cur; simpl; [done|].
  destruct (m !! cur) as [[]|] eqn:Hcur; try done.
  assert (cur ≠ l) by congruence.
  rewrite lookup_insert_ne by done. rewrite Hcur.
  case_decide; [apply IH|].
  destruct (m !! (cur ++ [x0])) as [n|] eqn:Hnxt.
  - assert (cur ++ [x0] ≠ l) by congruence.
    rewrite lookup_insert_ne by done. rewrite Hnxt.
    destruct n as [|t|c]; [apply IH| |apply IH].
    destruct (nf && bool_decide (rest = [])) eqn:Hlast; [done|].
    destruct (rec _ _) as [l1|e] eqn:Hl1; [|done].
    intros Hw. destruct rest as [|x1 rest'].
    + simpl in Hw. simplify_eq.
      rewrite bool_decide_eq_true_2, andb_true_r in Hlast by done. subst nf.
      destruct Hx as [Hx|Hx]; [discriminate|]. rewrite (Hrec' _ _ Hl1 Hx). reflexivity.
    + rewrite (Hrec _ _ _ Hl1); [by apply IH|].
      rewrite (walk_with_start _ _ _ (x1 :: rest') _ _ ltac:(done) Hw). eauto.
  - intros Hw. destruct rest as [|x1 rest'].
    + simpl in Hw. simplify_eq. rewrite lookup_insert_eq. simpl.
      destruct x as [|t|c]; try done.
      destruct Hx as [->|Hx]; [done|]. by destruct (Hx t).
    + apply (walk_with_start _ _ _ (x1 :: rest')) in Hw; [congruence|done].
Qed.

Lemma kind_le_insert_fresh m l n : m !! l = None → kind_le m (<[l := n]> m).
Proof. intros. by apply fs_le_kind, fs_le_insert_fresh. Qed.

Lemma walk_insert n m nf cur rest l x :
  m !! l = None →
  (nf = true ∨ ∀ t, x ≠ Symlink t) →
  walk n m nf cur rest = Ok l →
  walk n (<[l := x]> m) nf cur rest = Ok l.
Proof.
  intros Hl. revert nf cur rest.
  induction n as [|n IH]; intros nf cur rest Hx.
  - change (walk 0 ?m ?nf) with (walk_with m (λ _ _, Err (OSError ELOOP)) nf).
    apply walk_with_insert; [done|done| |]; intros; done.
  - change (walk (S n) ?m ?nf) with (walk_with m (walk n m false) nf).
    apply walk_with_insert; [done|done| |].
    + intros c r l1 H1 Hs. eapply walk_stable; eauto using kind_le_insert_fresh.
    + intros c r H1 Hx'. apply IH; auto.
Qed.

(** [stat] and [lstat]. *)
Lemma walk_with_lstat_of_stat m rec rest cur l :
  walk_with m rec false cur rest = Ok l → is_Some (m !! l) →
  ∃ l', walk_with m rec true cur rest = Ok l' ∧ is_Some (m !! l').
Proof.
  revert cur. induction rest as [|x rest IH]; intros cur; simpl; [eauto|].
  destruct (m !! cur) as [[]|] eqn:Hcur; try done.
  case_decide; [apply IH|].
  destruct (m !! (cur ++ [x])) as [[|t|c]|] eqn:Hnxt; try apply IH.
  simpl. case_bool_decide; [eauto|].
  destruct (rec _ _) as [l1|e]; [apply IH|done].
Qed.

Lemma walk_lstat_of_stat n m cur rest l :
  walk n m false cur rest = Ok l → is_Some (m !! l) →
  ∃ l', walk n m true cur rest = Ok l' ∧ is_Some (m !! l').
Proof. destruct n; simpl; apply walk_with_lstat_of_stat. Qed.

Lemma walk_with_stat_of_lstat m rec rest cur l :
  walk_with m rec true cur rest = Ok l → m !! l = None →
  walk_with m rec false cur rest = Ok l.
Proof.
  revert cur. induction rest as [|x rest IH]; intros cur; simpl; [done|].
  destruct (m !! cur) as [[]|] eqn:Hcur; try done.
  case_decide; [apply IH|].
  destruct (m !! (cur ++ [x])) as [[|t|c]|] eqn:Hnxt; try apply IH.
  simpl. case_bool_decide; [|destruct (rec _ _); [apply IH|done]].
  intros [= <-]. congruence.
Qed.

Lemma walk_stat_of_lstat n m cur rest l :
  walk n m true cur rest = Ok l → m !! l = None →
  walk n m false cur rest = Ok l.
Proof. destruct n; simpl; apply walk_with_stat_of_lstat. Qed.

(** ** System calls *)

#[local] Arguments walk : simpl never.
#[local] Arguments Path : simpl never.

Section calls.

Variable cwd : loc.

Lemma dirs_added_refl m : dirs_added m m.
Proof. intros l. by left. Qed.

Lemma dirs_added_trans m1 m2 m3 : dirs_added m1 m2 → dirs_added m2 m3 → dirs_added m1 m3.
Proof.
  intros H12 H23 l. destruct (H12 l) as [E12|[E1 E2]], (H23 l) as [E23|[E2' E3]].
  - left. congruence.
  - right. split; congruence.
  - right. split; congruence.
  - congruence.
Qed.

Lemma dirs_added_insert m l : m !! l = None → dirs_added m (<[l := Dir]> m).
Proof.
  intros Hl l'. destruct (decide (l = l')) as [->|].
  - right. by rewrite lookup_insert_eq.
  - left. by rewrite lookup_insert_ne.
Qed.

Lemma dirs_added_fs_le m m' : dirs_added m m' → fs_le m m'.
Proof.
  intros H l n Hl. destruct (H l) as [E|[E _]]; [|congruence].
  exists n. split; [congruence|apply node_le_refl].
Qed.

Lemma dirs_added_unique m m' : dirs_added m m' → manifests_unique m → manifests_unique m'.
Proof.
  intros H Hu l n Hl. destruct (H l) as [E|[_ E]].
  - apply (Hu l). congruence.
  - rewrite E in Hl. by simplify_eq.
Qed.

Lemma is_dir_stable m m' p :
  kind_le m m' → os.is_dir cwd m p = true → os.is_dir cwd m' p = true.
Proof.
  intros Hle. unfold os.is_dir, os.stat.
  destruct (walk _ m _ _ _) as [l|e] eqn:Hw; [|done].
  destruct (m !! l) as [[]|] eqn:Hl; try done. intros _.
  rewrite (walk_stable _ _ _ _ _ _ _ Hle Hw) by eauto.
  by rewrite (kind_le_Dir _ _ _ Hle Hl).
Qed.

Lemma mkdir_Ok p m m' :
  os.mkdir cwd p m = (Ok (), m') →
  ∃ l, os.lstat cwd m p = Ok l ∧ m !! l = None ∧ m' = <[l := Dir]> m.
Proof.
  unfold os.mkdir. destruct (os.lstat cwd m p) as [l|e]; [|done].
  destruct (m !! l) eqn:Hl; [done|]. intros [= <-]. eauto.
Qed.

Lemma mkdir_Err p m m' e : os.mkdir cwd p m = (Err e, m') → m' = m.
Proof.
  unfold os.mkdir. destruct (os.lstat cwd m p) as [l|e']; [|congruence].
  destruct (m !! l); congruence.
Qed.

Lemma mkdir_is_dir p m m' :
  os.mkdir cwd p m = (Ok (), m') → os.is_dir cwd m' p = true.
Proof.
  intros (l & Hl & Hnone & ->)%mkdir_Ok. unfold os.is_dir, os.stat.
  unfold os.lstat in Hl. apply walk_stat_of_lstat in Hl; [|done].
  rewrite (walk_insert _ _ _ _ _ _ Dir Hnone) by (done || by right).
  by rewrite lookup_insert_eq.
Qed.

Lemma mkdir_dirs_added p m : dirs_added m (snd (os.mkdir cwd p m)).
Proof.
  destruct (os.mkdir cwd p m) as [[[]|e] m'] eqn:E; simpl.
  - apply mkdir_Ok in E as (l & _ & Hnone & ->). by apply dirs_added_insert.
  - apply mkdir_Err in E as ->. apply dirs_added_refl.
Qed.

Lemma mkdir_exists p m :
  os.is_dir cwd m p = true → os.mkdir cwd p m = (Err (OSError EEXIST), m).
Proof.
  unfold os.is_dir, os.stat, os.mkdir, os.lstat.
  destruct (walk _ m false _ _) as [l|e] eqn:Hw; [|done].
  destruct (m !! l) as [[]|] eqn:Hl; try done. intros _.
  destruct (walk_lstat_of_stat _ _ _ _ _ Hw) as (l' & -> & [n ->]); eauto.
Qed.

Lemma mkdir_rev_dirs_added r rnames m :
  dirs_added m (snd (os.mkdir_rev cwd r rnames m)).
Proof.
  revert m. induction rnames as [|x rp IH]; intros m; cbn [os.mkdir_rev].
  - pose proof (mkdir_dirs_added {| root := r; tail := rev [] |} m) as H.
    destruct (os.mkdir _ _ m) as [[[]|e] m']; [exact H|].
    repeat case_match; apply dirs_added_refl.
  - pose proof (mkdir_dirs_added {| root := r; tail := rev (x :: rp) |} m) as H.
    destruct (os.mkdir _ _ m) as [[[]|e] m']; [exact H|].
    destruct e as [| | | | |[]| |]; try (case_match; apply dirs_added_refl).
    specialize (IH m).
    destruct (os.mkdir_rev cwd r rp m) as [[[]|e1] m1]; [|exact IH].
    pose proof (mkdir_dirs_added {| root := r; tail := rev (x :: rp) |} m1) as H1.
    destruct (os.mkdir _ _ m1) as [[[]|e2] m2].
    + eapply dirs_added_trans; [exact IH|exact H1].
    + repeat case_match; exact IH.
Qed.

Lemma mkdir_rev_is_dir r rnames m m' :
  os.mkdir_rev cwd r rnames m = (Ok (), m') →
  os.is_dir cwd m' {| root := r; tail := rev rnames |} = true.
Proof.
  revert m m'. induction rnames as [|x rp IH]; intros m m'; cbn [os.mkdir_rev].
  - destruct (os.mkdir _ _ m) as [[[]|e] m1] eqn:E.
    + intros [= <-]. by eapply mkdir_is_dir.
    + repeat case_match; intros; simplify_eq; done.
  - destruct (os.mkdir _ _ m) as [[[]|e] m1] eqn:E.
    + intros [= <-]. by eapply mkdir_is_dir.
    + destruct e as [| | | | |[]| |]; try (case_match; intros; simplify_eq; done).
      destruct (os.mkdir_rev cwd r rp m) as [[[]|e1] m2]; [|done].
      destruct (os.mkdir _ _ m2) as [[[]|e2] m3] eqn:E2.
      * intros [= <-]. by eapply mkdir_is_dir.
      * repeat case_match; intros; simplify_eq; done.
Qed.

Lemma mkdir_rev_noop r rnames m :
  os.is_dir cwd m {| root := r; tail := rev rnames |} = true →
  os.mkdir_rev cwd r rnames m = (Ok (), m).
Proof.
  intros Hd. destruct rnames; cbn [os.mkdir_rev];
    rewrite (mkdir_exists _ _ Hd); by rewrite Hd.
Qed.

Lemma makedirs_dirs_added p m : dirs_added m (snd (os.makedirs_exist_ok cwd p m)).
Proof. apply mkdir_rev_dirs_added. Qed.

Lemma makedirs_is_dir p m m' :
  os.makedirs_exist_ok cwd p m = (Ok (), m') → os.is_dir cwd m' p = true.
Proof.
  unfold os.makedirs_exist_ok. intros H%mkdir_rev_is_dir.
  rewrite rev_involutive in H. by destruct p.
Qed.

Lemma makedirs_noop p m :
  os.is_dir cwd m p = true → os.makedirs_exist_ok cwd p m = (Ok (), m).
Proof.
  intros H. unfold os.makedirs_exist_ok. apply mkdir_rev_noop.
  rewrite rev_involutive. by destruct p.
Qed.

(** [exists] *)

Lemma path_exists_state p m : snd (os.path_exists cwd p m) = m.
Proof. done. Qed.

Lemma path_exists_true p m :
  fst (os.path_exists cwd p m) = Ok true ↔
  ∃ l, os.stat cwd m p = Ok l ∧ is_Some (m !! l).
Proof.
  unfold os.path_exists. simpl. destruct (os.stat cwd m p) as [l|e].
  - split.
    + intros [= H%bool_decide_eq_true]. eauto.
    + intros (? & [= <-] & ?). by rewrite bool_decide_eq_true_2.
  - split; [done|]. by intros (? & ? & ?).
Qed.

Lemma path_exists_stable p m m' :
  kind_le m m' →
  fst (os.path_exists cwd p m) = Ok true → fst (os.path_exists cwd p m') = Ok true.
Proof.
  intros Hle (l & Hs & Hl)%path_exists_true. apply path_exists_true.
  exists l. split; [|by eapply kind_le_is_Some].
  unfold os.stat in *. by eapply walk_stable.
Qed.

(** [symlink] *)

Lemma symlink_Ok t p m m' :
  os.symlink cwd t p m = (Ok (), m') →
  ∃ l, os.lstat cwd m p = Ok l ∧ m !! l = None ∧ m' = <[l := Symlink t]> m.
Proof.
  unfold os.symlink. destruct (os.lstat cwd m p) as [l|e]; [|done].
  destruct (m !! l) eqn:Hl; [done|]. intros [= <-]. eauto.
Qed.

Lemma symlink_Err t p m m' e : os.symlink cwd t p m = (Err e, m') → m' = m.
Proof.
  unfold os.symlink. destruct (os.lstat cwd m p) as [l|e']; [|congruence].
  destruct (m !! l); congruence.
Qed.

(** [open(p, "w")] *)

Lemma write_file_Ok p c m m' :
  os.write_file cwd p c m = (Ok (), m') →
  ∃ l, os.stat cwd m p = Ok l ∧ (m !! l = None ∨ ∃ c0, m !! l = Some (File c0))
       ∧ m' = <[l := File c]> m.
Proof.
  unfold os.write_file. destruct (os.stat cwd m p) as [l|e]; [|done].
  destruct (m !! l) as [[| |c0]|] eqn:Hl; try done; intros [= <-]; eauto 10.
Qed.

Lemma write_file_Err p c m m' e : os.write_file cwd p c m = (Err e, m') → m' = m.
Proof.
  unfold os.write_file. destruct (os.stat cwd m p) as [l|e']; [|congruence].
  destruct (m !! l) as [[]|]; congruence.
Qed.

Lemma read_file_state p m : snd (os.read_file cwd p m) = m.
Proof.
  unfold os.read_file. destruct (os.stat cwd m p) as [l|e]; [|done].
  by destruct (m !! l) as [[]|].
Qed.

Lemma read_file_Ok p m c :
  fst (os.read_file cwd p m) = Ok c ↔
  ∃ l, os.stat cwd m p = Ok l ∧ m !! l = Some (File c).
Proof.
  unfold os.read_file. destruct (os.stat cwd m p) as [l|e].
  - destruct (m !! l) as [[| |c0]|] eqn:Hl; simpl.
    all: split; [intros ?; simplify_eq; eauto|intros (? & ? & ?); simplify_eq; done].
  - split; [done|]. by intros (? & ? & ?).
Qed.

(** After a write, the file is found where it was written. *)
Lemma stat_after_write p l c m :
  os.stat cwd m p = Ok l → (m !! l = None ∨ ∃ c0, m !! l = Some (File c0)) →
  os.stat cwd (<[l := File c]> m) p = Ok l.
Proof.
  unfold os.stat. intros Hs [Hl|[c0 Hl]].
  - apply walk_insert; [done|by right|done].
  - eapply walk_stable; eauto using kind_le_insert_file.
Qed.

End calls.

(** ** Frames and the merge *)

#[local] Arguments walk : simpl never.
#[local] Arguments Path : simpl never.

Lemma record_of_set_index_label i r : record_of (set_index_label i r) = record_of r.
Proof. done. Qed.

Lemma hashed_uid_set_index_label i r : hashed_uid (set_index_label i r) = hashed_uid r.
Proof. done. Qed.

Lemma reset_index_from_records k df :
  map record_of (imap (λ i r, set_index_label (Z.of_nat (k + i)) r) df) = map record_of df.
Proof.
  revert k. induction df as [|r df IH]; intros k; [done|]. simpl. f_equal.
  rewrite <- (IH (S k)). f_equal. apply imap_ext. intros i x _. simpl.
  by rewrite Nat.add_succ_r.
Qed.

Lemma records_reset_index df : records (reset_index df) = records df.
Proof. apply (reset_index_from_records 0). Qed.

Lemma uids_reset_index df : map hashed_uid (reset_index df) = map hashed_uid df.
Proof.
  assert (H : ∀ l : DataFrame, map hashed_uid l = map (λ t, t.1.1.2) (records l)).
  { intros l. unfold records. rewrite map_map. done. }
  by rewrite !H, records_reset_index.
Qed.

Lemma imap_imap_label (f g : nat → Z) (df : DataFrame) :
  imap (λ i r, set_index_label (f i) r) (imap (λ i r, set_index_label (g i) r) df)
  = imap (λ i r, set_index_label (f i) r) df.
Proof.
  revert f g. induction df as [|r df IH]; intros f g; [done|]. simpl. f_equal.
  apply (IH (f ∘ S) (g ∘ S)).
Qed.

(** Resetting the index twice is resetting it once. *)
Lemma reset_index_idemp df : reset_index (reset_index df) = reset_index df.
Proof. apply imap_imap_label. Qed.

Lemma with_hashed_uid_nil uid df :
  with_hashed_uid uid df = [] ↔ uid = "" ∨ uid ∉ map hashed_uid df.
Proof.
  unfold with_hashed_uid. induction df as [|r df IH].
  - split; [intros _; right; apply not_elem_of_nil|done].
  - change (map hashed_uid (r :: df)) with (hashed_uid r :: map hashed_uid df).
    rewrite not_elem_of_cons, filter_cons. case_decide as E.
    + split; [done|]. destruct E as [E1 E2]. intros [->|[? _]]; congruence.
    + rewrite IH. split.
      * intros [->|?]; [by left|]. destruct (decide (uid = "")) as [->|Hne]; [by left|].
        right. split; [|done]. intros ->. apply E. done.
      * intros [->|[? ?]]; auto.
Qed.

Lemma length_zero_nil {A} (l : list A) : (length l =? 0)%nat = true ↔ l = [].
Proof. destruct l; simpl; split; try done. Qed.

(** The merge keeps the rows of the manifest, in order. *)
Lemma merge_row_prefix row df : df `prefix_of` merge_row row df.
Proof. unfold merge_row. case_match; [by eexists|done]. Qed.

Lemma merge_row_noop row df :
  hashed_uid row ≠ "" →
  hashed_uid row ∈ map hashed_uid df → merge_row row df = df.
Proof.
  intros Hne Hin. unfold merge_row.
  destruct (_ =? _)%nat eqn:E; [|done].
  apply length_zero_nil, with_hashed_uid_nil in E as [?|?]; done.
Qed.

Lemma merge_row_append row df :
  hashed_uid row ∉ map hashed_uid df → merge_row row df = df ++ [row].
Proof.
  intros Hn. unfold merge_row.
  destruct (_ =? _)%nat eqn:E; [done|]. exfalso.
  apply Nat.eqb_neq in E. apply E. apply length_zero_iff_nil.
  apply with_hashed_uid_nil. by right.
Qed.

Lemma merge_row_uid row df : hashed_uid row ∈ map hashed_uid (merge_row row df).
Proof.
  unfold merge_row. destruct (_ =? _)%nat eqn:E.
  - rewrite map_app. apply elem_of_app. right. simpl. apply list_elem_of_here.
  - destruct (decide (hashed_uid row ∈ map hashed_uid df)) as [|Hn]; [done|].
    assert (H : with_hashed_uid (hashed_uid row) df = [])
      by (apply with_hashed_uid_nil; by right).
    rewrite H in E. done.
Qed.

Lemma merge_row_unique row df :
  hashed_uid row ≠ "" → unique_uids df → unique_uids (merge_row row df).
Proof.
  unfold merge_row, unique_uids. intros Hne Hu. destruct (_ =? _)%nat eqn:E; [|done].
  apply length_zero_nil, with_hashed_uid_nil in E as [?|E]; [done|].
  rewrite map_app. simpl. apply NoDup_app. split; [done|]. split.
  - intros x Hx [->|[]%not_elem_of_nil]%elem_of_cons. done.
  - apply NoDup_singleton.
Qed.

Lemma unique_reset_index df : unique_uids df → unique_uids (reset_index df).
Proof. unfold unique_uids. by rewrite uids_reset_index. Qed.

(** Exactly one row for a [hashed_uid] that occurs in a duplicate-free
    manifest. *)
Lemma unique_uids_one uid df :
  uid ≠ "" →
  unique_uids df → uid ∈ map hashed_uid df → length (with_hashed_uid uid df) = 1.
Proof.
  intros Hne. unfold unique_uids. induction df as [|r df IH].
  - by intros _ ?%not_elem_of_nil.
  - change (map hashed_uid (r :: df)) with (hashed_uid r :: map hashed_uid df).
    intros [Hr Hdf]%NoDup_cons Hin. unfold with_hashed_uid. rewrite filter_cons.
    case_decide as E.
    + simpl. f_equal. apply length_zero_iff_nil. apply with_hashed_uid_nil.
      right. destruct E. congruence.
    + apply IH; [done|].
      apply elem_of_cons in Hin as [?|?]; [|done]. exfalso. apply E. split; congruence.
Qed.

(** *** What is read back *)

Lemma isna_empty : isna "" = true.
Proof. done. Qed.

Lemma isna_false_ne s : isna s = false → s ≠ "".
Proof. by intros H ->. Qed.

Lemma read_str_plain s : isna s = false → read_str s = s.
Proof. unfold read_str. by intros ->. Qed.

Lemma read_str_empty s : read_str s = "" ↔ isna s = true.
Proof.
  unfold read_str. destruct (isna s) eqn:E; [done|]. split; [|done].
  intros ->. done.
Qed.

Lemma read_str_idemp s : read_str (read_str s) = read_str s.
Proof. unfold read_str. destruct (isna s) eqn:E; [done|]. by rewrite E. Qed.

Lemma text_cell_isna s : text_cell s = true → isna s = false.
Proof.
  destruct s as [|c s]; [done|]. simpl.
  intros [[_ H]%andb_true_iff _]%andb_true_iff. by apply negb_true_iff in H.
Qed.

(** A column of text is kept as it is. *)
Lemma read_untyped_text numeric col :
  Forall (λ s, text_cell s = true) col → read_untyped numeric col = col.
Proof.
  intros Hcol. unfold read_untyped.
  assert (Hsame : map read_str col = col).
  { induction Hcol as [|s col Hs _ IH]; [done|]. simpl.
    by rewrite IH, (read_str_plain _ (text_cell_isna _ Hs)). }
  rewrite Hsame. destruct Hcol as [|s col Hs _]; [done|]. simpl. by rewrite Hs.
Qed.

Lemma length_read_untyped numeric col : length (read_untyped numeric col) = length col.
Proof. unfold read_untyped. case_match; by rewrite ?length_map. Qed.

Lemma read_frame_rows (df : DataFrame) (mods paths : list string) :
  length mods = length df → length paths = length df →
  map hashed_uid
    (zip_with (λ r (mp : string * string),
                 {| index_label := index_label r;
                    patient_id := read_str (patient_id r);
                    hashed_uid := read_str (hashed_uid r);
                    modality := mp.1; path := mp.2 |}) df (zip mods paths))
  = map (λ r, read_str (hashed_uid r)) df.
Proof.
  revert mods paths. induction df as [|r df IH]; intros [|a mods] [|b paths]; simpl; try done.
  intros [= H1] [= H2]. f_equal. by apply IH.
Qed.

(** The [hashed_uid] column as it is read. *)
Lemma uids_read_frame numeric df :
  map hashed_uid (read_frame numeric df) = map (λ r, read_str (hashed_uid r)) df.
Proof.
  unfold read_frame. apply read_frame_rows;
    by rewrite length_read_untyped, length_map.
Qed.

(** Rows that are plain are read back as they were written. *)
Lemma read_frame_plain numeric df :
  Forall plain_row df → read_frame numeric df = df.
Proof.
  intros Hdf. unfold read_frame.
  rewrite !read_untyped_text.
  - induction Hdf as [|r df (Hp & Hu & _ & _) _ IH]; [done|].
    destruct r as [i pid uid mo pa]. simpl in *. f_equal; [|exact IH].
    by rewrite (read_str_plain _ Hp), (read_str_plain _ Hu).
  - apply Forall_forall. intros s (r & <- & Hr)%list_elem_of_In%List.in_map_iff.
    apply list_elem_of_In in Hr. by apply (proj1 (Forall_forall _ _) Hdf r Hr).
  - apply Forall_forall. intros s (r & <- & Hr)%list_elem_of_In%List.in_map_iff.
    apply list_elem_of_In in Hr. by apply (proj1 (Forall_forall _ _) Hdf r Hr).
Qed.

Lemma plain_row_uid r : plain_row r → hashed_uid r ≠ "".
Proof. intros (_ & H & _). by apply isna_false_ne. Qed.

Lemma plain_set_index_label i r : plain_row r → plain_row (set_index_label i r).
Proof. done. Qed.

Lemma plain_imap_label (f : nat → Z) df :
  Forall plain_row df → Forall plain_row (imap (λ i r, set_index_label (f i) r) df).
Proof.
  intros Hdf. revert f. induction Hdf as [|r df Hr _ IH]; intros f; [constructor|].
  simpl. constructor; [done|]. apply (IH (f ∘ S)).
Qed.

Lemma plain_reset_index df : Forall plain_row df → Forall plain_row (reset_index df).
Proof. apply plain_imap_label. Qed.

Lemma plain_merge_row row df :
  plain_row row → Forall plain_row df → Forall plain_row (merge_row row df).
Proof.
  intros Hr Hdf. unfold merge_row. case_match; [|done].
  apply Forall_app. split; [done|]. by constructor.
Qed.

(** ** The steps of [add_object_to_dataset] on the file system *)

#[local] Arguments walk : simpl never.
#[local] Arguments Path : simpl never.
#[local] Opaque MAXSYMLINKS.

Lemma manifests_unique_spec m :
  manifests_unique m ↔ ∀ l df, m !! l = Some (File (Csv df)) → unique_uids df.
Proof.
  unfold manifests_unique. split.
  - intros H l df Hl. apply (H l _ Hl).
  - intros H l n Hl. destruct n as [| |[]]; simpl; try done. by apply (H l).
Qed.

Lemma manifests_unique_insert m l n :
  manifests_unique m →
  (∀ df, n = File (Csv df) → unique_uids df) →
  manifests_unique (<[l := n]> m).
Proof.
  rewrite !manifests_unique_spec.
  intros Hu Hn l' df. destruct (decide (l = l')) as [->|].
  - rewrite lookup_insert_eq. intros [= ->]. by apply Hn.
  - rewrite lookup_insert_ne by done. apply Hu.
Qed.

Lemma manifests_plain_spec m :
  manifests_plain m ↔ ∀ l df, m !! l = Some (File (Csv df)) → Forall plain_row df.
Proof.
  unfold manifests_plain. split.
  - intros H l df Hl. apply (H l _ Hl).
  - intros H l n Hl. destruct n as [| |[]]; simpl; try done. by apply (H l).
Qed.

Lemma manifests_plain_insert m l n :
  manifests_plain m →
  (∀ df, n = File (Csv df) → Forall plain_row df) →
  manifests_plain (<[l := n]> m).
Proof.
  rewrite !manifests_plain_spec.
  intros Hu Hn l' df. destruct (decide (l = l')) as [->|].
  - rewrite lookup_insert_eq. intros [= ->]. by apply Hn.
  - rewrite lookup_insert_ne by done. apply Hu.
Qed.

Lemma dirs_added_plain m m' : dirs_added m m' → manifests_plain m → manifests_plain m'.
Proof.
  rewrite !manifests_plain_spec. intros Hd Hp l df Hl.
  destruct (Hd l) as [E|[_ E]]; [|congruence]. apply (Hp l). congruence.
Qed.

Section steps.

Variable numeric : list string → string → string.
Variable cwd : loc.

(** *** The reference *)

Lemma link_step_cases sl src m r m' :
  link_step cwd sl src m = (r, m') →
  (r = Ok () ∧ m' = m ∧ fst (os.path_exists cwd sl m) = Ok true)
  ∨ (r = Ok () ∧ fst (os.path_exists cwd sl m) = Ok false ∧
     ∃ l, os.lstat cwd m sl = Ok l ∧ m !! l = None ∧ m' = <[l := Symlink (str src)]> m)
  ∨ (∃ e, r = Err e ∧ m' = m ∧ fst (os.path_exists cwd sl m) = Ok false).
Proof.
  unfold link_step, bind. 
  destruct (os.path_exists cwd sl m) as [[[]|e] m0] eqn:E.
  - assert (m0 = m) as -> by (by rewrite <- (path_exists_state cwd sl m), E).
    intros [= <- <-]. by left.
  - assert (m0 = m) as -> by (by rewrite <- (path_exists_state cwd sl m), E).
    destruct r as [[]|e].
    + intros H. right; left. apply symlink_Ok in H. auto.
    + intros H. right; right. apply symlink_Err in H. eauto.
  - done.
Qed.

Lemma link_step_fs_le sl src m : fs_le m (snd (link_step cwd sl src m)).
Proof.
  destruct (link_step cwd sl src m) as [r m'] eqn:E.
  apply link_step_cases in E as [(_ & -> & _)|[(_ & _ & l & _ & Hl & ->)|(e & _ & -> & _)]];
    simpl; auto using fs_le_refl, fs_le_insert_fresh.
Qed.

Lemma link_step_unique sl src m :
  manifests_unique m → manifests_unique (snd (link_step cwd sl src m)).
Proof.
  intros Hu. destruct (link_step cwd sl src m) as [r m'] eqn:E.
  apply link_step_cases in E as [(_ & -> & _)|[(_ & _ & l & _ & Hl & ->)|(e & _ & -> & _)]];
    simpl; auto. by apply manifests_unique_insert.
Qed.

Lemma link_step_plain sl src m :
  manifests_plain m → manifests_plain (snd (link_step cwd sl src m)).
Proof.
  intros Hu. destruct (link_step cwd sl src m) as [r m'] eqn:E.
  apply link_step_cases in E as [(_ & -> & _)|[(_ & _ & l & _ & Hl & ->)|(e & _ & -> & _)]];
    simpl; auto. by apply manifests_plain_insert.
Qed.

(** After the step something is at the place of the reference. *)
Lemma link_step_present sl src m m' :
  link_step cwd sl src m = (Ok (), m') →
  ∃ l, os.lstat cwd m' sl = Ok l ∧ is_Some (m' !! l).
Proof.
  intros [(_ & -> & Hex)|[(_ & _ & l & Hls & Hl & ->)|(e & ? & _)]]%link_step_cases;
    [| |done].
  - apply path_exists_true in Hex as (l & Hs & Hl).
    unfold os.stat in Hs. by apply walk_lstat_of_stat in Hs.
  - exists l. rewrite lookup_insert_eq. split; [|eauto].
    unfold os.lstat in *. apply walk_insert; auto.
Qed.

(** The reference this call made. *)
Lemma link_step_created sl src m m' :
  link_step cwd sl src m = (Ok (), m') →
  fst (os.path_exists cwd sl m) = Ok false →
  ∃ l, os.lstat cwd m sl = Ok l ∧ m !! l = None ∧ os.lstat cwd m' sl = Ok l ∧
       m' = <[l := Symlink (str src)]> m.
Proof.
  intros [(_ & -> & Hex)|[(_ & _ & l & Hls & Hl & ->)|(e & ? & _)]]%link_step_cases Hno;
    [congruence| |done].
  exists l. split; [done|]. split; [done|]. split; [|done].
  unfold os.lstat in *. apply walk_insert; auto.
Qed.

(** With something at the place of the reference that does not resolve,
    the step fails as [os.symlink] does. *)
Lemma link_step_dangling sl src m l :
  os.lstat cwd m sl = Ok l → is_Some (m !! l) →
  fst (os.path_exists cwd sl m) = Ok false →
  link_step cwd sl src m = (Err (OSError EEXIST), m).
Proof.
  intros Hls [n Hl] Hex. unfold link_step, bind.
  pose proof (path_exists_state cwd sl m) as Hst.
  destruct (os.path_exists cwd sl m) as [rx mx]. simpl in Hex, Hst. subst rx mx.
  unfold os.symlink. by rewrite Hls, Hl.
Qed.

(** Once the step has succeeded it changes nothing any more. *)
Lemma link_step_again sl src m m1 m2 :
  link_step cwd sl src m = (Ok (), m1) → kind_le m1 m2 →
  snd (link_step cwd sl src m2) = m2.
Proof.
  intros (l & Hls & Hl)%link_step_present Hle.
  destruct (link_step cwd sl src m2) as [r m'] eqn:E. simpl.
  apply link_step_cases in E as [(_ & -> & _)|[(_ & _ & l' & Hls' & Hl' & ->)|(e & _ & -> & _)]];
    [done| |done].
  unfold os.lstat in *. rewrite (walk_stable _ _ _ _ _ _ _ Hle Hls Hl) in Hls'.
  simplify_eq. apply (kind_le_is_Some _ _ _ Hle) in Hl as [? ?]. congruence.
Qed.

(** *** The manifest *)

Lemma merge_step_cases csv row m r m' :
  merge_step numeric cwd csv row m = (r, m') →
  (∃ e, r = Err e ∧ m' = m)
  ∨ (r = Ok () ∧ ∃ l df,
       os.stat cwd m csv = Ok l ∧ m' = <[l := File (Csv (reset_index df))]> m ∧
       ((m !! l = None ∧ df = [row])
        ∨ (∃ dfc, m !! l = Some (File (Csv dfc))
                  ∧ df = merge_row row (read_frame numeric dfc)))).
Proof.
  unfold merge_step, bind.
  destruct (os.path_exists cwd csv m) as [[present|e] m0] eqn:E; [|done].
  assert (m0 = m) as -> by (by rewrite <- (path_exists_state cwd csv m), E).
  destruct present.
  - pose proof (f_equal fst E) as Hex. simpl in Hex.
    apply path_exists_true in Hex as (l & Hs & Hl).
    pose proof (read_file_state cwd csv m) as Hst.
    destruct (os.read_file cwd csv m) as [[c|e] m1] eqn:Er; simpl in Hst; subst m1.
    + pose proof (f_equal fst Er) as Hr. simpl in Hr.
      apply read_file_Ok in Hr as (l' & Hs' & Hc).
      unfold lift. destruct (parse_csv numeric c) as [dfc|e] eqn:Ep.
      * destruct c; simplify_eq/=. unfold ret.
        destruct r as [[]|e].
        -- intros (l2 & Hs2 & _ & ->)%write_file_Ok.
           assert (l' = l) as -> by congruence.
           assert (l2 = l) as -> by congruence.
           right. split; [done|]. eexists l, _. eauto 10.
        -- intros ->%write_file_Err. eauto.
      * intros [= <- <-]. eauto.
    + intros [= <- <-]. eauto.
  - unfold ret. destruct r as [[]|e].
    + intros (l & Hs & Hl & ->)%write_file_Ok.
      right. split; [done|]. exists l, [row]. repeat split; try done. left. split; [|done].
      destruct Hl as [?|[c0 Hc0]]; [done|].
      pose proof (f_equal fst E) as Hex. simpl in Hex.
      unfold os.path_exists in Hex. simpl in Hex. rewrite Hs in Hex.
      rewrite bool_decide_eq_true_2 in Hex by eauto. done.
    + intros ->%write_file_Err. eauto.
Qed.

(** Whatever the manifest holds, the step keeps every node of its kind. *)
Lemma merge_step_kind_le csv row m : kind_le m (snd (merge_step numeric cwd csv row m)).
Proof.
  destruct (merge_step numeric cwd csv row m) as [r m'] eqn:E. simpl.
  apply merge_step_cases in E as [(e & _ & ->)|(_ & l & df & Hs & -> & H)].
  - apply kind_le_refl.
  - destruct H as [[Hl _]|(dfc & Hl & ->)].
    + by apply kind_le_insert_fresh.
    + by eapply kind_le_insert_file.
Qed.

(** When the manifest is read back as it was written, it keeps its rows. *)
Lemma merge_step_fs_le csv row m :
  manifests_plain m → fs_le m (snd (merge_step numeric cwd csv row m)).
Proof.
  intros Hp. destruct (merge_step numeric cwd csv row m) as [r m'] eqn:E. simpl.
  apply merge_step_cases in E as [(e & _ & ->)|(_ & l & df & Hs & -> & H)].
  - apply fs_le_refl.
  - destruct H as [[Hl _]|(dfc & Hl & ->)].
    + by apply fs_le_insert_fresh.
    + eapply fs_le_insert_file; [done|]. simpl. eexists; split; [done|].
      rewrite records_reset_index. unfold records.
      rewrite (read_frame_plain numeric dfc)
        by (by apply (proj1 (manifests_plain_spec m) Hp l)).
      destruct (merge_row_prefix row dfc) as [k ->]. rewrite map_app. by eexists.
Qed.

Lemma merge_step_plain csv row m :
  manifests_plain m → plain_row row →
  manifests_plain (snd (merge_step numeric cwd csv row m)).
Proof.
  intros Hp Hrow. destruct (merge_step numeric cwd csv row m) as [r m'] eqn:E. simpl.
  apply merge_step_cases in E as [(e & _ & ->)|(_ & l & df & Hs & -> & H)]; [done|].
  apply manifests_plain_insert; [done|]. intros ? [= <-].
  apply plain_reset_index.
  destruct H as [[_ ->]|(dfc & Hl & ->)].
  - by constructor.
  - pose proof (proj1 (manifests_plain_spec m) Hp l _ Hl) as Hdfc.
    rewrite (read_frame_plain numeric dfc Hdfc). by apply plain_merge_row.
Qed.

Lemma merge_step_unique csv row m :
  manifests_plain m → plain_row row →
  manifests_unique m → manifests_unique (snd (merge_step numeric cwd csv row m)).
Proof.
  intros Hp Hrow Hu. destruct (merge_step numeric cwd csv row m) as [r m'] eqn:E. simpl.
  apply merge_step_cases in E as [(e & _ & ->)|(_ & l & df & Hs & -> & H)]; [done|].
  apply manifests_unique_insert; [done|]. intros ? [= <-].
  apply unique_reset_index.
  destruct H as [[_ ->]|(dfc & Hl & ->)].
  - apply NoDup_singleton.
  - rewrite (read_frame_plain numeric dfc)
      by (by apply (proj1 (manifests_plain_spec m) Hp l)).
    apply merge_row_unique; [by apply plain_row_uid|].
    by apply (proj1 (manifests_unique_spec m) Hu l).
Qed.

(** What the manifest holds after the step. *)
Lemma merge_step_manifest csv row m m' :
  merge_step numeric cwd csv row m = (Ok (), m') →
  ∃ l df, os.stat cwd m' csv = Ok l ∧ m' !! l = Some (File (Csv df)) ∧
          hashed_uid row ∈ map hashed_uid df ∧ reset_index df = df ∧
          m' = <[l := File (Csv df)]> m ∧ os.stat cwd m csv = Ok l ∧
          ((m !! l = None ∧ df = reset_index [row])
           ∨ (∃ dfc, m !! l = Some (File (Csv dfc))
                     ∧ df = reset_index (merge_row row (read_frame numeric dfc)))).
Proof.
  intros [(e & ? & _)|(_ & l & df & Hs & -> & H)]%merge_step_cases; [done|].
  exists l, (reset_index df). rewrite lookup_insert_eq.
  split.
  { apply stat_after_write; [done|]. destruct H as [[? _]|(dfc & ? & _)]; eauto. }
  split; [done|]. rewrite uids_reset_index, reset_index_idemp.
  split.
  { destruct H as [[_ ->]|(dfc & _ & ->)]; [apply list_elem_of_here|apply merge_row_uid]. }
  repeat split; try done.
  destruct H as [[? ->]|(dfc & ? & ->)]; eauto.
Qed.

(** Once the step has succeeded, on manifests that are read back as they
    were written, it changes nothing any more. *)
Lemma merge_step_again csv row m m' :
  manifests_plain m → plain_row row →
  merge_step numeric cwd csv row m = (Ok (), m') →
  merge_step numeric cwd csv row m' = (Ok (), m').
Proof.
  intros Hp Hrow Hm.
  pose proof (merge_step_plain csv row m Hp Hrow) as Hp'. rewrite Hm in Hp'. simpl in Hp'.
  apply merge_step_manifest in Hm as (l & df & Hs & Hl & Hin & Hreset & _).
  unfold merge_step, bind, os.path_exists. rewrite Hs.
  rewrite bool_decide_eq_true_2 by eauto.
  unfold os.read_file. rewrite Hs, Hl. unfold lift, ret. simpl.
  rewrite (read_frame_plain numeric df)
    by (by apply (proj1 (manifests_plain_spec m') Hp' l)).
  rewrite merge_row_noop; [|by apply plain_row_uid|done]. rewrite Hreset.
  unfold os.write_file. rewrite Hs, Hl. by rewrite insert_id.
Qed.

(** *** All of it *)

Lemma place_cases sl src csv row m r m' :
  place numeric cwd sl src csv row m = (r, m') →
  ∃ m1 r1, os.makedirs_exist_ok cwd (parent sl) m = (r1, m1) ∧
    ((∃ e, r1 = Err e ∧ r = Err e ∧ m' = m1)
     ∨ (r1 = Ok () ∧ ∃ m2 r2, link_step cwd sl src m1 = (r2, m2) ∧
          ((∃ e, r2 = Err e ∧ r = Err e ∧ m' = m2)
           ∨ (r2 = Ok () ∧ merge_step numeric cwd csv row m2 = (r, m'))))).
Proof.
  unfold place, bind.
  destruct (os.makedirs_exist_ok cwd (parent sl) m) as [[[]|e] m1] eqn:E1.
  - destruct (link_step cwd sl src m1) as [[[]|e] m2] eqn:E2.
    + intros H. eexists _, _. split; [reflexivity|]. right. split; [reflexivity|].
      eexists _, _. split; [exact E2|]. right. split; [reflexivity|exact H].
    + intros [= <- <-]. eexists _, _. split; [reflexivity|]. right. split; [reflexivity|].
      eexists _, _. split; [exact E2|]. left. eauto.
  - intros [= <- <-]. eexists _, _. split; [reflexivity|]. left. eauto.
Qed.

(** A property that the three steps keep is kept by the call, whatever
    its outcome. *)
Lemma place_keeps (P : fs → Prop) sl src csv row m :
  (∀ m, P m → P (snd (os.makedirs_exist_ok cwd (parent sl) m))) →
  (∀ m, P m → P (snd (link_step cwd sl src m))) →
  (∀ m, P m → P (snd (merge_step numeric cwd csv row m))) →
  P m → P (snd (place numeric cwd sl src csv row m)).
Proof.
  intros H1 H2 H3 Hm.
  destruct (place numeric cwd sl src csv row m) as [r m'] eqn:E. simpl.
  apply place_cases in E as (m1 & r1 & Hmk & H).
  assert (P m1) by (rewrite <- (f_equal snd Hmk : _ = m1); by apply H1).
  destruct H as [(e & _ & _ & ->)|(_ & m2 & r2 & Hlk & H)]; [done|].
  assert (P m2) by (rewrite <- (f_equal snd Hlk : _ = m2); by apply H2).
  destruct H as [(e & _ & _ & ->)|(_ & Hmg)]; [done|].
  rewrite <- (f_equal snd Hmg : _ = m'). by apply H3.
Qed.

(** Every node is kept, of its kind, whatever the outcome. *)
Lemma place_kind_le sl src csv row m : kind_le m (snd (place numeric cwd sl src csv row m)).
Proof.
  apply (place_keeps (kind_le m)); [| | |apply kind_le_refl]; intros m0 H0;
    (eapply kind_le_trans; [exact H0|]).
  - apply fs_le_kind, dirs_added_fs_le, makedirs_dirs_added.
  - apply fs_le_kind, link_step_fs_le.
  - apply merge_step_kind_le.
Qed.

(** Manifests that are read back as they were written stay so when the
    row is plain, whatever the outcome. *)
Lemma place_plain sl src csv row m :
  plain_row row → manifests_plain m →
  manifests_plain (snd (place numeric cwd sl src csv row m)).
Proof.
  intros Hrow. apply (place_keeps manifests_plain); intros m0 H0.
  - eapply dirs_added_plain; [apply makedirs_dirs_added|done].
  - by apply link_step_plain.
  - by apply merge_step_plain.
Qed.

(** Then nothing is removed, whatever the outcome. *)
Lemma place_fs_le sl src csv row m :
  plain_row row → manifests_plain m →
  fs_le m (snd (place numeric cwd sl src csv row m)).
Proof.
  intros Hrow Hp.
  apply (place_keeps (λ m', manifests_plain m' ∧ fs_le m m'));
    [| | |split; [done|apply fs_le_refl]]; intros m0 [Hp0 H0]; split.
  - eapply dirs_added_plain; [apply makedirs_dirs_added|done].
  - eapply fs_le_trans; [exact H0|]. apply dirs_added_fs_le, makedirs_dirs_added.
  - by apply link_step_plain.
  - eapply fs_le_trans; [exact H0|]. apply link_step_fs_le.
  - by apply merge_step_plain.
  - eapply fs_le_trans; [exact H0|]. by apply merge_step_fs_le.
Qed.

(** And manifests stay free of duplicates, whatever the outcome. *)
Lemma place_unique sl src csv row m :
  plain_row row → manifests_plain m →
  manifests_unique m → manifests_unique (snd (place numeric cwd sl src csv row m)).
Proof.
  intros Hrow Hp Hu.
  apply (place_keeps (λ m', manifests_plain m' ∧ manifests_unique m'));
    [| | |done]; intros m0 [Hp0 H0]; split.
  - eapply dirs_added_plain; [apply makedirs_dirs_added|done].
  - eapply dirs_added_unique; [apply makedirs_dirs_added|done].
  - by apply link_step_plain.
  - by apply link_step_unique.
  - by apply merge_step_plain.
  - by apply merge_step_unique.
Qed.

(** What a successful call leaves: the reference and the manifest. *)
Lemma place_Ok sl src csv row m m' :
  place numeric cwd sl src csv row m = (Ok (), m') →
  ∃ m1 m2,
    os.makedirs_exist_ok cwd (parent sl) m = (Ok (), m1) ∧
    link_step cwd sl src m1 = (Ok (), m2) ∧
    merge_step numeric cwd csv row m2 = (Ok (), m').
Proof.
  intros (m1 & r1 & Hmk & [(e & _ & ? & _)|(-> & m2 & r2 & Hlk & H)])%place_cases; [done|].
  destruct H as [(e & _ & ? & _)|(-> & Hmg)]; [done|]. eauto.
Qed.

(** A second call after a successful one changes nothing; it returns when
    the reference resolves. *)
Lemma place_again sl src csv row m m' :
  plain_row row → manifests_plain m →
  place numeric cwd sl src csv row m = (Ok (), m') →
  snd (place numeric cwd sl src csv row m') = m'
  ∧ (fst (os.path_exists cwd sl m') = Ok true →
     place numeric cwd sl src csv row m' = (Ok (), m'))
  ∧ (fst (os.path_exists cwd sl m') = Ok false →
     place numeric cwd sl src csv row m' = (Err (OSError EEXIST), m')).
Proof.
  intros Hrow Hp (m1 & m2 & Hmk & Hlk & Hmg)%place_Ok.
  assert (Hp2 : manifests_plain m2).
  { rewrite <- (f_equal snd Hlk : _ = m2). apply link_step_plain.
    rewrite <- (f_equal snd Hmk : _ = m1).
    eapply dirs_added_plain; [apply makedirs_dirs_added|done]. }
  assert (H12 : kind_le m1 m2).
  { rewrite <- (f_equal snd Hlk : _ = m2). apply fs_le_kind, link_step_fs_le. }
  assert (H23 : kind_le m2 m').
  { rewrite <- (f_equal snd Hmg : _ = m'). apply merge_step_kind_le. }
  unfold place, bind.
  rewrite makedirs_noop.
  2:{ eapply is_dir_stable; [|by eapply makedirs_is_dir]. by eapply kind_le_trans. }
  assert (Hthere : ∃ l, os.lstat cwd m' sl = Ok l ∧ is_Some (m' !! l)).
  { destruct (link_step_present _ _ _ _ Hlk) as (l & Hls & Hl). exists l. split.
    - unfold os.lstat in *. by eapply walk_stable.
    - by eapply kind_le_is_Some. }
  destruct Hthere as (l & Hls & Hl).
  pose proof (link_step_again _ _ _ _ _ Hlk H23) as Hagain.
  destruct (link_step cwd sl src m') as [[[]|e] m3] eqn:Hl3; simpl in Hagain; subst m3.
  - rewrite (merge_step_again _ _ _ _ Hp2 Hrow Hmg). split; [done|]. split; [done|].
    intros Hex. rewrite (link_step_dangling _ _ _ _ Hls Hl Hex) in Hl3. done.
  - split; [done|]. split; intros Hex.
    + apply link_step_cases in Hl3 as [(? & _)|[(? & _)|(_ & _ & _ & Hno)]]; congruence.
    + rewrite (link_step_dangling _ _ _ _ Hls Hl Hex) in Hl3. by simplify_eq.
Qed.

(** What was there before the first two steps is there after them, and
    they add no file. *)
Lemma makedirs_lookup p m l n :
  m !! l = Some n → snd (os.makedirs_exist_ok cwd p m) !! l = Some n.
Proof.
  intros Hl. destruct (makedirs_dirs_added cwd p m l) as [->|[? _]]; congruence.
Qed.

Lemma makedirs_File p m l c :
  snd (os.makedirs_exist_ok cwd p m) !! l = Some (File c) → m !! l = Some (File c).
Proof.
  intros Hl. destruct (makedirs_dirs_added cwd p m l) as [<-|[_ ?]]; congruence.
Qed.

Lemma link_step_lookup sl src m l n :
  m !! l = Some n → snd (link_step cwd sl src m) !! l = Some n.
Proof.
  intros Hl. destruct (link_step cwd sl src m) as [r m'] eqn:E. simpl.
  apply link_step_cases in E as [(_ & -> & _)|[(_ & _ & l' & _ & Hl' & ->)|(e & _ & -> & _)]];
    [done| |done].
  rewrite lookup_insert_ne; [done|congruence].
Qed.

Lemma link_step_File sl src m l c :
  snd (link_step cwd sl src m) !! l = Some (File c) → m !! l = Some (File c).
Proof.
  destruct (link_step cwd sl src m) as [r m'] eqn:E. simpl.
  apply link_step_cases in E as [(_ & -> & _)|[(_ & _ & l' & _ & Hl' & ->)|(e & _ & -> & _)]];
    [done| |done].
  destruct (decide (l' = l)) as [->|].
  - by rewrite lookup_insert_eq.
  - by rewrite lookup_insert_ne.
Qed.

(** The manifest after a successful call: the merge of the row into what
    was read from the manifest, or into nothing. *)
Lemma place_manifest sl src csv row m m' :
  place numeric cwd sl src csv row m = (Ok (), m') →
  ∃ l df dfc,
    os.stat cwd m' csv = Ok l ∧ m' !! l = Some (File (Csv df)) ∧
    df = reset_index (merge_row row dfc) ∧
    (dfc = [] ∨ ∃ l0 dfile, m !! l0 = Some (File (Csv dfile))
                            ∧ dfc = read_frame numeric dfile).
Proof.
  intros (m1 & m2 & Hmk & Hlk & Hmg)%place_Ok.
  destruct (merge_step_manifest _ _ _ _ Hmg)
    as (l & df & Hs & Hl & _ & _ & _ & _ & [[_ ->]|(dfc & Hc & ->)]).
  - exists l, (reset_index [row]), []. eauto.
  - exists l, (reset_index (merge_row row (read_frame numeric dfc))), (read_frame numeric dfc).
    split; [done|]. split; [done|]. split; [done|]. right. exists l, dfc. split; [|done].
    apply (makedirs_File (parent sl)). rewrite Hmk. simpl.
    apply (link_step_File sl src). rewrite Hlk. done.
Qed.

(** The manifest the call finds is the one the first two steps leave. *)
Lemma place_finds sl src csv row m l dfc :
  os.stat cwd m csv = Ok l → m !! l = Some (File (Csv dfc)) →
  ∀ r m', place numeric cwd sl src csv row m = (r, m') →
    (m' !! l = Some (File (Csv dfc)))
    ∨ (r = Ok ()
       ∧ m' !! l = Some (File (Csv (reset_index (merge_row row (read_frame numeric dfc)))))).
Proof.
  intros Hs Hl r m' E.
  apply place_cases in E as (m1 & r1 & Hmk & H).
  pose proof (makedirs_lookup (parent sl) m l _ Hl) as Hl1. rewrite Hmk in Hl1. simpl in Hl1.
  destruct H as [(e & _ & _ & ->)|(_ & m2 & r2 & Hlk & H)]; [eauto|].
  pose proof (link_step_lookup sl src m1 l _ Hl1) as Hl2. rewrite Hlk in Hl2. simpl in Hl2.
  destruct H as [(e & _ & _ & ->)|(_ & Hmg)]; [eauto|].
  assert (Hle : kind_le m m2).
  { pose proof (makedirs_dirs_added cwd (parent sl) m) as H1. rewrite Hmk in H1.
    pose proof (link_step_fs_le sl src m1) as H2. rewrite Hlk in H2.
    apply fs_le_kind. eapply fs_le_trans; [by apply dirs_added_fs_le|done]. }
  assert (Hs2 : os.stat cwd m2 csv = Ok l).
  { unfold os.stat in *. eapply walk_stable; eauto. }
  apply merge_step_cases in Hmg as [(e & _ & ->)|(-> & l' & df & Hs' & -> & H)]; [eauto|].
  assert (l' = l) as -> by congruence.
  rewrite lookup_insert_eq. right. split; [done|].
  destruct H as [[? _]|(dfc' & Hc & ->)]; [congruence|].
  assert (dfc' = dfc) as -> by congruence. done.
Qed.

(** A manifest of plain rows that has the [hashed_uid] keeps its records,
    whatever the outcome. *)
Lemma place_existing sl src csv row m l dfc :
  os.stat cwd m csv = Ok l → m !! l = Some (File (Csv dfc)) →
  Forall plain_row dfc →
  hashed_uid row ∈ map hashed_uid dfc →
  ∃ df', snd (place numeric cwd sl src csv row m) !! l = Some (File (Csv df'))
         ∧ records df' = records dfc.
Proof.
  intros Hs Hl Hp Hin.
  destruct (place numeric cwd sl src csv row m) as [r m'] eqn:E. simpl.
  destruct (place_finds sl src csv row m l dfc Hs Hl r m' E) as [H|[_ H]]; [eauto|].
  eexists. split; [exact H|]. rewrite records_reset_index.
  rewrite (read_frame_plain numeric dfc Hp).
  rewrite merge_row_noop; [done| |done].
  apply list_elem_of_In, List.in_map_iff in Hin as (r0 & <- & Hr0).
  apply list_elem_of_In in Hr0.
  by apply plain_row_uid, (proj1 (Forall_forall _ _) Hp).
Qed.

End steps.

(** ** [add_object_to_dataset] as a whole *)

#[local] Arguments walk : simpl never.
#[local] Arguments Path : simpl never.
#[local] Opaque MAXSYMLINKS.

Lemma fresh_heap_ne (h : gmap nat pyobj) r : is_Some (h !! r) → fresh (dom h) ≠ r.
Proof. intros Hr <-. apply elem_of_dom in Hr. by apply is_fresh in Hr. Qed.

Lemma normalised_row_uid self row row' :
  normalised_row self row = Ok row' →
  hashed_uid row' = hashed_uid row ∧ patient_id row' = patient_id row
  ∧ modality row' = modality row ∧ index_label row' = index_label row.
Proof.
  unfold normalised_row. repeat case_match; intros; simplify_eq; done.
Qed.

(** A reference that holds no [Series] makes the call fail at once. *)
Lemma add_object_to_dataset_not_Series self dataset_name r w :
  (∀ row, heap w !! r ≠ Some (OSeries row)) →
  PrepareDataset.add_object_to_dataset self dataset_name r w
  = (Err (TypeError "not a Series"), w).
Proof.
  intros Hr. unfold PrepareDataset.add_object_to_dataset, Series_copy, bind, get_Series.
  destruct (heap w !! r) as [[]|] eqn:E; try done. by destruct (Hr s).
Qed.

(** What a call does to each part of the state. *)
Lemma add_object_to_dataset_world self dataset_name r w row :
  heap w !! r = Some (OSeries row) →
  let res := PrepareDataset.add_object_to_dataset self dataset_name r w in
  cwd (snd res) = cwd w ∧
  image_reads (snd res) = image_reads w ∧
  (∀ r0, is_Some (heap w !! r0) → heap (snd res) !! r0 = heap w !! r0) ∧
  match normalised_row self row with
  | Err e => fst res = Err e ∧ nodes (snd res) = nodes w
  | Ok row' =>
      match reference_of self dataset_name row' with
      | Err e => fst res = Err e ∧ nodes (snd res) = nodes w
      | Ok (sl, src) =>
          res.1 = (place (pandas_numeric w) (cwd w) sl src
                         (manifest_path self dataset_name row') row' (nodes w)).1
          ∧ nodes res.2
            = (place (pandas_numeric w) (cwd w) sl src
                     (manifest_path self dataset_name row') row' (nodes w)).2
      end
  end.
Proof.
  intros Hr. cbv zeta. rewrite (add_object_to_dataset_run _ _ _ _ _ Hr). cbv zeta.
  assert (Hfresh : ∀ o r0, is_Some (heap w !! r0) →
            <[fresh (dom (heap w)) := o]> (heap w) !! r0 = heap w !! r0).
  { intros o r0 H0. apply lookup_insert_ne. by apply fresh_heap_ne. }
  destruct (normalised_row self row) as [row'|e]; [|simpl; by auto].
  destruct (reference_of self dataset_name row') as [[sl src]|e]; [|simpl; by auto].
  unfold syscall. simpl. split; [done|]. split; [done|]. split; [|done]. auto.
Qed.

Lemma add_object_to_dataset_cwd self dataset_name r w :
  cwd (snd (PrepareDataset.add_object_to_dataset self dataset_name r w)) = cwd w.
Proof.
  destruct (heap w !! r) as [[row| |]|] eqn:Hr.
  1: by apply (add_object_to_dataset_world self dataset_name r w row).
  all: rewrite add_object_to_dataset_not_Series; [done|congruence].
Qed.

Lemma add_object_to_dataset_heap self dataset_name r w r0 :
  is_Some (heap w !! r0) →
  heap (snd (PrepareDataset.add_object_to_dataset self dataset_name r w)) !! r0
  = heap w !! r0.
Proof.
  destruct (heap w !! r) as [[row| |]|] eqn:Hr.
  1: by apply (add_object_to_dataset_world self dataset_name r w row).
  all: rewrite add_object_to_dataset_not_Series; [done|congruence].
Qed.

Lemma add_object_to_dataset_numeric self dataset_name r w :
  pandas_numeric (snd (PrepareDataset.add_object_to_dataset self dataset_name r w))
  = pandas_numeric w.
Proof.
  destruct (heap w !! r) as [[row| |]|] eqn:Hr.
  2-4: rewrite add_object_to_dataset_not_Series; [done|congruence].
  rewrite (add_object_to_dataset_run _ _ _ _ _ Hr). cbv zeta.
  destruct (normalised_row self row) as [row'|e]; [|done].
  destruct (reference_of self dataset_name row') as [[sl src]|e]; [|done].
  unfold syscall. by destruct (place _ _ _ _ _ _ _).
Qed.

(** A property of the file system that [place] keeps is kept by the call,
    for the row that the call writes. *)
Lemma add_object_to_dataset_keeps (P : fs → Prop) self dataset_name r w :
  (∀ row row' sl src,
     heap w !! r = Some (OSeries row) → normalised_row self row = Ok row' →
     P (snd (place (pandas_numeric w) (cwd w) sl src
                   (manifest_path self dataset_name row') row' (nodes w)))) →
  P (nodes w) →
  P (nodes (snd (PrepareDataset.add_object_to_dataset self dataset_name r w))).
Proof.
  intros Hpl Hw. destruct (heap w !! r) as [[row| |]|] eqn:Hr.
  2-4: rewrite add_object_to_dataset_not_Series; [done|congruence].
  destruct (add_object_to_dataset_world self dataset_name r w row Hr) as (_ & _ & _ & H).
  destruct (normalised_row self row) as [row'|e] eqn:Hn; [|by destruct H as [_ ->]].
  destruct (reference_of self dataset_name row') as [[sl src]|e]; [|by destruct H as [_ ->]].
  destruct H as [_ ->]. by eapply Hpl.
Qed.

Lemma plain_at_row self w r row row' :
  plain_at self w r → heap w !! r = Some (OSeries row) →
  normalised_row self row = Ok row' → plain_row row'.
Proof. unfold plain_at, stored_plain. intros H Hr Hn. by rewrite Hr, Hn in H. Qed.

(** A call keeps every node, of its kind, whatever its outcome. *)
Lemma add_object_to_dataset_kind_le self dataset_name r w :
  kind_le (nodes w)
          (nodes (snd (PrepareDataset.add_object_to_dataset self dataset_name r w))).
Proof.
  apply (add_object_to_dataset_keeps (kind_le (nodes w))); [|apply kind_le_refl].
  intros. apply place_kind_le.
Qed.

(** With manifests and a record that are read back as written, a call
    removes nothing, whatever its outcome. *)
Lemma add_object_to_dataset_fs_le self dataset_name r w :
  plain_at self w r → manifests_plain (nodes w) →
  fs_le (nodes w) (nodes (snd (PrepareDataset.add_object_to_dataset self dataset_name r w))).
Proof.
  intros Hr Hp.
  apply (add_object_to_dataset_keeps (fs_le (nodes w))); [|apply fs_le_refl].
  intros. apply place_fs_le; [|done]. by eapply plain_at_row.
Qed.

Lemma add_object_to_dataset_plain self dataset_name r w :
  plain_at self w r → manifests_plain (nodes w) →
  manifests_plain (nodes (snd (PrepareDataset.add_object_to_dataset self dataset_name r w))).
Proof.
  intros Hr Hp.
  apply (add_object_to_dataset_keeps manifests_plain); [|done].
  intros. apply place_plain; [|done]. by eapply plain_at_row.
Qed.

(** And it keeps the manifests free of duplicates, whatever its outcome. *)
Lemma add_object_to_dataset_unique self dataset_name r w :
  plain_at self w r → manifests_plain (nodes w) →
  manifests_unique (nodes w) →
  manifests_unique (nodes (snd (PrepareDataset.add_object_to_dataset self dataset_name r w))).
Proof.
  intros Hr Hp Hu.
  apply (add_object_to_dataset_keeps manifests_unique); [|done].
  intros. apply place_unique; [|done|done]. by eapply plain_at_row.
Qed.

Lemma plain_at_after self dataset_name r w r0 :
  plain_at self w r0 →
  plain_at self (snd (PrepareDataset.add_object_to_dataset self dataset_name r w)) r0.
Proof.
  unfold plain_at. intros H.
  rewrite add_object_to_dataset_heap; [done|].
  destruct (heap w !! r0); [eauto|done].
Qed.

(** A successful call, taken apart. *)
Lemma add_object_to_dataset_Ok self dataset_name r w :
  fst (PrepareDataset.add_object_to_dataset self dataset_name r w) = Ok () →
  ∃ row row' sl src,
    heap w !! r = Some (OSeries row) ∧
    normalised_row self row = Ok row' ∧
    reference_of self dataset_name row' = Ok (sl, src) ∧
    place (pandas_numeric w) (cwd w) sl src (manifest_path self dataset_name row') row' (nodes w)
    = (Ok (), nodes (snd (PrepareDataset.add_object_to_dataset self dataset_name r w))).
Proof.
  intros Hok. destruct (heap w !! r) as [[row| |]|] eqn:Hr.
  2-4: rewrite add_object_to_dataset_not_Series in Hok; [done|congruence].
  destruct (add_object_to_dataset_world self dataset_name r w row Hr) as (_ & _ & _ & H).
  destruct (normalised_row self row) as [row'|e] eqn:E1; [|destruct H; congruence].
  destruct (reference_of self dataset_name row') as [[sl src]|e] eqn:E2;
    [|destruct H; congruence].
  destruct H as [H1 H2]. exists row, row', sl, src.
  split; [done|]. split; [done|]. split; [done|].
  rewrite H2. rewrite Hok in H1. destruct (place _ _ _ _ _ _ _) as [r1 m1].
  simpl in *. by subst.
Qed.

(** ** The claims about [add_object_to_dataset] *)

#[local] Arguments walk : simpl never.
#[local] Arguments Path : simpl never.
#[local] Opaque MAXSYMLINKS.

(** C1, the claim as it stands fails: a record whose [hashed_uid] is the
    text [NA] is placed twice.  Both calls return.  The first writes a
    manifest of one row; the second reads the [NA] of that row as a
    missing value, finds no row with the [hashed_uid] of the record and
    appends the record again: two rows for the record, and a manifest
    that is not the one the first call left. *)
Lemma add_object_to_dataset_twice_NA :
  let res1 := PrepareDataset.add_object_to_dataset sample_self "clean" 0 sample_na_world in
  let res2 := PrepareDataset.add_object_to_dataset sample_self "clean" 0 (snd res1) in
  fst res1 = Ok () ∧ fst res2 = Ok ()
  ∧ nodes (snd res1) !! sample_manifest
    = Some (File (Csv [mkSeries 0 "P1" "NA" "CT" "converted/P1/CT/a"]))
  ∧ nodes (snd res2) !! sample_manifest
    = Some (File (Csv [mkSeries 0 "P1" "" "CT" "converted/P1/CT/a";
                       mkSeries 1 "P1" "NA" "CT" "converted/P1/CT/a"]))
  ∧ nodes (snd res2) ≠ nodes (snd res1).
Proof.
  cbv zeta.
  assert (H1 : nodes (snd (PrepareDataset.add_object_to_dataset sample_self "clean" 0
                             sample_na_world)) !! sample_manifest
               = Some (File (Csv [mkSeries 0 "P1" "NA" "CT" "converted/P1/CT/a"])))
    by (vm_compute; reflexivity).
  assert (H2 : nodes (snd (PrepareDataset.add_object_to_dataset sample_self "clean" 0
                 (snd (PrepareDataset.add_object_to_dataset sample_self "clean" 0
                         sample_na_world)))) !! sample_manifest
               = Some (File (Csv [mkSeries 0 "P1" "" "CT" "converted/P1/CT/a";
                                  mkSeries 1 "P1" "NA" "CT" "converted/P1/CT/a"])))
    by (vm_compute; reflexivity).
  split; [vm_compute; reflexivity|]. split; [vm_compute; reflexivity|].
  split; [exact H1|]. split; [exact H2|].
  intros Heq. rewrite Heq, H1 in H2. discriminate H2.
Qed.

(** C1, amended.  When the manifests and the record are read back by
    pandas as they are written, a second call of [add_object_to_dataset]
    with the same record, after a first one that returned, leaves the
    file system as the first call left it: no second reference, no second
    row, the manifest file identical.  The second call returns when the
    reference resolves, and fails with [FileExistsError] when it does
    not.  At the place of the reference there is a node; it is the link
    to the relative target when the first call found nothing there once
    the directories were made.  The manifest of the patient has exactly
    one row with the [hashed_uid] of the record (the manifests being free
    of duplicates to begin with). *)
Theorem add_object_to_dataset_idempotent self dataset_name r w :
  manifests_plain (nodes w) →
  manifests_unique (nodes w) →
  plain_at self w r →
  fst (PrepareDataset.add_object_to_dataset self dataset_name r w) = Ok () →
  let w1 := snd (PrepareDataset.add_object_to_dataset self dataset_name r w) in
  let res2 := PrepareDataset.add_object_to_dataset self dataset_name r w1 in
  nodes (snd res2) = nodes w1 ∧
  ∃ row row' sl src l_link l_csv df,
    heap w !! r = Some (OSeries row) ∧
    normalised_row self row = Ok row' ∧
    reference_of self dataset_name row' = Ok (sl, src) ∧
    (fst (os.path_exists (cwd w) sl (nodes w1)) = Ok true → fst res2 = Ok ()) ∧
    (fst (os.path_exists (cwd w) sl (nodes w1)) = Ok false
     → fst res2 = Err (OSError EEXIST)) ∧
    os.lstat (cwd w) (nodes w1) sl = Ok l_link ∧
    is_Some (nodes w1 !! l_link) ∧
    (fst (os.path_exists (cwd w) sl
            (snd (os.makedirs_exist_ok (cwd w) (parent sl) (nodes w)))) = Ok false
     → nodes w1 !! l_link = Some (Symlink (str src))) ∧
    os.stat (cwd w) (nodes w1) (manifest_path self dataset_name row') = Ok l_csv ∧
    nodes w1 !! l_csv = Some (File (Csv df)) ∧
    length (with_hashed_uid (hashed_uid row) df) = 1.
Proof.
  intros Hp Hu Hpr Hok. cbv zeta.
  pose proof (add_object_to_dataset_unique self dataset_name r w Hpr Hp Hu) as Hu1.
  destruct (add_object_to_dataset_Ok _ _ _ _ Hok) as (row & row' & sl & src & Hr & Hn & Href & Hpl).
  set (w1 := snd (PrepareDataset.add_object_to_dataset self dataset_name r w)) in *.
  assert (Hr1 : heap w1 !! r = Some (OSeries row)).
  { unfold w1. rewrite add_object_to_dataset_heap by eauto. done. }
  assert (Hcwd : cwd w1 = cwd w) by apply add_object_to_dataset_cwd.
  assert (Hnum : pandas_numeric w1 = pandas_numeric w) by apply add_object_to_dataset_numeric.
  assert (Hrow' : plain_row row') by (by eapply plain_at_row).
  destruct (place_again _ _ _ _ _ _ _ _ Hrow' Hp Hpl) as (Hst & Hyes & Hno).
  destruct (add_object_to_dataset_world self dataset_name r w1 row Hr1) as (_ & _ & _ & H).
  rewrite Hn, Href, Hcwd, Hnum in H. destruct H as [Hres Hnodes].
  split; [by rewrite Hnodes|].
  apply place_Ok in Hpl as (m1 & m2 & Hmk & Hlk & Hmg).
  destruct (link_step_present _ _ _ _ _ Hlk) as (l_link & Hls & Hl).
  destruct (merge_step_manifest _ _ _ _ _ _ Hmg) as (l_csv & df & Hs & Hcsv & Hin & _).
  assert (H23 : kind_le m2 (nodes w1)).
  { rewrite <- (f_equal snd Hmg : _ = nodes w1). apply merge_step_kind_le. }
  exists row, row', sl, src, l_link, l_csv, df.
  split; [done|]. split; [done|]. split; [done|].
  split. { intros Hex. by rewrite Hres, (Hyes Hex). }
  split. { intros Hex. by rewrite Hres, (Hno Hex). }
  split. { unfold os.lstat in *. by eapply walk_stable. }
  split. { by eapply kind_le_is_Some. }
  split.
  { intros Hex. rewrite Hmk in Hex. simpl in Hex.
    destruct (link_step_created _ _ _ _ _ Hlk Hex) as (l & _ & _ & Hls' & ->).
    assert (l = l_link) as -> by congruence.
    eapply kind_le_Symlink; [exact H23|]. apply lookup_insert_eq. }
  split; [done|]. split; [done|].
  apply unique_uids_one.
  + rewrite <- (proj1 (normalised_row_uid _ _ _ Hn)). apply plain_row_uid, Hrow'.
  + by apply (proj1 (manifests_unique_spec _) Hu1 l_csv).
  + by rewrite <- (proj1 (normalised_row_uid _ _ _ Hn)).
Qed.

Lemma add_object_to_dataset_idempotent_witness :
  manifests_plain (nodes sample_world)
  ∧ manifests_unique (nodes sample_world)
  ∧ plain_at sample_self sample_world 0
  ∧ fst (PrepareDataset.add_object_to_dataset sample_self "clean" 0 sample_world) = Ok ()
  ∧ nodes (snd (PrepareDataset.add_object_to_dataset sample_self "clean" 0
             (snd (PrepareDataset.add_object_to_dataset sample_self "clean" 0 sample_world))))
    = nodes (snd (PrepareDataset.add_object_to_dataset sample_self "clean" 0 sample_world)).
Proof.
  assert (H0 : manifests_plain (nodes sample_world)).
  { apply (bool_decide_unpack _). vm_compute. exact I. }
  assert (H1 : manifests_unique (nodes sample_world)).
  { apply (bool_decide_unpack _). vm_compute. exact I. }
  assert (Hr : plain_at sample_self sample_world 0).
  { apply (bool_decide_unpack _). vm_compute. exact I. }
  assert (H2 : fst (PrepareDataset.add_object_to_dataset sample_self "clean" 0 sample_world)
               = Ok ()).
  { vm_compute. reflexivity. }
  split; [exact H0|]. split; [exact H1|]. split; [exact Hr|]. split; [exact H2|].
  exact (proj1 (add_object_to_dataset_idempotent sample_self "clean" 0 sample_world
                  H0 H1 Hr H2)).
Defined.

Lemma manifest_path_normalised self dataset_name row row' :
  normalised_row self row = Ok row' →
  manifest_path self dataset_name row' = manifest_path self dataset_name row.
Proof.
  intros (_ & Hp & _)%normalised_row_uid. unfold manifest_path. by rewrite Hp.
Qed.

Lemma run_calls_unique self (calls : list (string * ref)) w :
  manifests_plain (nodes w) →
  manifests_unique (nodes w) →
  Forall (λ c, plain_at self w c.2) calls →
  manifests_unique
    (nodes (run_calls (map (λ c, PrepareDataset.add_object_to_dataset self c.1 c.2) calls) w)).
Proof.
  revert w. induction calls as [|c calls IH]; intros w Hp Hu Hc; [done|].
  apply Forall_cons in Hc as [Hc1 Hc].
  simpl. apply IH.
  - by apply add_object_to_dataset_plain.
  - by apply add_object_to_dataset_unique.
  - eapply Forall_impl; [exact Hc|]. intros c0 H0. by apply plain_at_after.
Qed.

(** C2, the claim as it stands fails: the record whose [hashed_uid] is the
    text [NA] is added three times to a dataset that has no manifest yet.
    Every call reads the rows written before with a missing [hashed_uid]
    and appends the record: the manifest ends with three rows for it, two
    of them with the same, empty, [hashed_uid], and the row of the first
    call does not keep the [hashed_uid] it was written with. *)
Lemma manifest_hashed_uid_duplicated :
  let w' := run_calls
              (map (λ c, PrepareDataset.add_object_to_dataset sample_self c.1 c.2)
                   [("clean", 0); ("clean", 0); ("clean", 0)])
              sample_na_world in
  manifests_unique (nodes sample_na_world)
  ∧ nodes w' !! sample_manifest
    = Some (File (Csv [mkSeries 0 "P1" "" "CT" "converted/P1/CT/a";
                       mkSeries 1 "P1" "" "CT" "converted/P1/CT/a";
                       mkSeries 2 "P1" "NA" "CT" "converted/P1/CT/a"]))
  ∧ ¬ manifests_unique (nodes w').
Proof.
  cbv zeta.
  split. { apply (bool_decide_unpack _). vm_compute. exact I. }
  split. { vm_compute. reflexivity. }
  apply (bool_decide_eq_false_1 _). vm_compute. reflexivity.
Qed.

(** C2, amended.  When the manifests and the records are read back by
    pandas as they are written, whatever calls of [add_object_to_dataset]
    are made, one after the other, no manifest gets two rows with the same
    [hashed_uid]; and a call for a record whose [hashed_uid] is in the
    manifest of its patient leaves the records of that manifest as they
    are. *)
Theorem manifest_hashed_uid_unique self (calls : list (string * ref)) w :
  manifests_plain (nodes w) →
  manifests_unique (nodes w) →
  Forall (λ c, plain_at self w c.2) calls →
  manifests_unique
    (nodes (run_calls (map (λ c, PrepareDataset.add_object_to_dataset self c.1 c.2) calls) w))
  ∧ ∀ dataset_name r row l dfc,
      heap w !! r = Some (OSeries row) →
      os.stat (cwd w) (nodes w) (manifest_path self dataset_name row) = Ok l →
      nodes w !! l = Some (File (Csv dfc)) →
      hashed_uid row ∈ map hashed_uid dfc →
      ∃ df',
        nodes (snd (PrepareDataset.add_object_to_dataset self dataset_name r w)) !! l
        = Some (File (Csv df'))
        ∧ records df' = records dfc.
Proof.
  intros Hp Hu Hc. split; [by apply run_calls_unique|].
  intros dataset_name r row l dfc Hr Hs Hl Hin.
  destruct (add_object_to_dataset_world self dataset_name r w row Hr) as (_ & _ & _ & H).
  destruct (normalised_row self row) as [row'|e] eqn:Hn; [|destruct H as [_ ->]; eauto].
  destruct (reference_of self dataset_name row') as [[sl src]|e];
    [|destruct H as [_ ->]; eauto].
  destruct H as [_ ->]. apply place_existing; [|done| |].
  - by rewrite (manifest_path_normalised _ _ _ _ Hn).
  - by apply (proj1 (manifests_plain_spec _) Hp l).
  - by rewrite (proj1 (normalised_row_uid _ _ _ Hn)).
Qed.

Lemma manifest_hashed_uid_unique_witness :
  manifests_plain (nodes sample_world)
  ∧ manifests_unique (nodes sample_world)
  ∧ Forall (λ c : string * ref, plain_at sample_self sample_world c.2)
           [("clean", 0); ("clean", 1); ("clean", 0); ("clean", 2)]
  ∧ manifests_unique
      (nodes (run_calls
                (map (λ c, PrepareDataset.add_object_to_dataset sample_self c.1 c.2)
                     [("clean", 0); ("clean", 1); ("clean", 0); ("clean", 2)])
                sample_world)).
Proof.
  assert (H0 : manifests_plain (nodes sample_world)).
  { apply (bool_decide_unpack _). vm_compute. exact I. }
  assert (H1 : manifests_unique (nodes sample_world)).
  { apply (bool_decide_unpack _). vm_compute. exact I. }
  assert (Hc : Forall (λ c : string * ref, plain_at sample_self sample_world c.2)
                 [("clean", 0); ("clean", 1); ("clean", 0); ("clean", 2)]).
  { apply (bool_decide_unpack _). vm_compute. exact I. }
  split; [exact H0|]. split; [exact H1|]. split; [exact Hc|].
  exact (proj1 (manifest_hashed_uid_unique sample_self _ sample_world H0 H1 Hc)).
Defined.

Lemma merge_row_record row dfc :
  hashed_uid row ∉ map hashed_uid dfc →
  record_of row ∈ records (reset_index (merge_row row dfc)).
Proof.
  intros Hn. rewrite records_reset_index, (merge_row_append _ _ Hn).
  unfold records. rewrite map_app. apply elem_of_app. right. apply list_elem_of_here.
Qed.



(** ** [prepare_from_dataframe] and [prepare] *)

#[local] Arguments walk : simpl never.
#[local] Arguments Path : simpl never.
#[local] Opaque MAXSYMLINKS.

Lemma set_nodes_same w : set_nodes (nodes w) w = w.
Proof. by destruct w. Qed.

Lemma path_exists_world p w : snd (path_exists p w) = w.
Proof. unfold path_exists, syscall. simpl. apply set_nodes_same. Qed.

(** [prepare_from_dataframe] on a table [df]: the column of relative paths
    is computed and put into the table, then the rows are placed in
    order. *)
Lemma prepare_from_dataframe_run self dataset_name df_prepare w df :
  heap w !! df_prepare = Some (ODataFrame df) →
  PrepareDataset.prepare_from_dataframe self dataset_name df_prepare w =
    match relative_paths self df with
    | Err e => (Err e, w)
    | Ok col =>
        for_each (zip_with set_path col df) (place_row self dataset_name)
          (set_heap (<[df_prepare := ODataFrame (zip_with set_path col df)]> (heap w)) w)
    end.
Proof.
  intros Hdf. unfold PrepareDataset.prepare_from_dataframe. cbv zeta.
  erewrite bind_Ok; last first.
  { unfold path_exists, syscall, os.path_exists. simpl. rewrite set_nodes_same.
    reflexivity. }
  rewrite (bind_Ok _ _ _ df w) by (unfold get_DataFrame; by rewrite Hdf).
  fold (relative_paths self df).
  destruct (relative_paths self df) as [col|e]; [|done].
  rewrite (bind_Ok _ _ _ col w) by done.
  unfold DataFrame_set_path.
  rewrite (bind_Ok _ _ _ () (set_heap (<[df_prepare := ODataFrame (zip_with set_path col df)]>
                                         (heap w)) w)).
  2:{ rewrite (bind_Ok _ _ _ df w) by (unfold get_DataFrame; by rewrite Hdf). done. }
  erewrite bind_Ok; last first.
  { unfold get_DataFrame. simpl. rewrite lookup_insert_eq. reflexivity. }
  done.
Qed.

Lemma prepare_from_dataframe_not_DataFrame self dataset_name df_prepare w :
  (∀ df, heap w !! df_prepare ≠ Some (ODataFrame df)) →
  PrepareDataset.prepare_from_dataframe self dataset_name df_prepare w
  = (Err (TypeError "not a DataFrame"), w).
Proof.
  intros Hdf. unfold PrepareDataset.prepare_from_dataframe. cbv zeta.
  erewrite bind_Ok; last first.
  { unfold path_exists, syscall, os.path_exists. simpl. rewrite set_nodes_same.
    reflexivity. }
  unfold bind, get_DataFrame.
  destruct (heap w !! df_prepare) as [[]|] eqn:E; try done. by destruct (Hdf df).
Qed.

(** *** One row of the loop *)

Lemma place_row_eq self dataset_name r w :
  place_row self dataset_name r w
  = PrepareDataset.add_object_to_dataset self dataset_name (fresh (dom (heap w)))
      (set_heap (<[fresh (dom (heap w)) := OSeries r]> (heap w)) w).
Proof. done. Qed.

Lemma place_row_cwd self dataset_name r w :
  cwd (snd (place_row self dataset_name r w)) = cwd w.
Proof. rewrite place_row_eq. by rewrite add_object_to_dataset_cwd. Qed.

Lemma place_row_heap self dataset_name r w r0 :
  is_Some (heap w !! r0) →
  heap (snd (place_row self dataset_name r w)) !! r0 = heap w !! r0.
Proof.
  intros H0. rewrite place_row_eq.
  assert (fresh (dom (heap w)) ≠ r0) by by apply fresh_heap_ne.
  rewrite add_object_to_dataset_heap; simpl; rewrite lookup_insert_ne; done.
Qed.

Lemma place_row_numeric self dataset_name r w :
  pandas_numeric (snd (place_row self dataset_name r w)) = pandas_numeric w.
Proof. rewrite place_row_eq. by rewrite add_object_to_dataset_numeric. Qed.

Lemma plain_at_alloc self r w :
  stored_plain self r →
  plain_at self (set_heap (<[fresh (dom (heap w)) := OSeries r]> (heap w)) w)
           (fresh (dom (heap w))).
Proof. intros H. unfold plain_at. simpl. by rewrite lookup_insert_eq. Qed.

Lemma place_row_kind_le self dataset_name r w :
  kind_le (nodes w) (nodes (snd (place_row self dataset_name r w))).
Proof. rewrite place_row_eq. apply (add_object_to_dataset_kind_le _ _ _ (set_heap _ w)). Qed.

Lemma place_row_fs_le self dataset_name r w :
  stored_plain self r → manifests_plain (nodes w) →
  fs_le (nodes w) (nodes (snd (place_row self dataset_name r w))).
Proof.
  intros Hr Hp. rewrite place_row_eq.
  apply (add_object_to_dataset_fs_le _ _ _ (set_heap _ w)); [by apply plain_at_alloc|done].
Qed.

Lemma place_row_plain self dataset_name r w :
  stored_plain self r → manifests_plain (nodes w) →
  manifests_plain (nodes (snd (place_row self dataset_name r w))).
Proof.
  intros Hr Hp. rewrite place_row_eq.
  apply (add_object_to_dataset_plain _ _ _ (set_heap _ w)); [by apply plain_at_alloc|done].
Qed.

Lemma placed_stable self dataset_name cwd m m' row :
  fs_le m m' → placed self dataset_name cwd m row → placed self dataset_name cwd m' row.
Proof.
  intros Hle (l & df & Hs & Hl & Hin).
  destruct (Hle l _ Hl) as (n' & Hl' & c' & -> & df' & -> & Hpre).
  exists l, df'. split; [|split; [done|]].
  - unfold os.stat in *. eapply walk_stable; eauto using fs_le_kind.
  - destruct Hpre as [k Hk].
    assert (Hu : ∀ d : DataFrame, map hashed_uid d = map (λ t, t.1.1.2) (records d)).
    { intros d. unfold records. by rewrite map_map. }
    rewrite Hu, Hk, map_app, <- Hu. apply elem_of_app. by left.
Qed.

(** A row that has been placed is in the manifest of its patient. *)
Lemma place_row_placed self dataset_name r w :
  fst (place_row self dataset_name r w) = Ok () →
  is_absolute (Path (path r)) = false →
  placed self dataset_name (cwd w) (nodes (snd (place_row self dataset_name r w))) r.
Proof.
  rewrite place_row_eq. intros Hok Hrel.
  destruct (add_object_to_dataset_Ok _ _ _ _ Hok)
    as (row & row' & sl & src & Hr & Hn & Href & Hpl).
  simpl in Hr. rewrite lookup_insert_eq in Hr. simplify_eq.
  unfold normalised_row in Hn. rewrite Hrel in Hn. simplify_eq.
  simpl in Hpl.
  apply place_Ok in Hpl as (m1 & m2 & _ & _ & Hmg).
  destruct (merge_step_manifest _ _ _ _ _ _ Hmg) as (l & df & Hs & Hl & Hin & _).
  by exists l, df.
Qed.

(** *** The loop *)

Section loop.

Context (self : PrepareDataset.t) (dataset_name : string).

Lemma for_each_cwd rows w :
  cwd (snd (for_each rows (place_row self dataset_name) w)) = cwd w.
Proof.
  revert w. induction rows as [|r rows IH]; intros w; [done|].
  simpl. unfold bind.
  pose proof (place_row_cwd self dataset_name r w) as H.
  destruct (place_row self dataset_name r w) as [[[]|e] w1]; simpl in *; [|done].
  by rewrite IH.
Qed.

Lemma for_each_heap rows w r0 :
  is_Some (heap w !! r0) →
  heap (snd (for_each rows (place_row self dataset_name) w)) !! r0 = heap w !! r0.
Proof.
  revert w. induction rows as [|r rows IH]; intros w H0; [done|].
  simpl. unfold bind.
  pose proof (place_row_heap self dataset_name r w r0 H0) as H.
  destruct (place_row self dataset_name r w) as [[[]|e] w1]; simpl in *; [|done].
  rewrite IH; [done|]. by rewrite H.
Qed.

Lemma for_each_numeric rows w :
  pandas_numeric (snd (for_each rows (place_row self dataset_name) w)) = pandas_numeric w.
Proof.
  revert w. induction rows as [|r rows IH]; intros w; [done|].
  simpl. unfold bind.
  pose proof (place_row_numeric self dataset_name r w) as H.
  destruct (place_row self dataset_name r w) as [[[]|e] w1]; simpl in *; [|done].
  by rewrite IH.
Qed.

Lemma for_each_kind_le rows w :
  kind_le (nodes w) (nodes (snd (for_each rows (place_row self dataset_name) w))).
Proof.
  revert w. induction rows as [|r rows IH]; intros w; [apply kind_le_refl|].
  simpl. unfold bind.
  pose proof (place_row_kind_le self dataset_name r w) as H.
  destruct (place_row self dataset_name r w) as [[[]|e] w1]; simpl in *; [|done].
  eapply kind_le_trans; [done|apply IH].
Qed.

Lemma for_each_fs_le rows w :
  Forall (stored_plain self) rows → manifests_plain (nodes w) →
  fs_le (nodes w) (nodes (snd (for_each rows (place_row self dataset_name) w)))
  ∧ manifests_plain (nodes (snd (for_each rows (place_row self dataset_name) w))).
Proof.
  revert w. induction rows as [|r rows IH]; intros w Hrows Hp;
    [split; [apply fs_le_refl|done]|].
  apply Forall_cons in Hrows as [Hr Hrows].
  simpl. unfold bind.
  pose proof (place_row_fs_le self dataset_name r w Hr Hp) as H.
  pose proof (place_row_plain self dataset_name r w Hr Hp) as H'.
  destruct (place_row self dataset_name r w) as [[[]|e] w1]; simpl in *; [|done].
  destruct (IH w1 Hrows H') as [IH1 IH2].
  split; [|done]. by eapply fs_le_trans.
Qed.

Lemma for_each_placed rows w :
  Forall (stored_plain self) rows → manifests_plain (nodes w) →
  fst (for_each rows (place_row self dataset_name) w) = Ok () →
  Forall (λ r, is_absolute (Path (path r)) = false) rows →
  Forall (placed self dataset_name (cwd w)
            (nodes (snd (for_each rows (place_row self dataset_name) w)))) rows.
Proof.
  revert w. induction rows as [|r rows IH]; intros w Hplain Hm Hok Hrel; [done|].
  inversion_clear Hrel as [|? ? Hr Hrows].
  apply Forall_cons in Hplain as [Hpr Hplain].
  simpl in *. unfold bind in *.
  pose proof (place_row_placed self dataset_name r w) as Hp.
  pose proof (place_row_cwd self dataset_name r w) as Hc.
  pose proof (place_row_plain self dataset_name r w Hpr Hm) as Hm'.
  destruct (place_row self dataset_name r w) as [[[]|e] w1]; simpl in *; [|done].
  constructor.
  - eapply placed_stable; [by apply for_each_fs_le|]. by apply Hp.
  - rewrite <- Hc. by apply IH.
Qed.

(** An exception ends the loop: the rows after the failing one are not
    looked at. *)
Lemma for_each_abort rows1 r rows2 w e :
  fst (for_each rows1 (place_row self dataset_name) w) = Ok () →
  fst (place_row self dataset_name r
         (snd (for_each rows1 (place_row self dataset_name) w))) = Err e →
  for_each (rows1 ++ r :: rows2) (place_row self dataset_name) w
  = (Err e, snd (place_row self dataset_name r
                   (snd (for_each rows1 (place_row self dataset_name) w)))).
Proof.
  revert w. induction rows1 as [|r1 rows1 IH]; intros w; simpl; unfold bind.
  - intros _ He. destruct (place_row self dataset_name r w) as [[[]|e'] w1]; simpl in *;
      congruence.
  - destruct (place_row self dataset_name r1 w) as [[[]|e'] w1]; simpl; [|done].
    apply IH.
Qed.

End loop.

(** ** The claims about [prepare_from_dataframe] and [prepare] *)

#[local] Arguments walk : simpl never.
#[local] Arguments Path : simpl never.
#[local] Opaque MAXSYMLINKS.

Lemma apply_Ok f col ys :
  apply f col = Ok ys ↔ Forall2 (λ x y, f x = Ok y) col ys.
Proof.
  revert ys. induction col as [|x col IH]; intros ys; simpl.
  - split; [intros [= <-]; constructor|by inversion 1].
  - split.
    + destruct (f x) as [y|e] eqn:Hx; [|done].
      destruct (apply f col) as [ys'|e]; [|done].
      intros [= <-]. constructor; [exact Hx|]. by apply IH.
    + inversion 1 as [|? y ? ys' Hy Hys]; subst.
      apply IH in Hys. by rewrite Hy, Hys.
Qed.

Lemma apply_Err f col :
  Exists (λ x, is_ok (f x) = false) col → ∃ e, apply f col = Err e.
Proof.
  induction 1 as [x col Hx|x col _ IH]; simpl.
  - destruct (f x); [done|eauto].
  - destruct (f x); [|eauto]. destruct IH as [e ->]. eauto.
Qed.

(** The new column: for every row the path relative to the working
    directory. *)
Lemma relative_paths_Ok self df col :
  relative_paths self df = Ok col →
  Forall2 (λ row row', ∃ rel,
             relative_to (Path (path row)) (PrepareDataset.working_directory self) = Ok rel
             ∧ row' = set_path (str rel) row)
          df (zip_with set_path col df).
Proof.
  unfold relative_paths. rewrite apply_Ok. revert col.
  induction df as [|row df IH]; intros col; simpl.
  - inversion 1. constructor.
  - inversion 1 as [|? p ? col' Hp Hcol]; simplify_eq. simpl. constructor; [|by apply IH].
    destruct (relative_to _ _) as [rel|]; [|done]. simplify_eq. eauto.
Qed.

Lemma relative_paths_Err self df :
  Exists (λ row, is_ok (relative_to (Path (path row))
                          (PrepareDataset.working_directory self)) = false) df →
  ∃ e, relative_paths self df = Err e.
Proof.
  intros H. apply apply_Err. apply Exists_fmap. simpl.
  eapply Exists_impl; [exact H|]. simpl. intros row Hrow.
  by destruct (relative_to (Path (path row)) (PrepareDataset.working_directory self)).
Qed.

Lemma relative_row self row rel :
  relative_to (Path (path row)) (PrepareDataset.working_directory self) = Ok rel →
  is_absolute (Path (path (set_path (str rel) row))) = false.
Proof.
  intros Hrel. simpl. rewrite Path_str.
  - by eapply is_absolute_relative_to.
  - eapply relative_to_wf; [apply Path_wf|done].
Qed.

Lemma prepare_from_dataframe_cwd self dataset_name df_prepare w :
  cwd (snd (PrepareDataset.prepare_from_dataframe self dataset_name df_prepare w)) = cwd w.
Proof.
  destruct (heap w !! df_prepare) as [[|df|]|] eqn:Hdf.
  2:{ rewrite (prepare_from_dataframe_run _ _ _ _ _ Hdf).
      destruct (relative_paths self df); [|done]. by rewrite for_each_cwd. }
  all: rewrite prepare_from_dataframe_not_DataFrame; [done|congruence].
Qed.

Lemma prepare_from_dataframe_numeric self dataset_name df_prepare w :
  pandas_numeric (snd (PrepareDataset.prepare_from_dataframe self dataset_name df_prepare w))
  = pandas_numeric w.
Proof.
  destruct (heap w !! df_prepare) as [[|df|]|] eqn:Hdf.
  2:{ rewrite (prepare_from_dataframe_run _ _ _ _ _ Hdf).
      destruct (relative_paths self df); [|done]. by rewrite for_each_numeric. }
  all: rewrite prepare_from_dataframe_not_DataFrame; [done|congruence].
Qed.

(** The rows of the loop are stored as they are, and are plain when the
    table is. *)
Lemma table_plain_rows self df col :
  relative_paths self df = Ok col → table_plain self df →
  Forall (stored_plain self) (zip_with set_path col df).
Proof.
  intros Hcol%relative_paths_Ok Hp. apply Forall_lookup. intros i row' Hi.
  destruct (Forall2_lookup_r _ _ _ _ _ Hcol Hi) as (row & Hrow & rel & Hrel & ->).
  pose proof (proj1 (Forall_lookup _ _) Hp i row Hrow) as H. cbv beta in H.
  rewrite Hrel in H. unfold stored_plain, normalised_row.
  by rewrite (relative_row _ _ _ Hrel).
Qed.

(** A batch keeps every node, of its kind, whatever its outcome. *)
Lemma prepare_from_dataframe_kind_le self dataset_name df_prepare w :
  kind_le (nodes w)
          (nodes (snd (PrepareDataset.prepare_from_dataframe self dataset_name df_prepare w))).
Proof.
  destruct (heap w !! df_prepare) as [[|df|]|] eqn:Hdf.
  2:{ rewrite (prepare_from_dataframe_run _ _ _ _ _ Hdf).
      destruct (relative_paths self df); [|apply kind_le_refl].
      apply (for_each_kind_le self dataset_name _ (set_heap _ w)). }
  all: rewrite prepare_from_dataframe_not_DataFrame; [apply kind_le_refl|congruence].
Qed.

(** A batch of plain rows on plain manifests removes nothing, whatever
    its outcome. *)
Lemma prepare_from_dataframe_fs_le self dataset_name df_prepare w :
  holds_plain_table self w df_prepare → manifests_plain (nodes w) →
  fs_le (nodes w)
        (nodes (snd (PrepareDataset.prepare_from_dataframe self dataset_name df_prepare w)))
  ∧ manifests_plain
      (nodes (snd (PrepareDataset.prepare_from_dataframe self dataset_name df_prepare w))).
Proof.
  intros Ht Hp. destruct (heap w !! df_prepare) as [[|df|]|] eqn:Hdf.
  2:{ rewrite (prepare_from_dataframe_run _ _ _ _ _ Hdf).
      destruct (relative_paths self df) as [col|] eqn:Hcol; [|split; [apply fs_le_refl|done]].
      apply (for_each_fs_le self dataset_name _ (set_heap _ w)); [|done].
      eapply table_plain_rows; [done|]. by apply Ht. }
  all: rewrite prepare_from_dataframe_not_DataFrame;
    [split; [apply fs_le_refl|done]|congruence].
Qed.

(** After a successful batch every row of the table is placed. *)
Lemma prepare_from_dataframe_placed self dataset_name df_prepare w df :
  table_plain self df → manifests_plain (nodes w) →
  heap w !! df_prepare = Some (ODataFrame df) →
  fst (PrepareDataset.prepare_from_dataframe self dataset_name df_prepare w) = Ok () →
  ∀ row, row ∈ df →
    ∃ rel,
      relative_to (Path (path row)) (PrepareDataset.working_directory self) = Ok rel ∧
      placed self dataset_name (cwd w)
        (nodes (snd (PrepareDataset.prepare_from_dataframe self dataset_name df_prepare w)))
        (set_path (str rel) row).
Proof.
  intros Ht Hm Hdf. rewrite (prepare_from_dataframe_run _ _ _ _ _ Hdf).
  destruct (relative_paths self df) as [col|e] eqn:Hcol; [|done].
  intros Hok row Hrow.
  pose proof (table_plain_rows _ _ _ Hcol Ht) as Hrows.
  apply relative_paths_Ok in Hcol.
  apply (for_each_placed self dataset_name _ (set_heap _ w)) in Hok; [|done|done|].
  - destruct (proj1 (list_elem_of_lookup _ _) Hrow) as [i Hi].
    destruct (Forall2_lookup_l _ _ _ _ _ Hcol Hi) as (row' & Hi' & rel & Hrel & ->).
    exists rel. split; [done|].
    apply (proj1 (Forall_lookup _ _) Hok i _ Hi').
  - apply Forall_forall. intros row' Hrow'.
    destruct (proj1 (list_elem_of_lookup _ _) Hrow') as [i Hi].
    destruct (Forall2_lookup_r _ _ _ _ _ Hcol Hi) as (row0 & _ & rel & Hrel & ->).
    by eapply relative_row.
Qed.

(** *** [prepare] *)

Section runs.

Context (read_converted_data : PurePath → option (list string) → world → DataFrame)
        (functions : string → option (ref → M ref)).

(** [prepare], step by step: the callable is found, the table of the pool
    becomes a new object, the callable is run on it, and the table it
    returns goes to [prepare_from_dataframe]. *)
Lemma prepare_run self dataset_name pf patients w :
  PrepareDataset.prepare read_converted_data functions self dataset_name pf patients w =
    match preparation_function_of functions pf with
    | None => (Err (AttributeError match pf with inl name => name | inr _ => "" end), w)
    | Some f =>
        let res := f (fresh (dom (heap w)))
                     (pool_table_world read_converted_data self patients w) in
        match fst res with
        | Ok t => PrepareDataset.prepare_from_dataframe self dataset_name t (snd res)
        | Err e => (Err e, snd res)
        end
    end.
Proof.
  unfold PrepareDataset.prepare, preparation_function_of, pool_table_world.
  destruct pf as [name|f].
  - destruct (functions name) as [f|]; [|done]. cbv zeta. unfold bind, ret, alloc. simpl.
    by destruct (f _ _) as [[t|e] w1].
  - cbv zeta. unfold bind, ret, alloc. simpl. by destruct (f _ _) as [[t|e] w1].
Qed.

Section plain.

Context (self : PrepareDataset.t) (pf : string + (ref → M ref))
        (patients : option (list string)) (w : world).
Hypothesis pf_plain :
  ∀ f, preparation_function_of functions pf = Some f →
       plain_run read_converted_data self f patients w.

Lemma prepare_cwd dataset_name :
  cwd (snd (PrepareDataset.prepare read_converted_data functions self dataset_name pf
              patients w)) = cwd w.
Proof.
  rewrite prepare_run.
  destruct (preparation_function_of functions pf) as [f|] eqn:Hf; [|done]. cbv zeta.
  destruct (pf_plain f eq_refl) as (_ & Hc & _). cbv zeta in Hc.
  destruct (f _ _) as [[t|e] w1]; simpl in *; [|done].
  by rewrite prepare_from_dataframe_cwd.
Qed.

Lemma prepare_fs_le dataset_name :
  manifests_plain (nodes w) →
  fs_le (nodes w)
        (nodes (snd (PrepareDataset.prepare read_converted_data functions self dataset_name
                       pf patients w)))
  ∧ manifests_plain
      (nodes (snd (PrepareDataset.prepare read_converted_data functions self dataset_name
                     pf patients w))).
Proof.
  intros Hp. rewrite prepare_run.
  destruct (preparation_function_of functions pf) as [f|] eqn:Hf;
    [|split; [apply fs_le_refl|done]]. cbv zeta.
  destruct (pf_plain f eq_refl) as (Hn & _ & Ht). unfold selected in Ht. cbv zeta in Hn, Ht.
  destruct (f _ _) as [[t|e] w1]; simpl in *.
  - rewrite <- Hn. apply prepare_from_dataframe_fs_le; [|by rewrite Hn].
    intros df Hdf. by rewrite Hdf in Ht.
  - rewrite Hn. split; [apply fs_le_refl|done].
Qed.

Lemma prepare_placed dataset_name f :
  manifests_plain (nodes w) →
  preparation_function_of functions pf = Some f →
  fst (PrepareDataset.prepare read_converted_data functions self dataset_name pf patients w)
  = Ok () →
  ∀ row, row ∈ selected read_converted_data self f patients w →
    ∃ rel,
      relative_to (Path (path row)) (PrepareDataset.working_directory self) = Ok rel ∧
      placed self dataset_name (cwd w)
        (nodes (snd (PrepareDataset.prepare read_converted_data functions self dataset_name
                       pf patients w)))
        (set_path (str rel) row).
Proof.
  intros Hp Hf. rewrite prepare_run, Hf.
  destruct (pf_plain f Hf) as (Hn & Hc & Ht). unfold selected in *. cbv zeta in *.
  destruct (f _ _) as [[t|e] w1]; simpl in *; [|done].
  intros Hok row Hrow.
  destruct (heap w1 !! t) as [[|df|]|] eqn:Hdf; try by apply elem_of_nil in Hrow.
  rewrite <- Hc.
  eapply (prepare_from_dataframe_placed _ _ _ w1); [done|by rewrite Hn|done|done|done].
Qed.

End plain.


End runs.

(** A preparation function that selects rows leaves the file system
    alone. *)
Lemma selecting_state (f : DataFrame → DataFrame) r w :
  nodes (snd (selecting f r w)) = nodes w ∧ cwd (snd (selecting f r w)) = cwd w.
Proof.
  unfold selecting, bind, get_DataFrame, alloc.
  by destruct (heap w !! r) as [[|df|]|].
Qed.



(** *** One row that cannot be placed *)

(** C5 (as stated) does not hold.  The table holds a row whose object is
    outside the working root, and then the two rows of patient [P1]: the
    call raises the error of the first row, and the manifest of [P1] does
    not exist afterwards, although each of the two rows is placed when the
    table holds it alone. *)
Lemma prepare_from_dataframe_no_isolation :
  let res := PrepareDataset.prepare_from_dataframe sample_self "clean" 5 sample_world in
  heap sample_world !! 5 = Some (ODataFrame [row_outside; row_a; row_b])
  ∧ fst res = Err (ValueError_subpath "/elsewhere/converted/P9/CT/z" "/work")
  ∧ snd res = sample_world
  ∧ os.stat ["work"] (nodes (snd res)) (Path "/work/clean/P1/converted.csv") = Err (OSError ENOENT)
  ∧ nodes (snd res) !! ["work"; "clean"] = None
  ∧ fst (PrepareDataset.prepare_from_dataframe sample_self "clean" 3 sample_world) = Ok ()
  ∧ fst (PrepareDataset.prepare_from_dataframe sample_self "clean" 4 sample_world) = Ok ().
Proof.
  cbv zeta.
  assert (H5 : heap sample_world !! 5 = Some (ODataFrame [row_outside; row_a; row_b]))
    by (vm_compute; reflexivity).
  rewrite (prepare_from_dataframe_run _ _ _ _ _ H5).
  assert (Hcol : relative_paths sample_self [row_outside; row_a; row_b]
                 = Err (ValueError_subpath "/elsewhere/converted/P9/CT/z" "/work"))
    by (vm_compute; reflexivity).
  rewrite Hcol. simpl fst. simpl snd.
  split; [done|]. split; [done|]. split; [done|].
  split; [vm_compute; reflexivity|]. split; [vm_compute; reflexivity|].
  split; vm_compute; reflexivity.
Qed.

(** C5 (amended).  An error in one row aborts the batch.  When the path of
    some row is not relative to the working directory, the call raises
    before any row is placed, and leaves the file system and the table as
    they were.  When the placement of a row raises, the call raises that
    error and the rows after it are not processed: the state is the one
    the failing row has left. *)
Theorem prepare_from_dataframe_aborts self dataset_name df_prepare w df :
  heap w !! df_prepare = Some (ODataFrame df) →
  (Exists (λ row, is_ok (relative_to (Path (path row))
                           (PrepareDataset.working_directory self)) = false) df →
   ∃ e, PrepareDataset.prepare_from_dataframe self dataset_name df_prepare w = (Err e, w))
  ∧ (∀ col rows1 r rows2 e,
       relative_paths self df = Ok col →
       zip_with set_path col df = rows1 ++ r :: rows2 →
       let w1 :=
         snd (for_each rows1 (place_row self dataset_name)
                (set_heap (<[df_prepare := ODataFrame (zip_with set_path col df)]> (heap w))
                   w)) in
       fst (for_each rows1 (place_row self dataset_name)
              (set_heap (<[df_prepare := ODataFrame (zip_with set_path col df)]> (heap w))
                 w)) = Ok () →
       fst (place_row self dataset_name r w1) = Err e →
       PrepareDataset.prepare_from_dataframe self dataset_name df_prepare w
       = (Err e, snd (place_row self dataset_name r w1))).
Proof.
  intros Hdf. rewrite (prepare_from_dataframe_run _ _ _ _ _ Hdf). split.
  - intros Hbad. destruct (relative_paths_Err self df Hbad) as [e ->]. eauto.
  - intros col rows1 r rows2 e -> -> w1 Hok He.
    by apply for_each_abort.
Qed.

Lemma prepare_from_dataframe_aborts_witness :
  ∃ e, PrepareDataset.prepare_from_dataframe sample_self "clean" 5 sample_world
       = (Err e, sample_world).
Proof.
  apply (proj1 (prepare_from_dataframe_aborts sample_self "clean" 5 sample_world
                  [row_outside; row_a; row_b] ltac:(vm_compute; reflexivity))).
  apply Exists_cons_hd. vm_compute. reflexivity.
Defined.

(** *** The table of the caller *)

(** C10. [prepare_from_dataframe] changes the table it is given: when
    every path of the table is relative to the working directory, the
    table of the caller holds, after the call and whatever its outcome,
    the same rows with each path rewritten relative to the working
    directory.  [add_object_to_dataset] leaves the row it is given as it
    was. *)
Theorem prepare_from_dataframe_mutates_table self dataset_name df_prepare w df col :
  heap w !! df_prepare = Some (ODataFrame df) →
  relative_paths self df = Ok col →
  (∃ df',
     heap (snd (PrepareDataset.prepare_from_dataframe self dataset_name df_prepare w))
       !! df_prepare = Some (ODataFrame df')
     ∧ Forall2 (λ row row', ∃ rel,
                  relative_to (Path (path row)) (PrepareDataset.working_directory self)
                  = Ok rel
                  ∧ row' = set_path (str rel) row)
               df df')
  ∧ (∀ r row, heap w !! r = Some (OSeries row) →
       heap (snd (PrepareDataset.add_object_to_dataset self dataset_name r w)) !! r
       = Some (OSeries row)).
Proof.
  intros Hdf Hcol. split.
  - exists (zip_with set_path col df).
    rewrite (prepare_from_dataframe_run _ _ _ _ _ Hdf), Hcol.
    split; [|by apply relative_paths_Ok].
    rewrite for_each_heap; simpl.
    + apply lookup_insert_eq.
    + rewrite lookup_insert_eq. eauto.
  - intros r row Hr. rewrite add_object_to_dataset_heap; [done|]. rewrite Hr. eauto.
Qed.

Lemma prepare_from_dataframe_mutates_table_witness :
  ∃ df',
    heap (snd (PrepareDataset.prepare_from_dataframe sample_self "clean" 3 sample_world))
      !! 3 = Some (ODataFrame df')
    ∧ Forall2 (λ row row', ∃ rel,
                 relative_to (Path (path row)) (PrepareDataset.working_directory sample_self)
                 = Ok rel
                 ∧ row' = set_path (str rel) row)
              [row_a] df'.
Proof.
  apply (proj1 (prepare_from_dataframe_mutates_table sample_self "clean" 3 sample_world
                  [row_a] ["converted/P1/CT/a"]
                  ltac:(vm_compute; reflexivity) ltac:(vm_compute; reflexivity))).
Defined.

(** ** The target of a reference *)

#[local] Arguments walk : simpl never.
#[local] Arguments Path : simpl never.
#[local] Opaque MAXSYMLINKS.

Lemma elem_of_removelast {A} (x : A) l : x ∈ removelast l → x ∈ l.
Proof.
  induction l as [|y l IH]; [done|]. simpl. destruct l as [|z l]; [by intros ?%elem_of_nil|].
  intros [->|?]%elem_of_cons; [left|right; auto].
Qed.

(** *** Resolution, step by step *)

(** A path in two parts: the first part is resolved with its last link
    followed. *)
Lemma walk_with_app m rec nf cur a b :
  nf = false ∨ b ≠ [] →
  walk_with m rec nf cur (a ++ b)
  = match walk_with m rec false cur a with
    | Ok l => walk_with m rec nf l b
    | Err e => Err e
    end.
Proof.
  intros Hb. revert cur. induction a as [|x a IH]; intros cur; [done|].
  simpl. destruct (m !! cur) as [[]|]; try done.
  case_decide; [apply IH|].
  destruct (m !! (cur ++ [x])) as [[|t|c]|]; try apply IH.
  assert (nf && bool_decide (a ++ b = []) = false) as ->.
  { destruct Hb as [->|Hb]; [done|]. apply andb_false_iff. right.
    apply bool_decide_eq_false. by intros [_ ?]%app_eq_nil. }
  simpl. destruct (rec _ _); [apply IH|done].
Qed.

Lemma walk_app n m nf cur a b :
  nf = false ∨ b ≠ [] →
  walk n m nf cur (a ++ b)
  = match walk n m false cur a with
    | Ok l => walk n m nf l b
    | Err e => Err e
    end.
Proof. intros Hb. destruct n; by apply walk_with_app. Qed.

(** Through directories that are directories themselves. *)
Lemma walk_with_dirs m rec nf lw names rest :
  ".." ∉ names →
  (∀ i, i ≤ length names → m !! (lw ++ take i names) = Some Dir) →
  walk_with m rec nf lw (names ++ rest) = walk_with m rec nf (lw ++ names) rest.
Proof.
  revert lw. induction names as [|x names IH]; intros lw Hup Hd.
  - simpl. by rewrite app_nil_r.
  - apply not_elem_of_cons in Hup as [Hx Hup]. simpl.
    pose proof (Hd 0 ltac:(lia)) as H0. simpl in H0. rewrite app_nil_r in H0. rewrite H0.
    rewrite decide_False by done.
    pose proof (Hd 1 ltac:(simpl; lia)) as H1. simpl in H1. rewrite take_0 in H1.
    rewrite H1. rewrite IH; [by rewrite <- app_assoc|done|].
    intros i Hi. rewrite <- app_assoc. apply (Hd (S i)). simpl. lia.
Qed.

Lemma walk_dirs n m nf lw names rest :
  ".." ∉ names →
  (∀ i, i ≤ length names → m !! (lw ++ take i names) = Some Dir) →
  walk n m nf lw (names ++ rest) = walk n m nf (lw ++ names) rest.
Proof. intros. destruct n; by apply walk_with_dirs. Qed.

(** The last component, when the link there is not followed. *)
Lemma walk_last_nofollow n m cur x :
  m !! cur = Some Dir → x ≠ ".." → walk n m true cur [x] = Ok (cur ++ [x]).
Proof.
  intros Hc Hx. destruct n; unfold walk; simpl; rewrite Hc, decide_False by done;
    by destruct (m !! (cur ++ [x])) as [[]|].
Qed.

(** The last component, a link with a relative target: the target is
    resolved from the directory of the link, with one link less to go. *)
Lemma walk_last_link n m cur x t :
  m !! cur = Some Dir → x ≠ ".." → m !! (cur ++ [x]) = Some (Symlink t) →
  is_absolute (Path t) = false →
  walk (S n) m false cur [x] = walk n m false cur (tail (Path t)).
Proof.
  intros Hc Hx Hl Ht.
  change (walk (S n) m false cur [x]) with (walk_with m (walk n m false) false cur [x]).
  simpl. rewrite Hc, decide_False, Hl, Ht by done. simpl.
  by destruct (walk n m false cur _).
Qed.

(** What resolves through fewer links resolves through more. *)
Lemma walk_more n m nf cur rest l :
  walk n m nf cur rest = Ok l → is_Some (m !! l) → walk (S n) m nf cur rest = Ok l.
Proof.
  revert nf cur rest l. induction n as [|n IH]; intros nf cur rest l.
  - apply (walk_with_stable m m (λ _ _, Err (OSError ELOOP)) (walk 0 m false));
      [apply kind_le_refl|done].
  - apply (walk_with_stable m m (walk n m false) (walk (S n) m false));
      [apply kind_le_refl|]. intros c r0 l0. apply IH.
Qed.

Lemma last_elem_of {A} (l : list A) d : l ≠ [] → List.last l d ∈ l.
Proof.
  intros Hl. destruct (exists_last Hl) as (l' & x & ->).
  rewrite last_last. apply elem_of_app. right. apply list_elem_of_here.
Qed.

Lemma removelast_last_app {A} (l : list A) d : l ≠ [] → l = removelast l ++ [List.last l d].
Proof. intros Hl. by apply app_removelast_last. Qed.

(** C6, the claim as it stands fails, in two ways.  With the dataset name
    [.] and an object directly below the pool root, the reference is in
    the working directory and its target is the absolute path
    [/converted/x], which is not the object in the pool: the reference
    does not resolve, while the object is there.  With a dataset directory
    that is a link to a directory elsewhere, the target is relative, but
    from the directory in which the reference is made it does not lead to
    the pool: the reference does not resolve either.  Both calls
    return. *)
Lemma add_object_to_dataset_target_astray :
  let flat := PrepareDataset.add_object_to_dataset sample_self "." 0 sample_flat_world in
  let linked := PrepareDataset.add_object_to_dataset sample_self "clean" 0 sample_linked_world in
  (fst flat = Ok ()
   ∧ reference_of sample_self "." (set_path "converted/x" row_flat)
     = Ok (Path "/work/x", Path "/converted/x")
   ∧ nodes (snd flat) !! ["work"; "x"] = Some (Symlink "/converted/x")
   ∧ is_absolute (Path "/converted/x") = true
   ∧ fst (os.path_exists ["work"] (Path "/work/x") (nodes (snd flat))) = Ok false
   ∧ os.stat ["work"] (nodes (snd flat)) (Path "/work/converted/x")
     = Ok ["work"; "converted"; "x"]
   ∧ is_Some (nodes (snd flat) !! ["work"; "converted"; "x"]))
  ∧ (fst linked = Ok ()
     ∧ os.lstat ["work"] (nodes (snd linked)) (Path "/work/clean/P1/CT/a")
       = Ok ["data"; "clean"; "P1"; "CT"; "a"]
     ∧ nodes (snd linked) !! ["data"; "clean"; "P1"; "CT"; "a"]
       = Some (Symlink "../../../converted/P1/CT/a")
     ∧ fst (os.path_exists ["work"] (Path "/work/clean/P1/CT/a") (nodes (snd linked)))
       = Ok false
     ∧ os.stat ["work"] (nodes (snd linked)) (Path "/work/converted/P1/CT/a")
       = Ok ["work"; "converted"; "P1"; "CT"; "a"]
     ∧ is_Some (nodes (snd linked) !! ["work"; "converted"; "P1"; "CT"; "a"])).
Proof.
  cbv zeta. split.
  - split; [vm_compute; reflexivity|]. split; [vm_compute; reflexivity|].
    split; [vm_compute; reflexivity|]. split; [vm_compute; reflexivity|].
    split; [vm_compute; reflexivity|]. split; [vm_compute; reflexivity|].
    apply (bool_decide_unpack _). vm_compute. exact I.
  - split; [vm_compute; reflexivity|]. split; [vm_compute; reflexivity|].
    split; [vm_compute; reflexivity|]. split; [vm_compute; reflexivity|].
    split; [vm_compute; reflexivity|].
    apply (bool_decide_unpack _). vm_compute. exact I.
Qed.

(** C6, amended.  A record is placed, in a dataset whose name is a
    relative path of at least one component, without [".."], and its
    object is below the pool root, on a path without [".."].  Then the
    reference is at the dataset directory followed by the path below the
    pool root; its target is relative: one [".."] for every directory from
    the parent of the reference down to the working directory, at least
    one, and then the path of the object from the working directory.  By
    going through the names, the target leads from the parent of the
    reference to the object in the pool.  In the file system that the
    call leaves, when the directories from the working directory down to
    the parent of the reference are directories themselves, not links,
    the reference is in the last of them under the last name of the
    path; and when it is the link with this target, it resolves as the
    object does from the working directory, with one link less to go: to
    the object in the pool when that is there.  After the call there is a
    node at the place of the reference, and if nothing was there once the
    directories were made, it is a symbolic link with this target. *)
Theorem add_object_to_dataset_reference_target self dataset_name r w row row' stripped :
  heap w !! r = Some (OSeries row) →
  normalised_row self row = Ok row' →
  relative_to (Path (path row')) (Path CONVERTED_DIR_NAME) = Ok stripped →
  is_absolute (Path dataset_name) = false →
  tail (Path dataset_name) ≠ [] →
  tail stripped ≠ [] →
  ".." ∉ tail (Path dataset_name) ++ tail stripped →
  fst (PrepareDataset.add_object_to_dataset self dataset_name r w) = Ok () →
  let w' := snd (PrepareDataset.add_object_to_dataset self dataset_name r w) in
  let wd := PrepareDataset.working_directory self in
  let symlink_path := joinpath (joinpath wd (Path dataset_name)) stripped in
  let rel_parent := tail (Path dataset_name) ++ removelast (tail stripped) in
  let name := List.last (tail stripped) "" in
  let src_path :=
    {| root := ""; tail := repeat ".." (length rel_parent) ++ tail (Path (path row')) |} in
  reference_of self dataset_name row' = Ok (symlink_path, src_path)
  ∧ parent symlink_path = joinpath wd {| root := ""; tail := rel_parent |}
  ∧ 1 ≤ length rel_parent
  ∧ is_absolute src_path = false
  ∧ Path (str src_path) = src_path
  ∧ normpath (tail (parent symlink_path) ++ tail src_path)
    = normpath (tail wd ++ tail (Path (path row')))
  ∧ (∀ lw,
       os.stat (cwd w) (nodes w') wd = Ok lw →
       (∀ i, i ≤ length rel_parent → nodes w' !! (lw ++ take i rel_parent) = Some Dir) →
       os.lstat (cwd w) (nodes w') symlink_path = Ok (lw ++ rel_parent ++ [name])
       ∧ (nodes w' !! (lw ++ rel_parent ++ [name]) = Some (Symlink (str src_path)) →
          os.stat (cwd w) (nodes w') symlink_path
          = walk (Nat.pred MAXSYMLINKS) (nodes w') false lw (tail (Path (path row')))
          ∧ ∀ l,
              walk (Nat.pred MAXSYMLINKS) (nodes w') false lw (tail (Path (path row')))
              = Ok l →
              is_Some (nodes w' !! l) →
              os.stat (cwd w) (nodes w') symlink_path = Ok l
              ∧ os.stat (cwd w) (nodes w') (joinpath wd (Path (path row'))) = Ok l))
  ∧ ∃ l,
      os.lstat (cwd w) (nodes w') symlink_path = Ok l
      ∧ is_Some (nodes w' !! l)
      ∧ (fst (os.path_exists (cwd w) symlink_path
                (snd (os.makedirs_exist_ok (cwd w) (parent symlink_path) (nodes w))))
         = Ok false →
         nodes w' !! l = Some (Symlink (str src_path))).
Proof.
  intros Hr Hn Hstrip Hrel Hds Hst Hdots Hok. cbv zeta.
  set (wd := PrepareDataset.working_directory self).
  set (sl := joinpath (joinpath wd (Path dataset_name)) stripped).
  set (rel_parent := tail (Path dataset_name) ++ removelast (tail stripped)).
  set (name := List.last (tail stripped) "").
  set (src := {| root := ""; tail := repeat ".." (length rel_parent)
                                       ++ tail (Path (path row')) |}).
  pose proof (proj1 (relative_to_Ok _ _ _) Hstrip) as (Hroot & Htail & Hsroot).
  assert (Hparent : relative_to (parent sl) wd = Ok {| root := ""; tail := rel_parent |}).
  { by apply parent_reference_relative. }
  assert (Hne : rel_parent ≠ []).
  { unfold rel_parent. by destruct (tail (Path dataset_name)). }
  assert (Hwf : wf_path src).
  { split; [by left|]. simpl. apply Forall_app. split; [apply dots_ok|].
    apply (Path_wf (path row')). }
  assert (Hup : ".." ∉ rel_parent).
  { intros [H|H%elem_of_removelast]%elem_of_app; apply Hdots, elem_of_app; auto. }
  assert (Hname : name ≠ "..").
  { intros Heq. apply Hdots, elem_of_app. right. rewrite <- Heq. by apply last_elem_of. }
  assert (Href : reference_of self dataset_name row' = Ok (sl, src)).
  { unfold reference_of. cbv zeta. rewrite Hstrip. fold wd. fold sl. rewrite Hparent.
    change (parts {| root := ""; tail := rel_parent |}) with rel_parent.
    rewrite src_path_shape; [done|done|apply Path_wf|done|].
    rewrite Htail. intros [? ?]%app_eq_nil. done. }
  assert (Hsl : root sl = root wd ∧ tail sl = tail wd ++ rel_parent ++ [name]).
  { unfold sl, joinpath, is_absolute in *. rewrite Hsroot.
    rewrite (bool_decide_eq_false_2 ("" ≠ "")) by (by intros ?).
    apply bool_decide_eq_false in Hrel. rewrite bool_decide_eq_false_2 by done. simpl.
    split; [done|]. unfold rel_parent, name.
    rewrite <- !app_assoc. do 2 f_equal. by apply removelast_last_app. }
  assert (Hobj : root (Path (path row')) = "").
  { rewrite Hroot. done. }
  split; [done|].
  split. { symmetry. by apply relative_to_joinpath. }
  split. { destruct rel_parent; [done|simpl; lia]. }
  split; [done|].
  split. { by apply Path_str. }
  split.
  { apply relative_to_joinpath in Hparent. rewrite <- Hparent.
    change (tail (joinpath wd {| root := ""; tail := rel_parent |}))
      with (tail wd ++ rel_parent).
    rewrite <- app_assoc. by apply normpath_up. }
  set (w' := snd (PrepareDataset.add_object_to_dataset self dataset_name r w)) in *.
  split.
  { intros lw Hlw Hd. destruct Hsl as [Hsr Hstl].
    assert (Hstart : os.start_of (cwd w) sl = os.start_of (cwd w) wd).
    { unfold os.start_of, is_absolute. by rewrite Hsr. }
    assert (Hcur : nodes w' !! (lw ++ rel_parent) = Some Dir).
    { specialize (Hd (length rel_parent) ltac:(lia)). by rewrite firstn_all in Hd. }
    unfold os.stat, os.lstat in *. rewrite Hstart, Hstl.
    rewrite !walk_app, Hlw by (right; by destruct rel_parent).
    rewrite !walk_dirs by done.
    split.
    { rewrite walk_last_nofollow by done. by rewrite <- app_assoc. }
    intros Hlink. rewrite app_assoc in Hlink.
    assert (Hmax : MAXSYMLINKS = S (Nat.pred MAXSYMLINKS)) by done.
    assert (Hres : walk MAXSYMLINKS (nodes w') false (lw ++ rel_parent) [name]
                   = walk (Nat.pred MAXSYMLINKS) (nodes w') false lw
                       (tail (Path (path row')))).
    { rewrite Hmax at 1.
      rewrite (walk_last_link _ _ _ _ _ Hcur Hname Hlink) by (by rewrite Path_str).
      rewrite Path_str by done. apply walk_up. intros i Hi. apply Hd. lia. }
    split; [exact Hres|].
    intros l Hl Hsome. split; [by rewrite Hres|].
    assert (Hj : joinpath wd (Path (path row'))
                 = {| root := root wd; tail := tail wd ++ tail (Path (path row')) |}).
    { unfold joinpath, is_absolute. rewrite Hobj.
      by rewrite bool_decide_eq_false_2 by (by intros ?). }
    rewrite Hj.
    change (os.start_of (cwd w) {| root := root wd;
                                   tail := tail wd ++ tail (Path (path row')) |})
      with (os.start_of (cwd w) wd).
    change (tail {| root := root wd; tail := tail wd ++ tail (Path (path row')) |})
      with (tail wd ++ tail (Path (path row'))).
    rewrite walk_app, Hlw by (by left).
    rewrite Hmax. by apply walk_more. }
  destruct (add_object_to_dataset_Ok _ _ _ _ Hok)
    as (row0 & row0' & sl0 & src0 & Hr0 & Hn0 & Href0 & Hpl).
  rewrite Hr in Hr0. injection Hr0 as <-. rewrite Hn in Hn0. injection Hn0 as <-.
  rewrite Href in Href0. injection Href0 as <- <-.
  apply place_Ok in Hpl as (m1 & m2 & Hmk & Hlk & Hmg).
  destruct (link_step_present _ _ _ _ _ Hlk) as (l & Hls & Hl).
  assert (H23 : kind_le m2 (nodes w')).
  { rewrite <- (f_equal snd Hmg : _ = nodes w'). apply merge_step_kind_le. }
  exists l.
  split. { unfold os.lstat in *. by eapply walk_stable. }
  split. { by eapply kind_le_is_Some. }
  rewrite Hmk. simpl snd. intros Hnew.
  destruct (link_step_created _ _ _ _ _ Hlk Hnew) as (l' & _ & _ & Hls' & ->).
  rewrite Hls in Hls'. injection Hls' as <-.
  eapply kind_le_Symlink; [exact H23|]. apply lookup_insert_eq.
Qed.

(** On the examples: the reference of the image [a] in the dataset
    [clean], its target, and where the reference resolves. *)
Lemma add_object_to_dataset_reference_target_witness :
  let w' := snd (PrepareDataset.add_object_to_dataset sample_self "clean" 0 sample_world) in
  reference_of sample_self "clean" (set_path "converted/P1/CT/a" row_a)
  = Ok (Path "/work/clean/P1/CT/a", Path "../../../converted/P1/CT/a")
  ∧ normpath (tail (Path "/work/clean/P1/CT") ++ tail (Path "../../../converted/P1/CT/a"))
    = ["work"; "converted"; "P1"; "CT"; "a"]
  ∧ os.lstat ["work"] (nodes w') (Path "/work/clean/P1/CT/a")
    = Ok ["work"; "clean"; "P1"; "CT"; "a"]
  ∧ os.stat ["work"] (nodes w') (Path "/work/clean/P1/CT/a")
    = Ok ["work"; "converted"; "P1"; "CT"; "a"]
  ∧ os.stat ["work"] (nodes w') (Path "/work/converted/P1/CT/a")
    = Ok ["work"; "converted"; "P1"; "CT"; "a"].
Proof.
  intros w'.
  pose proof (add_object_to_dataset_reference_target sample_self "clean" 0 sample_world
                row_a (set_path "converted/P1/CT/a" row_a)
                {| root := ""; tail := ["P1"; "CT"; "a"] |}
                ltac:(vm_compute; reflexivity) ltac:(vm_compute; reflexivity)
                ltac:(vm_compute; reflexivity) ltac:(vm_compute; reflexivity)
                ltac:(vm_compute; discriminate) ltac:(vm_compute; discriminate)
                ltac:(apply (bool_decide_unpack _); vm_compute; exact I)
                ltac:(vm_compute; reflexivity)) as (Href & _ & _ & _ & _ & Hnorm & Hres & _).
  split; [exact Href|]. split; [exact Hnorm|].
  cbv zeta in Hres. fold w' in Hres.
  destruct (Hres ["work"] ltac:(vm_compute; reflexivity)) as [Hls Hst].
  { intros i Hi. simpl in Hi.
    destruct i as [|[|[|[|i]]]]; [vm_compute; reflexivity..|lia]. }
  split; [exact Hls|].
  destruct (Hst ltac:(vm_compute; reflexivity)) as [_ Hboth].
  destruct (Hboth ["work"; "converted"; "P1"; "CT"; "a"]
              ltac:(vm_compute; reflexivity)
              ltac:(apply (bool_decide_unpack _); vm_compute; exact I)) as [H1 H2].
  split; [exact H1|exact H2].
Defined.

(** ** The accessor of a structure set *)

#[local] Arguments walk : simpl never.
#[local] Arguments Path : simpl never.
#[local] Opaque MAXSYMLINKS.

(** Reading an image changes nothing but the record of the reads. *)
Lemma ReadImage_state p w : snd (ReadImage p w) = log_image_read p w.
Proof.
  unfold ReadImage, syscall. cbv zeta.
  rewrite read_file_state, set_nodes_same.
  destruct (fst (os.read_file _ _ _)) as [c|e]; [by destruct c|done].
Qed.

Lemma glob_suffix_state p suffix w : snd (glob_suffix p suffix w) = w.
Proof. unfold glob_suffix, syscall, os.listdir_suffix. simpl. apply set_nodes_same. Qed.

Lemma glob_suffix_Ok p suffix w : ∃ files, fst (glob_suffix p suffix w) = Ok files.
Proof. unfold glob_suffix, syscall, os.listdir_suffix. simpl. eauto. Qed.

(** [StructureSet(...)], step by step. *)
Lemma StructureSet_init_run structure_set_row structure_mapping w row :
  heap w !! structure_set_row = Some (OSeries row) →
  modality row = "RTSTRUCT" →
  ∃ names,
    StructureSet.__init__ structure_set_row structure_mapping w
    = (Ok (fresh (dom (heap w))),
       set_heap (<[fresh (dom (heap w)) :=
                     OStructureSet {| structure_set_path := Path (path row);
                                      structure_names := names;
                                      structure_mapping := structure_mapping;
                                      cache := ∅ |}]> (heap w)) w)
    ∧ ∀ m, structure_mapping = Some m → names = map fst m.
Proof.
  intros Hrow Hmod. unfold StructureSet.__init__, bind, get_Series. rewrite Hrow.
  rewrite bool_decide_eq_true_2 by done. simpl negb. cbv iota.
  pose proof (glob_suffix_state (Path (path row)) ".nii.gz" w) as Hs.
  destruct (glob_suffix_Ok (Path (path row)) ".nii.gz" w) as [files Hf].
  destruct (glob_suffix (Path (path row)) ".nii.gz" w) as [r w1]. simpl in *. subst.
  eexists. split; [reflexivity|]. by intros m ->.
Qed.

Lemma StructureSet_init_reads structure_set_row structure_mapping w :
  image_reads (snd (StructureSet.__init__ structure_set_row structure_mapping w))
  = image_reads w.
Proof.
  destruct (heap w !! structure_set_row) as [[row| |]|] eqn:Hrow;
    try (unfold StructureSet.__init__, bind, get_Series; by rewrite Hrow).
  destruct (decide (modality row = "RTSTRUCT")) as [Hmod|Hmod].
  - destruct (StructureSet_init_run _ structure_mapping _ _ Hrow Hmod) as (names & -> & _). done.
  - unfold StructureSet.__init__, bind, get_Series. rewrite Hrow.
    by rewrite bool_decide_eq_false_2.
Qed.

Lemma StructureSet_init_Ok structure_set_row structure_mapping w self :
  fst (StructureSet.__init__ structure_set_row structure_mapping w) = Ok self →
  ∃ row, heap w !! structure_set_row = Some (OSeries row) ∧ modality row = "RTSTRUCT".
Proof.
  unfold StructureSet.__init__, bind, get_Series.
  destruct (heap w !! structure_set_row) as [[row| |]|] eqn:Hrow; try done.
  destruct (decide (modality row = "RTSTRUCT")) as [Hmod|Hmod]; [eauto|].
  by rewrite bool_decide_eq_false_2.
Qed.

Section accessor.

Context (map_structure_name : string → mapping → string).

(** [self[item]], step by step. *)
Lemma getitem_run self item w s :
  heap w !! self = Some (OStructureSet s) →
  let name := resolved_name map_structure_name (structure_mapping s) item in
  let file := structure_file (structure_set_path s) name in
  StructureSet.__getitem__ map_structure_name self item w =
    if bool_decide (name ∈ structure_names s) then
      match cache s !! name with
      | Some img => (Ok img, w)
      | None =>
          match fst (ReadImage file w) with
          | Ok img =>
              (Ok img,
               set_heap (<[self := OStructureSet (StructureSet.set_cache
                                                   (<[name := img]> (cache s)) s)]> (heap w))
                 (log_image_read file w))
          | Err e => (Err e, log_image_read file w)
          end
      end
    else (Err (KeyError (not_found_message name)), w).
Proof.
  intros Hs. cbv zeta. unfold StructureSet.__getitem__, bind at 1, get_StructureSet at 1.
  rewrite Hs. fold (resolved_name map_structure_name (structure_mapping s) item).
  set (name := resolved_name map_structure_name (structure_mapping s) item).
  destruct (bool_decide (name ∈ structure_names s)); [|reflexivity].
  change (negb true) with false. cbv beta iota.
  destruct (cache s !! name) as [img|]; [done|]. cbv beta iota.
  fold (structure_file (structure_set_path s) name).
  set (file := structure_file (structure_set_path s) name).
  pose proof (ReadImage_state file w) as Hst.
  destruct (ReadImage file w) as [[img|e] w1] eqn:Hrd; simpl in Hst; subst w1; simpl fst.
  - rewrite (bind_Ok _ _ _ _ _ Hrd).
    erewrite bind_Ok; last first.
    { unfold get_StructureSet. simpl. rewrite Hs. reflexivity. }
    reflexivity.
  - by rewrite (bind_Err _ _ _ _ _ Hrd).
Qed.

End accessor.

Lemma strings_of_json_map l : strings_of_json (map JStr l) = Some l.
Proof. induction l as [|x l IH]; simpl; [done|]. by rewrite IH. Qed.

(** A mapping is read back from its document. *)
Lemma mapping_of_json_to_json m :
  mapping_of_json (JObj [("structures", mapping_to_json m)]) = Some m.
Proof.
  unfold mapping_of_json, mapping_to_json.
  change (mapping_of_fields (map (λ kv : string * list string, (kv.1, JArr (map JStr kv.2))) m)
          = Some m).
  induction m as [|[k vs] m IH]; simpl; [done|].
  by rewrite strings_of_json_map, IH.
Qed.

Lemma create_mapping_json_run self mapping_dict level w s :
  heap w !! self = Some (OStructureSet s) →
  level ∈ known_levels →
  StructureSet.create_mapping_json self mapping_dict level w
  = json_dump (JObj [("structures", mapping_to_json mapping_dict)])
      (mapping_file (structure_set_path s) level) w.
Proof.
  intros Hs Hl. unfold StructureSet.create_mapping_json.
  erewrite bind_Ok; last first.
  { unfold get_StructureSet. rewrite Hs. reflexivity. }
  unfold mapping_file.
  destruct (decide (level = "project")); [done|].
  destruct (decide (level = "patient")); [done|].
  destruct (decide (level = "current_structure_set")); [done|].
  unfold known_levels in Hl.
  repeat (apply elem_of_cons in Hl as [->|Hl]; [done|]). by apply elem_of_nil in Hl.
Qed.

Section claims.

Context (map_structure_name : string → mapping → string).

(** C7. Making the accessor reads no volume.  On a new accessor, a lookup
    that returns reads one volume, the file of the resolved name, and
    leaves the volume in the cache under the resolved name; after it, the
    same lookup, and the lookup of any name that resolves to the same
    name, returns that volume and leaves everything as it is, the record
    of the reads included: two lookups of a name read one volume. *)
Theorem StructureSet_lazy_cache structure_set_row given_mapping w :
  let init := StructureSet.__init__ structure_set_row given_mapping w in
  image_reads (snd init) = image_reads w
  ∧ ∀ row self item img,
      heap w !! structure_set_row = Some (OSeries row) →
      fst init = Ok self →
      let name := resolved_name map_structure_name given_mapping item in
      let get1 := StructureSet.__getitem__ map_structure_name self item (snd init) in
      fst get1 = Ok img →
      image_reads (snd get1)
      = image_reads w ++ [structure_file (Path (path row)) name]
      ∧ (∃ s1, heap (snd get1) !! self = Some (OStructureSet s1)
               ∧ cache s1 = {[ name := img ]})
      ∧ ∀ item',
          resolved_name map_structure_name given_mapping item' = name →
          StructureSet.__getitem__ map_structure_name self item' (snd get1)
          = (Ok img, snd get1).
Proof.
  cbv zeta. split; [apply StructureSet_init_reads|].
  intros row self item img Hrow Hinit.
  destruct (StructureSet_init_Ok _ _ _ _ Hinit) as (row0 & Hrow0 & Hmod).
  rewrite Hrow in Hrow0. injection Hrow0 as <-.
  destruct (StructureSet_init_run _ given_mapping _ _ Hrow Hmod) as (names & Hrun & _).
  rewrite Hrun in Hinit |- *. simpl in Hinit. injection Hinit as <-. simpl snd.
  set (self := fresh (dom (heap w))).
  set (s0 := {| structure_set_path := Path (path row); structure_names := names;
                structure_mapping := given_mapping; cache := ∅ |}).
  set (w0 := set_heap (<[self := OStructureSet s0]> (heap w)) w).
  assert (Hs0 : heap w0 !! self = Some (OStructureSet s0)) by apply lookup_insert_eq.
  rewrite (getitem_run map_structure_name self item w0 s0 Hs0). cbv zeta.
  change (structure_mapping s0) with given_mapping.
  change (structure_set_path s0) with (Path (path row)).
  change (structure_names s0) with names. change (cache s0) with (∅ : gmap string sitk_Image).
  set (name := resolved_name map_structure_name given_mapping item).
  set (file := structure_file (Path (path row)) name).
  destruct (bool_decide (name ∈ names)) eqn:Hin; [|done].
  rewrite lookup_empty.
  destruct (fst (ReadImage file w0)) as [img0|e]; [|done].
  simpl. intros [= ->].
  split; [done|]. split.
  { eexists. rewrite lookup_insert_eq. split; [reflexivity|]. simpl. apply insert_empty. }
  intros item' Hres.
  erewrite getitem_run; last first.
  { simpl. apply lookup_insert_eq. }
  cbv zeta. simpl structure_mapping. simpl structure_names. simpl cache.
  rewrite Hres. fold name. rewrite Hin. by rewrite lookup_insert_eq.
Qed.

(** Whatever the resolver, the error of a failed lookup names the
    resolved name, and the state is as it was. *)
Lemma getitem_not_found_resolved self item w s :
  heap w !! self = Some (OStructureSet s) →
  resolved_name map_structure_name (structure_mapping s) item ∉ structure_names s →
  StructureSet.__getitem__ map_structure_name self item w
  = (Err (KeyError (not_found_message
                      (resolved_name map_structure_name (structure_mapping s) item))), w).
Proof.
  intros Hs Hn. rewrite (getitem_run map_structure_name self item w s Hs). cbv zeta.
  by rewrite bool_decide_eq_false_2.
Qed.

(** C8, amended.  When the resolved name is not among the names of the
    accessor, the lookup fails with the not-found error that names the
    resolved name: the requested name when the accessor has no mapping,
    or when the resolver gives the name back as it was given.  No volume
    is read and none is cached: the state is as it was. *)
Theorem StructureSet_getitem_not_found self item w s :
  heap w !! self = Some (OStructureSet s) →
  resolved_name map_structure_name (structure_mapping s) item ∉ structure_names s →
  StructureSet.__getitem__ map_structure_name self item w
  = (Err (KeyError (not_found_message
                      (resolved_name map_structure_name (structure_mapping s) item))), w)
  ∧ (structure_mapping s = None →
     resolved_name map_structure_name (structure_mapping s) item = item)
  ∧ (∀ m, structure_mapping s = Some m → map_structure_name item m = item →
          StructureSet.__getitem__ map_structure_name self item w
          = (Err (KeyError (not_found_message item)), w)).
Proof.
  intros Hs Hn. rewrite (getitem_not_found_resolved _ _ _ _ Hs Hn).
  split; [done|]. split.
  - by intros ->.
  - intros m Hm Hitem. unfold resolved_name. by rewrite Hm, Hitem.
Qed.

End claims.

(** On the pool of the examples: two lookups of [heart], one read. *)
Lemma StructureSet_lazy_cache_witness :
  let init := StructureSet.__init__ 1 None sample_world in
  let get1 := StructureSet.__getitem__ match_exactly 6 "heart" (snd init) in
  let get2 := StructureSet.__getitem__ match_exactly 6 "heart" (snd get1) in
  image_reads (snd init) = []
  ∧ image_reads (snd get1) = ["/work/converted/P1/RTSTRUCT/b/heart.nii.gz"]
  ∧ get2 = (Ok [1%Z], snd get1).
Proof.
  cbv zeta.
  destruct (StructureSet_lazy_cache match_exactly 1 None sample_world) as [H0 H].
  destruct (H row_b 6 "heart" [1%Z] ltac:(vm_compute; reflexivity)
              ltac:(vm_compute; reflexivity) ltac:(vm_compute; reflexivity))
    as (H1 & _ & H2).
  split; [exact H0|]. split; [|exact (H2 "heart" eq_refl)].
  rewrite H1. vm_compute. reflexivity.
Defined.

(** C8, the claim as it stands fails.  The accessor of the structure set
    [b] has a mapping, and the resolver matches in lower case, giving the
    name in lower case when no variant matches.  The lookup of [Spine]
    fails, and the error names [spine], the resolved name, not the name
    that was asked for. *)
Lemma getitem_not_found_lower_case :
  heap sample_mapped_accessor_world !! 6
  = Some (OStructureSet {| structure_set_path := Path "/work/converted/P1/RTSTRUCT/b";
                           structure_names := ["heart"; "lung_l"];
                           structure_mapping := Some sample_mapping;
                           cache := ∅ |})
  ∧ match_ignoring_case "Spine" sample_mapping = "spine"
  ∧ fst (StructureSet.__getitem__ match_ignoring_case 6 "Spine" sample_mapped_accessor_world)
    = Err (KeyError "Structure name spine not found in structure set.")
  ∧ not_found_message "Spine" = "Structure name Spine not found in structure set."
  ∧ not_found_message "Spine" ≠ "Structure name spine not found in structure set.".
Proof.
  split; [vm_compute; reflexivity|]. split; [vm_compute; reflexivity|].
  split; [vm_compute; reflexivity|]. split; [vm_compute; reflexivity|].
  vm_compute. discriminate.
Qed.

(** The scenario of the spec, with a mapping and a resolver that matches
    exactly: the files [heart] and [lung_l], and a lookup of [Spine]. *)
Lemma StructureSet_getitem_not_found_witness :
  heap sample_mapped_accessor_world !! 6 = Some (OStructureSet sample_mapped_accessor)
  ∧ (resolved_name match_variant (structure_mapping sample_mapped_accessor) "Spine"
     ∉ structure_names sample_mapped_accessor)
  ∧ StructureSet.__getitem__ match_variant 6 "Spine" sample_mapped_accessor_world
    = (Err (KeyError "Structure name Spine not found in structure set."),
       sample_mapped_accessor_world).
Proof.
  assert (H1 : heap sample_mapped_accessor_world !! 6
               = Some (OStructureSet sample_mapped_accessor)) by (vm_compute; reflexivity).
  assert (H2 : resolved_name match_variant (structure_mapping sample_mapped_accessor) "Spine"
               ∉ structure_names sample_mapped_accessor).
  { apply (bool_decide_unpack _). vm_compute. exact I. }
  split; [exact H1|]. split; [exact H2|].
  exact (proj2 (proj2 (StructureSet_getitem_not_found match_variant 6 "Spine"
                         sample_mapped_accessor_world sample_mapped_accessor H1 H2))
           sample_mapping eq_refl eq_refl).
Defined.

(** C9. When [create_mapping_json] returns, for one of the three levels,
    the document read back from the file of the level is the mapping under
    the one field [structures], and the mapping is read back from it; the
    objects of the store, the accessor and its mapping among them, are as
    they were. *)
Theorem create_mapping_json_round_trip self mapping_dict level w s :
  heap w !! self = Some (OStructureSet s) →
  level ∈ known_levels →
  let res := StructureSet.create_mapping_json self mapping_dict level w in
  fst res = Ok () →
  ∃ doc,
    fst (json_load (mapping_file (structure_set_path s) level) (snd res)) = Ok doc
    ∧ doc = JObj [("structures", mapping_to_json mapping_dict)]
    ∧ mapping_of_json doc = Some mapping_dict
    ∧ heap (snd res) = heap w
    ∧ heap (snd res) !! self = Some (OStructureSet s).
Proof.
  intros Hs Hl. cbv zeta.
  rewrite (create_mapping_json_run _ _ _ _ _ Hs Hl).
  set (p := mapping_file (structure_set_path s) level).
  set (doc := JObj [("structures", mapping_to_json mapping_dict)]).
  unfold json_dump, syscall. simpl. intros Hok.
  destruct (os.write_file (cwd w) p (Json doc) (nodes w)) as [r m'] eqn:Hw.
  simpl in Hok. subst r.
  apply write_file_Ok in Hw as (l & Hst & Hold & ->).
  exists doc. split.
  - assert (Hrd : fst (os.read_file (cwd w) p (<[l := File (Json doc)]> (nodes w)))
                  = Ok (Json doc)).
    { apply read_file_Ok. exists l. split; [by apply stat_after_write|].
      apply lookup_insert_eq. }
    unfold json_load. erewrite bind_Ok; last first.
    { unfold syscall. simpl. rewrite Hrd. reflexivity. }
    reflexivity.
  - split; [done|]. split; [apply mapping_of_json_to_json|]. split; [done|]. done.
Qed.

Lemma create_mapping_json_round_trip_witness :
  let res := StructureSet.create_mapping_json 6 sample_mapping "patient"
               sample_accessor_world in
  ∃ doc,
    fst (json_load (mapping_file (Path "/work/converted/P1/RTSTRUCT/b") "patient") (snd res))
    = Ok doc
    ∧ doc = JObj [("structures", mapping_to_json sample_mapping)]
    ∧ mapping_of_json doc = Some sample_mapping
    ∧ heap (snd res) = heap sample_accessor_world
    ∧ heap (snd res) !! 6
      = Some (OStructureSet {| structure_set_path := Path "/work/converted/P1/RTSTRUCT/b";
                               structure_names := ["heart"; "lung_l"];
                               structure_mapping := None;
                               cache := ∅ |}).
Proof.
  apply (create_mapping_json_round_trip 6 sample_mapping "patient" sample_accessor_world
           {| structure_set_path := Path "/work/converted/P1/RTSTRUCT/b";
              structure_names := ["heart"; "lung_l"];
              structure_mapping := None;
              cache := ∅ |}
           ltac:(vm_compute; reflexivity)
           ltac:(apply (bool_decide_unpack _); vm_compute; exact I)
           ltac:(vm_compute; reflexivity)).
Defined.

(** ** More about [add_object_to_dataset] *)

#[local] Arguments walk : simpl never.
#[local] Arguments Path : simpl never.
#[local] Opaque MAXSYMLINKS.

Lemma relative_to_Err p other e :
  relative_to p other = Err e → e = ValueError_subpath (str p) (str other).
Proof. unfold relative_to. repeat case_match; congruence. Qed.

(** X1. A record whose path is not below the pool directory is refused
    with pathlib's error, before anything is made: the file system is as it
    was. *)
Theorem add_object_to_dataset_outside_pool self dataset_name r w row row' :
  heap w !! r = Some (OSeries row) →
  normalised_row self row = Ok row' →
  is_ok (relative_to (Path (path row')) (Path CONVERTED_DIR_NAME)) = false →
  fst (PrepareDataset.add_object_to_dataset self dataset_name r w)
  = Err (ValueError_subpath (str (Path (path row'))) (str (Path CONVERTED_DIR_NAME)))
  ∧ nodes (snd (PrepareDataset.add_object_to_dataset self dataset_name r w)) = nodes w.
Proof.
  intros Hr Hn Hbad.
  destruct (add_object_to_dataset_world self dataset_name r w row Hr) as (_ & _ & _ & H).
  rewrite Hn in H. unfold reference_of in H. cbv zeta in H.
  destruct (relative_to (Path (path row')) (Path CONVERTED_DIR_NAME)) as [?|e] eqn:E; [done|].
  apply relative_to_Err in E as ->. exact H.
Qed.

Lemma add_object_to_dataset_outside_pool_witness :
  fst (PrepareDataset.add_object_to_dataset sample_self "clean" 7 sample_stray_world)
  = Err (ValueError_subpath "scratch/P1/CT/s" "converted")
  ∧ nodes (snd (PrepareDataset.add_object_to_dataset sample_self "clean" 7
                  sample_stray_world)) = nodes sample_stray_world.
Proof.
  apply (add_object_to_dataset_outside_pool sample_self "clean" 7 sample_stray_world
           row_stray (set_path "scratch/P1/CT/s" row_stray)
           ltac:(vm_compute; reflexivity) ltac:(vm_compute; reflexivity)
           ltac:(vm_compute; reflexivity)).
Defined.

(** X2. The parent of the reference is a directory and a symbolic link is
    at the place of the reference, but what it points to does not exist.
    Then [exists()] is false, [symlink_to] finds the name taken, and the
    call fails with [FileExistsError]; the link and the rest of the file
    system are as they were, and no manifest is written. *)
Theorem add_object_to_dataset_dangling_link self dataset_name r w row row' sl src l t :
  heap w !! r = Some (OSeries row) →
  normalised_row self row = Ok row' →
  reference_of self dataset_name row' = Ok (sl, src) →
  os.is_dir (cwd w) (nodes w) (parent sl) = true →
  os.lstat (cwd w) (nodes w) sl = Ok l →
  nodes w !! l = Some (Symlink t) →
  fst (os.path_exists (cwd w) sl (nodes w)) = Ok false →
  fst (PrepareDataset.add_object_to_dataset self dataset_name r w) = Err (OSError EEXIST)
  ∧ nodes (snd (PrepareDataset.add_object_to_dataset self dataset_name r w)) = nodes w.
Proof.
  intros Hr Hn Href Hdir Hl Ht Hex.
  destruct (add_object_to_dataset_world self dataset_name r w row Hr) as (_ & _ & _ & H).
  rewrite Hn, Href in H. destruct H as [-> ->].
  unfold place. rewrite (bind_Ok _ _ _ _ _ (makedirs_noop _ _ _ Hdir)).
  assert (Hlink : link_step (cwd w) sl src (nodes w) = (Err (OSError EEXIST), nodes w)).
  { unfold link_step, bind, os.path_exists in *. simpl in *. injection Hex as ->.
    unfold os.symlink. by rewrite Hl, Ht. }
  by rewrite (bind_Err _ _ _ _ _ Hlink).
Qed.

Lemma add_object_to_dataset_dangling_link_witness :
  fst (PrepareDataset.add_object_to_dataset sample_self "clean" 0 sample_dangling_world)
  = Err (OSError EEXIST)
  ∧ nodes (snd (PrepareDataset.add_object_to_dataset sample_self "clean" 0
                  sample_dangling_world)) = nodes sample_dangling_world.
Proof.
  apply (add_object_to_dataset_dangling_link sample_self "clean" 0 sample_dangling_world
           row_a (set_path "converted/P1/CT/a" row_a)
           (Path "/work/clean/P1/CT/a") (Path "../../../converted/P1/CT/a")
           ["work"; "clean"; "P1"; "CT"; "a"] "../../../converted/P1/CT/gone"
           ltac:(vm_compute; reflexivity) ltac:(vm_compute; reflexivity)
           ltac:(vm_compute; reflexivity) ltac:(vm_compute; reflexivity)
           ltac:(vm_compute; reflexivity) ltac:(vm_compute; reflexivity)
           ltac:(vm_compute; reflexivity)).
Defined.

Lemma index_label_imap (f : nat → Z) (df : DataFrame) :
  map index_label (imap (λ i r, set_index_label (f i) r) df) = map f (seq 0 (length df)).
Proof.
  revert f. induction df as [|r df IH]; intros f; [done|]. simpl. f_equal.
  rewrite <- List.seq_shift, List.map_map. apply (IH (f ∘ S)).
Qed.

(** The index of a frame after [reset_index(drop=True)]. *)
Lemma index_label_reset_index df :
  map index_label (reset_index df) = map Z.of_nat (seq 0 (length df)).
Proof. apply index_label_imap. Qed.

Section place.

Context (numeric : list string → string → string) (cwd : loc).

(** The steps change no file but the manifest. *)
Lemma place_other_files sl src csv row m l c :
  m !! l = Some (File c) →
  snd (place numeric cwd sl src csv row m) !! l = Some (File c)
  ∨ os.stat cwd (snd (place numeric cwd sl src csv row m)) csv = Ok l.
Proof.
  intros Hl.
  destruct (place numeric cwd sl src csv row m) as [r m'] eqn:E. simpl.
  apply place_cases in E as (m1 & r1 & Hmk & H).
  pose proof (makedirs_lookup cwd (parent sl) m l _ Hl) as Hl1.
  rewrite Hmk in Hl1. simpl in Hl1.
  destruct H as [(e & _ & _ & ->)|(_ & m2 & r2 & Hlk & H)]; [by left|].
  pose proof (link_step_lookup cwd sl src m1 l _ Hl1) as Hl2.
  rewrite Hlk in Hl2. simpl in Hl2.
  destruct H as [(e & _ & _ & ->)|(_ & Hmg)]; [by left|].
  apply merge_step_cases in Hmg as [(e & _ & ->)|(_ & l' & df & Hs' & -> & H)]; [by left|].
  destruct (decide (l' = l)) as [->|Hne].
  - right. apply stat_after_write; [done|]. rewrite Hl2. eauto.
  - left. by rewrite lookup_insert_ne.
Qed.

(** A record that is new to the manifest goes after the rows read from
    it. *)
Lemma place_appends sl src csv row m m' l dfc :
  os.stat cwd m csv = Ok l → m !! l = Some (File (Csv dfc)) →
  hashed_uid row ∉ map hashed_uid (read_frame numeric dfc) →
  place numeric cwd sl src csv row m = (Ok (), m') →
  m' !! l = Some (File (Csv (reset_index (read_frame numeric dfc ++ [row])))).
Proof.
  intros Hs Hl Hnew E.
  destruct (place_finds numeric cwd sl src csv row m l dfc Hs Hl _ _ E) as [H|[_ H]].
  - apply place_Ok in E as (m1 & m2 & Hmk & Hlk & Hmg).
    apply merge_step_manifest in Hmg
      as (l' & df & Hs' & Hl' & _ & _ & -> & Hs2 & [[Hnone _]|(dfc' & Hc & ->)]).
    + pose proof (makedirs_lookup cwd (parent sl) m l _ Hl) as Hl1.
      rewrite Hmk in Hl1. simpl in Hl1.
      pose proof (link_step_lookup cwd sl src m1 l _ Hl1) as Hl2.
      rewrite Hlk in Hl2. simpl in Hl2.
      assert (Hle : kind_le m m2).
      { pose proof (makedirs_dirs_added cwd (parent sl) m) as H1. rewrite Hmk in H1.
        pose proof (link_step_fs_le cwd sl src m1) as H2. rewrite Hlk in H2.
        apply fs_le_kind. eapply fs_le_trans; [by apply dirs_added_fs_le|done]. }
      assert (Hs3 : os.stat cwd m2 csv = Ok l).
      { unfold os.stat in *. eapply walk_stable; eauto. }
      congruence.
    + assert (Hle : kind_le m m2).
      { pose proof (makedirs_dirs_added cwd (parent sl) m) as H1. rewrite Hmk in H1.
        pose proof (link_step_fs_le cwd sl src m1) as H2. rewrite Hlk in H2.
        apply fs_le_kind. eapply fs_le_trans; [by apply dirs_added_fs_le|done]. }
      assert (Hs3 : os.stat cwd m2 csv = Ok l).
      { unfold os.stat in *. eapply walk_stable; eauto. }
      assert (l' = l) as -> by congruence.
      pose proof (makedirs_lookup cwd (parent sl) m l _ Hl) as Hl1.
      rewrite Hmk in Hl1. simpl in Hl1.
      pose proof (link_step_lookup cwd sl src m1 l _ Hl1) as Hl2.
      rewrite Hlk in Hl2. simpl in Hl2.
      assert (dfc' = dfc) as -> by congruence.
      rewrite lookup_insert_eq. by rewrite merge_row_append.
  - by rewrite merge_row_append in H.
Qed.

End place.

Lemma length_read_frame numeric df : length (read_frame numeric df) = length df.
Proof.
  unfold read_frame. rewrite length_zip_with, length_zip, !length_read_untyped, !length_map.
  lia.
Qed.



(** X4. A record whose [hashed_uid] is not among those read from the
    manifest of its patient is put after the rows read from the manifest,
    which keep their order, and the index of the manifest is 0, 1, 2, ...
    again.  The rows that were in the file keep their entries when they
    are read back as they were written. *)
Theorem add_object_to_dataset_appends self dataset_name r w row row' l dfc :
  heap w !! r = Some (OSeries row) →
  normalised_row self row = Ok row' →
  os.stat (cwd w) (nodes w) (manifest_path self dataset_name row) = Ok l →
  nodes w !! l = Some (File (Csv dfc)) →
  hashed_uid row ∉ map hashed_uid (read_frame (pandas_numeric w) dfc) →
  fst (PrepareDataset.add_object_to_dataset self dataset_name r w) = Ok () →
  ∃ df,
    nodes (snd (PrepareDataset.add_object_to_dataset self dataset_name r w)) !! l
    = Some (File (Csv df))
    ∧ records df = records (read_frame (pandas_numeric w) dfc) ++ [record_of row']
    ∧ map index_label df = map Z.of_nat (seq 0 (S (length dfc)))
    ∧ (Forall plain_row dfc → records df = records dfc ++ [record_of row']).
Proof.
  intros Hr Hn Hs Hl Hnew Hok.
  destruct (add_object_to_dataset_Ok _ _ _ _ Hok)
    as (row0 & row0' & sl & src & Hr0 & Hn0 & Href & Hpl).
  rewrite Hr in Hr0. injection Hr0 as <-. rewrite Hn in Hn0. injection Hn0 as <-.
  rewrite (manifest_path_normalised _ dataset_name _ _ Hn) in Hpl.
  assert (Hnew' : hashed_uid row' ∉ map hashed_uid (read_frame (pandas_numeric w) dfc)).
  { by rewrite (proj1 (normalised_row_uid _ _ _ Hn)). }
  pose proof (place_appends _ _ _ _ _ _ _ _ _ dfc Hs Hl Hnew' Hpl) as Hm.
  assert (Hrec : records (reset_index (read_frame (pandas_numeric w) dfc ++ [row']))
                 = records (read_frame (pandas_numeric w) dfc) ++ [record_of row']).
  { rewrite records_reset_index. unfold records. by rewrite map_app. }
  eexists. split; [exact Hm|]. split; [exact Hrec|]. split.
  - rewrite index_label_reset_index, length_app, length_read_frame. simpl.
    by rewrite Nat.add_1_r.
  - intros Hplain. by rewrite Hrec, (read_frame_plain _ _ Hplain).
Qed.

Lemma add_object_to_dataset_appends_witness :
  ∃ df,
    nodes (snd (PrepareDataset.add_object_to_dataset sample_self "clean" 1
                  sample_placed_world)) !! ["work"; "clean"; "P1"; "converted.csv"]
    = Some (File (Csv df))
    ∧ records df
      = records [set_path "converted/P1/CT/a" row_a]
        ++ [record_of (set_path "converted/P1/RTSTRUCT/b" row_b)]
    ∧ map index_label df = map Z.of_nat (seq 0 2).
Proof.
  destruct (add_object_to_dataset_appends sample_self "clean" 1 sample_placed_world
           row_b (set_path "converted/P1/RTSTRUCT/b" row_b)
           ["work"; "clean"; "P1"; "converted.csv"] [set_path "converted/P1/CT/a" row_a]
           ltac:(vm_compute; reflexivity) ltac:(vm_compute; reflexivity)
           ltac:(vm_compute; reflexivity) ltac:(vm_compute; reflexivity)
           ltac:(apply (bool_decide_unpack _); vm_compute; exact I)
           ltac:(vm_compute; reflexivity)) as (df & H1 & _ & H3 & H4).
  exists df. split; [exact H1|]. split; [|exact H3].
  apply H4. apply (bool_decide_unpack _). vm_compute. exact I.
Defined.

(** ** More about [prepare_from_dataframe] and [prepare] *)

Lemma set_heap_same w : set_heap (heap w) w = w.
Proof. by destruct w. Qed.

(** X5. For a table without rows the call returns and changes nothing:
    no directory is made for the dataset. *)
Theorem prepare_from_dataframe_empty self dataset_name df_prepare w :
  heap w !! df_prepare = Some (ODataFrame []) →
  PrepareDataset.prepare_from_dataframe self dataset_name df_prepare w = (Ok (), w).
Proof.
  intros Hdf. rewrite (prepare_from_dataframe_run _ _ _ _ _ Hdf). simpl.
  unfold ret. f_equal. rewrite insert_id by done. apply set_heap_same.
Qed.

Lemma prepare_from_dataframe_rest self dataset_name df_prepare w r0 :
  is_Some (heap w !! r0) → r0 ≠ df_prepare →
  heap (snd (PrepareDataset.prepare_from_dataframe self dataset_name df_prepare w)) !! r0
  = heap w !! r0.
Proof.
  intros H0 Hne.
  destruct (heap w !! df_prepare) as [[|df|]|] eqn:Hdf.
  2:{ rewrite (prepare_from_dataframe_run _ _ _ _ _ Hdf).
      destruct (relative_paths self df); [|done].
      rewrite for_each_heap; simpl.
      - by rewrite lookup_insert_ne.
      - by rewrite lookup_insert_ne. }
  all: rewrite prepare_from_dataframe_not_DataFrame; [done|congruence].
Qed.

(** After a call that gets to the loop, the table holds the relative
    paths. *)
Lemma prepare_from_dataframe_table self dataset_name df_prepare w df col :
  heap w !! df_prepare = Some (ODataFrame df) →
  relative_paths self df = Ok col →
  heap (snd (PrepareDataset.prepare_from_dataframe self dataset_name df_prepare w))
    !! df_prepare = Some (ODataFrame (zip_with set_path col df)).
Proof.
  intros Hdf Hcol. rewrite (prepare_from_dataframe_run _ _ _ _ _ Hdf), Hcol.
  rewrite for_each_heap; simpl.
  - apply lookup_insert_eq.
  - rewrite lookup_insert_eq. eauto.
Qed.

(** X6. The working directory is absolute and the table has a row.  After
    a first call that has rewritten the paths, a second call on the same
    table fails: the path of the first row, now relative, is not below the
    working directory.  The second call changes nothing. *)
Theorem prepare_from_dataframe_second_call self dataset_name df_prepare w row df col :
  heap w !! df_prepare = Some (ODataFrame (row :: df)) →
  is_absolute (PrepareDataset.working_directory self) = true →
  relative_paths self (row :: df) = Ok col →
  let w1 := snd (PrepareDataset.prepare_from_dataframe self dataset_name df_prepare w) in
  ∃ rel,
    relative_to (Path (path row)) (PrepareDataset.working_directory self) = Ok rel
    ∧ PrepareDataset.prepare_from_dataframe self dataset_name df_prepare w1
      = (Err (ValueError_subpath (str rel) (str (PrepareDataset.working_directory self))),
         w1).
Proof.
  intros Hdf Habs Hcol. cbv zeta.
  pose proof (prepare_from_dataframe_table _ dataset_name _ _ _ _ Hdf Hcol) as H1.
  rewrite (prepare_from_dataframe_run _ _ _ _ _ H1).
  apply relative_paths_Ok in Hcol.
  inversion Hcol as [|? row' ? df' (rel & Hrel & ->) _ E1 E2]. subst.
  exists rel. split; [done|].
  assert (Hwf : wf_path rel) by (eapply relative_to_wf; [apply Path_wf|done]).
  unfold relative_paths. simpl. rewrite (Path_str _ Hwf).
  assert (Hbad : relative_to rel (PrepareDataset.working_directory self)
                 = Err (ValueError_subpath (str rel)
                          (str (PrepareDataset.working_directory self)))).
  { unfold relative_to. rewrite decide_False; [done|].
    apply relative_to_Ok in Hrel as (_ & _ & ->).
    unfold is_absolute in Habs. apply bool_decide_eq_true in Habs. congruence. }
  by rewrite Hbad.
Qed.

Lemma prepare_from_dataframe_second_call_witness :
  let w1 := snd (PrepareDataset.prepare_from_dataframe sample_self "clean" 3 sample_world) in
  ∃ rel,
    relative_to (Path (path row_a)) (PrepareDataset.working_directory sample_self) = Ok rel
    ∧ PrepareDataset.prepare_from_dataframe sample_self "clean" 3 w1
      = (Err (ValueError_subpath (str rel)
                (str (PrepareDataset.working_directory sample_self))), w1).
Proof.
  apply (prepare_from_dataframe_second_call sample_self "clean" 3 sample_world row_a []
           ["converted/P1/CT/a"]
           ltac:(vm_compute; reflexivity) ltac:(vm_compute; reflexivity)
           ltac:(vm_compute; reflexivity)).
Defined.

Lemma prepare_from_dataframe_empty_witness :
  PrepareDataset.prepare_from_dataframe sample_self "clean" 8 sample_empty_table_world
  = (Ok (), sample_empty_table_world).
Proof.
  apply (prepare_from_dataframe_empty sample_self "clean" 8 sample_empty_table_world
           ltac:(vm_compute; reflexivity)).
Defined.

(** ** The working directory *)

(** X17. The working directory is relative, as the default [.] is.  A
    record with an absolute path is then refused with pathlib's error, and
    nothing is made. *)
Theorem add_object_to_dataset_relative_working_directory self dataset_name r w row :
  heap w !! r = Some (OSeries row) →
  is_absolute (PrepareDataset.working_directory self) = false →
  is_absolute (Path (path row)) = true →
  fst (PrepareDataset.add_object_to_dataset self dataset_name r w)
  = Err (ValueError_subpath (str (Path (path row)))
           (str (PrepareDataset.working_directory self)))
  ∧ nodes (snd (PrepareDataset.add_object_to_dataset self dataset_name r w)) = nodes w.
Proof.
  intros Hr Hwd Habs.
  destruct (add_object_to_dataset_world self dataset_name r w row Hr) as (_ & _ & _ & H).
  assert (Hn : normalised_row self row
               = Err (ValueError_subpath (str (Path (path row)))
                        (str (PrepareDataset.working_directory self)))).
  { unfold normalised_row. rewrite Habs. unfold relative_to.
    rewrite decide_False; [done|].
    unfold is_absolute in *. apply bool_decide_eq_true in Habs.
    apply bool_decide_eq_false in Hwd. apply dec_stable in Hwd. congruence. }
  by rewrite Hn in H.
Qed.

Lemma add_object_to_dataset_relative_working_directory_witness :
  fst (PrepareDataset.add_object_to_dataset sample_default_self "clean" 0 sample_world)
  = Err (ValueError_subpath "/work/converted/P1/CT/a" ".")
  ∧ nodes (snd (PrepareDataset.add_object_to_dataset sample_default_self "clean" 0
                  sample_world)) = nodes sample_world.
Proof.
  apply (add_object_to_dataset_relative_working_directory sample_default_self "clean" 0
           sample_world row_a
           ltac:(vm_compute; reflexivity) ltac:(vm_compute; reflexivity)
           ltac:(vm_compute; reflexivity)).
Defined.

(** X18. The call makes the directories it needs for the reference: after
    a call that returns, the parent of the reference is a directory,
    whether or not the dataset directory was there before. *)
Theorem add_object_to_dataset_makes_directories self dataset_name r w row row' sl src :
  heap w !! r = Some (OSeries row) →
  normalised_row self row = Ok row' →
  reference_of self dataset_name row' = Ok (sl, src) →
  fst (PrepareDataset.add_object_to_dataset self dataset_name r w) = Ok () →
  os.is_dir (cwd w)
    (nodes (snd (PrepareDataset.add_object_to_dataset self dataset_name r w)))
    (parent sl) = true.
Proof.
  intros Hr Hn Href Hok.
  destruct (add_object_to_dataset_Ok _ _ _ _ Hok)
    as (row0 & row0' & sl0 & src0 & Hr0 & Hn0 & Href0 & Hpl).
  rewrite Hr in Hr0. injection Hr0 as <-. rewrite Hn in Hn0. injection Hn0 as <-.
  rewrite Href in Href0. injection Href0 as <- <-.
  apply place_Ok in Hpl as (m1 & m2 & Hmk & Hlk & Hmg).
  apply makedirs_is_dir in Hmk.
  eapply is_dir_stable; [|exact Hmk].
  eapply kind_le_trans.
  - pose proof (link_step_fs_le (cwd w) sl src m1) as H. rewrite Hlk in H.
    apply fs_le_kind. exact H.
  - pose proof (merge_step_kind_le (pandas_numeric w) (cwd w)
                  (manifest_path self dataset_name row') row' m2) as H.
    rewrite Hmg in H. exact H.
Qed.

Lemma add_object_to_dataset_makes_directories_witness :
  os.is_dir ["work"]
    (nodes (snd (PrepareDataset.add_object_to_dataset sample_self "clean" 0 sample_world)))
    (parent (Path "/work/clean/P1/CT/a")) = true
  ∧ os.is_dir ["work"] (nodes sample_world) (Path "/work/clean") = false.
Proof.
  split; [|vm_compute; reflexivity].
  apply (add_object_to_dataset_makes_directories sample_self "clean" 0 sample_world
           row_a (set_path "converted/P1/CT/a" row_a)
           (Path "/work/clean/P1/CT/a") (Path "../../../converted/P1/CT/a")
           ltac:(vm_compute; reflexivity) ltac:(vm_compute; reflexivity)
           ltac:(vm_compute; reflexivity) ltac:(vm_compute; reflexivity)).
Defined.

(** ** More about the accessor *)

#[local] Arguments walk : simpl never.
#[local] Arguments Path : simpl never.
#[local] Opaque MAXSYMLINKS.

(** The constructor, with the names it sets. *)
Lemma StructureSet_init_names structure_set_row given_mapping w row :
  heap w !! structure_set_row = Some (OSeries row) →
  modality row = "RTSTRUCT" →
  StructureSet.__init__ structure_set_row given_mapping w
  = (Ok (fresh (dom (heap w))),
     set_heap (<[fresh (dom (heap w)) :=
                   OStructureSet
                     {| structure_set_path := Path (path row);
                        structure_names :=
                          match given_mapping with
                          | Some m => map fst m
                          | None => listed_structures w (Path (path row))
                          end;
                        structure_mapping := given_mapping;
                        cache := ∅ |}]> (heap w)) w).
Proof.
  intros Hrow Hmod. unfold StructureSet.__init__, bind, get_Series. rewrite Hrow.
  rewrite bool_decide_eq_true_2 by done. simpl negb. cbv iota.
  unfold listed_structures, glob_suffix, syscall, os.listdir_suffix. simpl.
  rewrite set_nodes_same. by destruct given_mapping.
Qed.

(** X8. A row that is not a structure set is refused, and nothing is
    done: the directory is not listed and no accessor is made. *)
Theorem StructureSet_init_wrong_modality structure_set_row given_mapping w row :
  heap w !! structure_set_row = Some (OSeries row) →
  modality row ≠ "RTSTRUCT" →
  StructureSet.__init__ structure_set_row given_mapping w
  = (Err (AttributeError "structure_set_row modality must be of RTSTRUCT"), w).
Proof.
  intros Hrow Hmod. unfold StructureSet.__init__, bind, get_Series. rewrite Hrow.
  by rewrite bool_decide_eq_false_2.
Qed.

Lemma StructureSet_init_wrong_modality_witness :
  StructureSet.__init__ 0 None sample_world
  = (Err (AttributeError "structure_set_row modality must be of RTSTRUCT"), sample_world).
Proof.
  apply (StructureSet_init_wrong_modality 0 None sample_world row_a
           ltac:(vm_compute; reflexivity) ltac:(vm_compute; discriminate)).
Defined.

(** X9. With a mapping, [keys()] gives the canonical names of the mapping,
    in its order, whatever files the directory has; [keys()] changes
    nothing. *)
Theorem StructureSet_keys_of_mapping structure_set_row m w self :
  fst (StructureSet.__init__ structure_set_row (Some m) w) = Ok self →
  StructureSet.keys self (snd (StructureSet.__init__ structure_set_row (Some m) w))
  = (Ok (map fst m), snd (StructureSet.__init__ structure_set_row (Some m) w)).
Proof.
  intros Hinit.
  destruct (StructureSet_init_Ok _ _ _ _ Hinit) as (row & Hrow & Hmod).
  rewrite (StructureSet_init_names _ (Some m) _ _ Hrow Hmod) in Hinit |- *.
  simpl in Hinit. injection Hinit as <-. simpl snd.
  unfold StructureSet.keys, bind, get_StructureSet. simpl.
  by rewrite lookup_insert_eq.
Qed.

Lemma StructureSet_keys_of_mapping_witness :
  StructureSet.keys 6 (snd (StructureSet.__init__ 1 (Some sample_mapping_spine) sample_world))
  = (Ok (map fst sample_mapping_spine),
     snd (StructureSet.__init__ 1 (Some sample_mapping_spine) sample_world)).
Proof.
  apply (StructureSet_keys_of_mapping 1 sample_mapping_spine sample_world 6
           ltac:(vm_compute; reflexivity)).
Defined.

Lemma listdir_suffix_not_dir cwd p suffix m :
  os.is_dir cwd m p = false → fst (os.listdir_suffix cwd p suffix m) = Ok [].
Proof.
  unfold os.is_dir, os.listdir_suffix. simpl.
  destruct (os.stat cwd m p) as [d|e]; [|done].
  by destruct (m !! d) as [[| |]|].
Qed.

Section lookups.

Context (map_structure_name : string → mapping → string).

(** X10. The constructor does not ask whether the directory of the
    structure set exists.  When it does not, and no mapping is given, the
    accessor is made all the same; it has no keys, and every lookup fails
    with the not-found error for the name asked for. *)
Theorem StructureSet_missing_directory structure_set_row w row :
  heap w !! structure_set_row = Some (OSeries row) →
  modality row = "RTSTRUCT" →
  os.is_dir (cwd w) (nodes w) (Path (path row)) = false →
  let init := StructureSet.__init__ structure_set_row None w in
  ∃ self,
    fst init = Ok self
    ∧ StructureSet.keys self (snd init) = (Ok [], snd init)
    ∧ ∀ item,
        StructureSet.__getitem__ map_structure_name self item (snd init)
        = (Err (KeyError (not_found_message item)), snd init).
Proof.
  intros Hrow Hmod Hdir. cbv zeta.
  rewrite (StructureSet_init_names _ None _ _ Hrow Hmod).
  unfold listed_structures. rewrite (listdir_suffix_not_dir _ _ _ _ Hdir). simpl.
  eexists. split; [reflexivity|]. split.
  - unfold StructureSet.keys, bind, get_StructureSet. simpl. by rewrite lookup_insert_eq.
  - intros item. erewrite getitem_run; last first.
    { simpl. apply lookup_insert_eq. }
    done.
Qed.

(** One lookup keeps what the accessor has: its path, names and mapping,
    and every volume of the cache. *)
Lemma getitem_keeps self item w s :
  heap w !! self = Some (OStructureSet s) →
  ∃ s', heap (snd (StructureSet.__getitem__ map_structure_name self item w)) !! self
        = Some (OStructureSet s')
        ∧ structure_set_path s' = structure_set_path s
        ∧ structure_names s' = structure_names s
        ∧ structure_mapping s' = structure_mapping s
        ∧ cache s ⊆ cache s'.
Proof.
  intros Hs. rewrite (getitem_run map_structure_name self item w s Hs). cbv zeta.
  set (name := resolved_name map_structure_name (structure_mapping s) item).
  destruct (bool_decide (name ∈ structure_names s)); [|by exists s].
  destruct (cache s !! name) as [img|] eqn:Hc; [by exists s|].
  destruct (fst (ReadImage _ w)) as [img|e]; [|by exists s].
  eexists. simpl. rewrite lookup_insert_eq. split; [reflexivity|]. simpl.
  split; [done|]. split; [done|]. split; [done|]. by apply insert_subseteq.
Qed.

Lemma run_lookups_keeps self items w s :
  heap w !! self = Some (OStructureSet s) →
  ∃ s', heap (run_lookups map_structure_name self items w) !! self
        = Some (OStructureSet s')
        ∧ structure_set_path s' = structure_set_path s
        ∧ structure_names s' = structure_names s
        ∧ structure_mapping s' = structure_mapping s
        ∧ cache s ⊆ cache s'.
Proof.
  revert w s. induction items as [|item items IH]; intros w s Hs; [by exists s|].
  destruct (getitem_keeps self item w s Hs) as (s1 & Hs1 & Hp1 & Hn1 & Hm1 & Hc1).
  destruct (IH _ _ Hs1) as (s2 & Hs2 & Hp2 & Hn2 & Hm2 & Hc2).
  exists s2. split; [exact Hs2|]. split; [congruence|]. split; [congruence|].
  split; [congruence|]. by etrans.
Qed.

(** X11. The cache never loses a volume.  Once a volume is cached under a
    name of the accessor, then after any lookups, failed ones among them,
    every lookup that resolves to that name returns this volume and
    changes nothing: it reads no file. *)
Theorem StructureSet_cache_persists self items w s name img :
  heap w !! self = Some (OStructureSet s) →
  name ∈ structure_names s →
  cache s !! name = Some img →
  let w' := run_lookups map_structure_name self items w in
  ∀ item,
    resolved_name map_structure_name (structure_mapping s) item = name →
    StructureSet.__getitem__ map_structure_name self item w' = (Ok img, w').
Proof.
  intros Hs Hin Hc w' item Hres.
  destruct (run_lookups_keeps self items w s Hs) as (s' & Hs' & _ & Hn & Hm & Hsub).
  rewrite (getitem_run map_structure_name self item w' s' Hs'). cbv zeta.
  rewrite Hm, Hres, Hn. rewrite bool_decide_eq_true_2 by done.
  by rewrite (lookup_weaken _ _ _ _ Hc Hsub).
Qed.

Lemma ReadImage_log p q w : fst (ReadImage p (log_image_read q w)) = fst (ReadImage p w).
Proof. unfold ReadImage, syscall. simpl. by destruct (fst (os.read_file _ _ _)) as [[]|]. Qed.

(** X12. A volume that cannot be read is not cached: the lookup raises
    the error of the reader and the accessor is as it was, so that the
    same lookup tries the file again; two such lookups are two reads of the
    file. *)
Theorem StructureSet_failed_read self item w s e :
  heap w !! self = Some (OStructureSet s) →
  let name := resolved_name map_structure_name (structure_mapping s) item in
  let file := structure_file (structure_set_path s) name in
  name ∈ structure_names s →
  cache s !! name = None →
  fst (ReadImage file w) = Err e →
  let get1 := StructureSet.__getitem__ map_structure_name self item w in
  let get2 := StructureSet.__getitem__ map_structure_name self item (snd get1) in
  fst get1 = Err e
  ∧ heap (snd get1) = heap w
  ∧ fst get2 = Err e
  ∧ image_reads (snd get2) = image_reads w ++ [file; file].
Proof.
  intros Hs name file Hin Hc Hrd. cbv zeta.
  assert (H1 : StructureSet.__getitem__ map_structure_name self item w
               = (Err e, log_image_read file w)).
  { rewrite (getitem_run map_structure_name self item w s Hs). cbv zeta.
    fold name. fold file. rewrite bool_decide_eq_true_2 by done. by rewrite Hc, Hrd. }
  rewrite H1. simpl fst. simpl snd.
  assert (H2 : StructureSet.__getitem__ map_structure_name self item (log_image_read file w)
               = (Err e, log_image_read file (log_image_read file w))).
  { rewrite (getitem_run map_structure_name self item (log_image_read file w) s Hs).
    cbv zeta.
    fold name. fold file. rewrite bool_decide_eq_true_2 by done.
    by rewrite Hc, ReadImage_log, Hrd. }
  rewrite H2. simpl. split; [done|]. split; [done|]. split; [done|].
  by rewrite <- app_assoc.
Qed.

End lookups.

Lemma StructureSet_missing_directory_witness :
  let init := StructureSet.__init__ 7 None sample_missing_world in
  ∃ self,
    fst init = Ok self
    ∧ StructureSet.keys self (snd init) = (Ok [], snd init)
    ∧ ∀ item,
        StructureSet.__getitem__ match_exactly self item (snd init)
        = (Err (KeyError (not_found_message item)), snd init).
Proof.
  apply (StructureSet_missing_directory match_exactly 7 sample_missing_world row_missing
           ltac:(vm_compute; reflexivity) ltac:(vm_compute; reflexivity)
           ltac:(vm_compute; reflexivity)).
Defined.

Lemma StructureSet_cache_persists_witness :
  let w' := run_lookups match_exactly 6 ["spine"; "lung_l"] sample_cached_world in
  StructureSet.__getitem__ match_exactly 6 "heart" w' = (Ok [1%Z], w').
Proof.
  apply (StructureSet_cache_persists match_exactly 6 ["spine"; "lung_l"] sample_cached_world
           sample_cached_accessor "heart" [1%Z]
           ltac:(vm_compute; reflexivity)
           ltac:(apply (bool_decide_unpack _); vm_compute; exact I)
           ltac:(vm_compute; reflexivity)
           "heart" eq_refl).
Defined.

Lemma StructureSet_failed_read_witness :
  let get1 := StructureSet.__getitem__ match_variant 6 "cord" sample_spine_accessor_world in
  let get2 := StructureSet.__getitem__ match_variant 6 "cord" (snd get1) in
  fst get1 = Err (RuntimeError "unable to read image")
  ∧ heap (snd get1) = heap sample_spine_accessor_world
  ∧ fst get2 = Err (RuntimeError "unable to read image")
  ∧ image_reads (snd get2)
    = image_reads sample_spine_accessor_world
      ++ [structure_file (Path "/work/converted/P1/RTSTRUCT/b") "spine";
          structure_file (Path "/work/converted/P1/RTSTRUCT/b") "spine"].
Proof.
  apply (StructureSet_failed_read match_variant 6 "cord" sample_spine_accessor_world
           {| structure_set_path := Path "/work/converted/P1/RTSTRUCT/b";
              structure_names := ["heart"; "spine"];
              structure_mapping := Some sample_mapping_spine;
              cache := ∅ |}
           (RuntimeError "unable to read image")
           ltac:(vm_compute; reflexivity)
           ltac:(apply (bool_decide_unpack _); vm_compute; exact I)
           ltac:(vm_compute; reflexivity)
           ltac:(vm_compute; reflexivity)).
Defined.

(** ** More about [create_mapping_json] *)

(** X13. A level that is not one of the three is refused, and nothing is
    written. *)
Theorem create_mapping_json_unknown_level self mapping_dict level w s :
  heap w !! self = Some (OStructureSet s) →
  level ∉ known_levels →
  StructureSet.create_mapping_json self mapping_dict level w
  = (Err (ValueError
            "level must be one of 'project', 'patient' or 'current_structure_set'."), w).
Proof.
  intros Hs Hl. unfold StructureSet.create_mapping_json.
  erewrite bind_Ok; last first.
  { unfold get_StructureSet. rewrite Hs. reflexivity. }
  unfold known_levels in Hl.
  rewrite !not_elem_of_cons in Hl. destruct Hl as (H1 & H2 & H3 & _).
  rewrite !decide_False by done. reflexivity.
Qed.

Lemma create_mapping_json_unknown_level_witness :
  StructureSet.create_mapping_json 6 sample_mapping "Patient" sample_accessor_world
  = (Err (ValueError
            "level must be one of 'project', 'patient' or 'current_structure_set'."),
     sample_accessor_world).
Proof.
  apply (create_mapping_json_unknown_level 6 sample_mapping "Patient" sample_accessor_world
           {| structure_set_path := Path "/work/converted/P1/RTSTRUCT/b";
              structure_names := ["heart"; "lung_l"];
              structure_mapping := None;
              cache := ∅ |}
           ltac:(vm_compute; reflexivity)
           ltac:(apply (bool_decide_unpack _); vm_compute; exact I)).
Defined.

(** The write of [create_mapping_json]. *)
Lemma create_mapping_json_write self mapping_dict level w s :
  heap w !! self = Some (OStructureSet s) →
  level ∈ known_levels →
  let res := StructureSet.create_mapping_json self mapping_dict level w in
  let doc := JObj [("structures", mapping_to_json mapping_dict)] in
  (∃ e, fst res = Err e ∧ snd res = w)
  ∨ (fst res = Ok () ∧
     ∃ l, os.stat (cwd w) (nodes w) (mapping_file (structure_set_path s) level) = Ok l
          ∧ (nodes w !! l = None ∨ ∃ c0, nodes w !! l = Some (File c0))
          ∧ snd res = set_nodes (<[l := File (Json doc)]> (nodes w)) w).
Proof.
  intros Hs Hl. cbv zeta. rewrite (create_mapping_json_run _ _ _ _ _ Hs Hl).
  unfold json_dump, syscall.
  destruct (os.write_file _ _ _ _) as [[[]|e] m'] eqn:Hw; simpl.
  - right. split; [done|]. apply write_file_Ok in Hw as (l & Hst & Hold & ->). eauto.
  - left. apply write_file_Err in Hw as ->. rewrite set_nodes_same. eauto.
Qed.

Lemma json_dump_over doc p w l c0 :
  os.stat (cwd w) (nodes w) p = Ok l → nodes w !! l = Some (File c0) →
  json_dump doc p w = (Ok (), set_nodes (<[l := File (Json doc)]> (nodes w)) w).
Proof. unfold json_dump, syscall, os.write_file. by intros -> ->. Qed.

Lemma json_load_file doc p w l :
  os.stat (cwd w) (nodes w) p = Ok l → nodes w !! l = Some (File (Json doc)) →
  fst (json_load p w) = Ok doc.
Proof.
  intros Hst Hl. unfold json_load. erewrite bind_Ok; last first.
  { unfold syscall, os.read_file. rewrite Hst, Hl. reflexivity. }
  reflexivity.
Qed.

(** X14. The last mapping written is the one read back: when a call has
    written a mapping for a level, a second call for that level, with
    another mapping, returns too, and the file holds the second mapping
    only. *)
Theorem create_mapping_json_last_wins self m1 m2 level w s :
  heap w !! self = Some (OStructureSet s) →
  level ∈ known_levels →
  let res1 := StructureSet.create_mapping_json self m1 level w in
  fst res1 = Ok () →
  let res2 := StructureSet.create_mapping_json self m2 level (snd res1) in
  fst res2 = Ok ()
  ∧ fst (json_load (mapping_file (structure_set_path s) level) (snd res2))
    = Ok (JObj [("structures", mapping_to_json m2)]).
Proof.
  intros Hs Hl res1 Hok1.
  destruct (create_mapping_json_write self m1 level w s Hs Hl)
    as [(e & He & _)|(_ & l & Hst & Hold & Hw1)]; [unfold res1 in Hok1; congruence|].
  fold res1 in Hw1. cbv zeta. rewrite Hw1.
  set (p := mapping_file (structure_set_path s) level) in *.
  set (doc1 := JObj [("structures", mapping_to_json m1)]).
  set (doc2 := JObj [("structures", mapping_to_json m2)]).
  set (w1 := set_nodes (<[l := File (Json doc1)]> (nodes w)) w).
  assert (Hs1 : heap w1 !! self = Some (OStructureSet s)) by done.
  assert (Hst1 : os.stat (cwd w1) (nodes w1) p = Ok l) by (by apply stat_after_write).
  assert (Hl1 : nodes w1 !! l = Some (File (Json doc1))) by apply lookup_insert_eq.
  rewrite (create_mapping_json_run _ _ _ _ _ Hs1 Hl). fold p. fold doc2.
  rewrite (json_dump_over doc2 p w1 l _ Hst1 Hl1). split; [done|].
  apply (json_load_file doc2 p _ l).
  - apply stat_after_write; [done|]. right. rewrite Hl1. eauto.
  - apply lookup_insert_eq.
Qed.

Lemma create_mapping_json_last_wins_witness :
  let res1 := StructureSet.create_mapping_json 6 sample_mapping "patient"
                sample_accessor_world in
  let res2 := StructureSet.create_mapping_json 6 sample_mapping_spine "patient" (snd res1) in
  fst res2 = Ok ()
  ∧ fst (json_load (mapping_file (Path "/work/converted/P1/RTSTRUCT/b") "patient") (snd res2))
    = Ok (JObj [("structures", mapping_to_json sample_mapping_spine)]).
Proof.
  apply (create_mapping_json_last_wins 6 sample_mapping sample_mapping_spine "patient"
           sample_accessor_world
           {| structure_set_path := Path "/work/converted/P1/RTSTRUCT/b";
              structure_names := ["heart"; "lung_l"];
              structure_mapping := None;
              cache := ∅ |}
           ltac:(vm_compute; reflexivity)
           ltac:(apply (bool_decide_unpack _); vm_compute; exact I)
           ltac:(vm_compute; reflexivity)).
Defined.

(** X15. [create_mapping_json] makes no directory and no link: whatever
    it returns, every node but the mapping file of the level is as it was;
    when it fails, nothing has changed. *)
Theorem create_mapping_json_frame self mapping_dict level w s l n :
  heap w !! self = Some (OStructureSet s) →
  nodes w !! l = Some n →
  let res := StructureSet.create_mapping_json self mapping_dict level w in
  (is_ok (fst res) = false → snd res = w)
  ∧ (nodes (snd res) !! l = Some n
     ∨ (os.stat (cwd w) (nodes w) (mapping_file (structure_set_path s) level) = Ok l
        ∧ ∃ c, n = File c))
  ∧ ∀ l', nodes w !! l' = None → nodes (snd res) !! l' = None
          ∨ nodes (snd res) !! l'
            = Some (File (Json (JObj [("structures", mapping_to_json mapping_dict)]))).
Proof.
  intros Hs Hn. cbv zeta.
  destruct (decide (level ∈ known_levels)) as [Hl|Hl]; last first.
  { rewrite (create_mapping_json_unknown_level _ _ _ _ _ Hs Hl). simpl. auto. }
  destruct (create_mapping_json_write self mapping_dict level w s Hs Hl)
    as [(e & -> & ->)|(-> & l0 & Hst & Hold & ->)]; simpl; [auto|].
  split; [done|]. split.
  - destruct (decide (l0 = l)) as [->|Hne].
    + right. split; [done|]. destruct Hold as [?|[c0 ?]]; [congruence|]. exists c0. congruence.
    + left. by rewrite lookup_insert_ne.
  - intros l' Hl'. destruct (decide (l0 = l')) as [->|Hne].
    + right. by rewrite lookup_insert_eq.
    + left. by rewrite lookup_insert_ne.
Qed.

Lemma create_mapping_json_frame_witness :
  let res := StructureSet.create_mapping_json 6 sample_mapping "project"
               sample_accessor_world in
  (is_ok (fst res) = false → snd res = sample_accessor_world)
  ∧ (nodes (snd res) !! ["work"] = Some Dir
     ∨ (os.stat (cwd sample_accessor_world) (nodes sample_accessor_world)
          (mapping_file (Path "/work/converted/P1/RTSTRUCT/b") "project") = Ok ["work"]
        ∧ ∃ c, Dir = File c))
  ∧ ∀ l', nodes sample_accessor_world !! l' = None →
          nodes (snd res) !! l' = None
          ∨ nodes (snd res) !! l'
            = Some (File (Json (JObj [("structures", mapping_to_json sample_mapping)]))).
Proof.
  apply (create_mapping_json_frame 6 sample_mapping "project" sample_accessor_world
           {| structure_set_path := Path "/work/converted/P1/RTSTRUCT/b";
              structure_names := ["heart"; "lung_l"];
              structure_mapping := None;
              cache := ∅ |}
           ["work"] Dir
           ltac:(vm_compute; reflexivity) ltac:(vm_compute; reflexivity)).
Defined.

(** ** The names taken from the directory *)

Lemma listdir_suffix_elem cwd p suffix m d file :
  os.stat cwd m p = Ok d → m !! d = Some Dir →
  (∃ files, fst (os.listdir_suffix cwd p suffix m) = Ok files ∧
     (file ∈ files ↔
      ∃ x, is_Some (m !! (d ++ [x])) ∧ py_str.endswith suffix x = true
           ∧ file = {| root := root p; tail := tail p ++ [x] |})).
Proof.
  intros Hst Hd. unfold os.listdir_suffix. simpl. rewrite Hst, Hd.
  eexists. split; [reflexivity|].
  rewrite list_elem_of_omap. split.
  - intros ([l n] & Hin%elem_of_map_to_list & Hf). simpl in Hf.
    destruct (strip_prefix d l) as [[|x [|]]|] eqn:Hsp; try done.
    destruct (py_str.endswith suffix x) eqn:He; [|done]. injection Hf as <-.
    apply strip_prefix_Some in Hsp as ->. exists x. eauto.
  - intros (x & [n Hn] & He & ->). exists (d ++ [x], n). split.
    + by apply elem_of_map_to_list.
    + simpl. rewrite (proj2 (strip_prefix_Some d (d ++ [x]) [x]) eq_refl). by rewrite He.
Qed.

(** X16. Without a mapping, the keys are taken from the directory of the
    structure set: a name is a key exactly when it is the name of an entry
    of the directory that ends in [.nii.gz], with every [.nii.gz] taken
    out of it, not only the one at the end. *)
Theorem StructureSet_keys_of_directory structure_set_row w row self d :
  heap w !! structure_set_row = Some (OSeries row) →
  fst (StructureSet.__init__ structure_set_row None w) = Ok self →
  os.stat (cwd w) (nodes w) (Path (path row)) = Ok d →
  nodes w !! d = Some Dir →
  let w0 := snd (StructureSet.__init__ structure_set_row None w) in
  ∃ names,
    StructureSet.keys self w0 = (Ok names, w0)
    ∧ ∀ k, k ∈ names ↔
           ∃ x, is_Some (nodes w !! (d ++ [x]))
                ∧ py_str.endswith ".nii.gz" x = true
                ∧ k = py_str.replace ".nii.gz" "" x.
Proof.
  intros Hrow Hinit Hst Hd. cbv zeta.
  destruct (StructureSet_init_Ok _ _ _ _ Hinit) as (row0 & Hrow0 & Hmod).
  rewrite Hrow in Hrow0. injection Hrow0 as <-.
  rewrite (StructureSet_init_names _ None _ _ Hrow Hmod) in Hinit |- *.
  simpl in Hinit. injection Hinit as <-. simpl snd.
  eexists. split.
  { unfold StructureSet.keys, bind, get_StructureSet. simpl. rewrite lookup_insert_eq.
    reflexivity. }
  intros k. simpl. unfold listed_structures.
  destruct (listdir_suffix_elem (cwd w) (Path (path row)) ".nii.gz" (nodes w) d
              {| root := ""; tail := [] |} Hst Hd) as (files & Hf & _).
  rewrite Hf. rewrite list_elem_of_In, List.in_map_iff. split.
  - intros (file & <- & Hin%list_elem_of_In).
    destruct (listdir_suffix_elem (cwd w) (Path (path row)) ".nii.gz" (nodes w) d file Hst Hd)
      as (files' & Hf' & Hiff).
    rewrite Hf in Hf'. injection Hf' as <-.
    apply Hiff in Hin as (x & Hx & He & ->). exists x.
    split; [done|]. split; [done|]. unfold path_name. simpl. by rewrite List.last_last.
  - intros (x & Hx & He & ->).
    destruct (listdir_suffix_elem (cwd w) (Path (path row)) ".nii.gz" (nodes w) d
                {| root := root (Path (path row)); tail := tail (Path (path row)) ++ [x] |}
                Hst Hd) as (files' & Hf' & Hiff).
    rewrite Hf in Hf'. injection Hf' as <-.
    eexists. split; [|apply list_elem_of_In, Hiff; eauto].
    unfold path_name. simpl. by rewrite List.last_last.
Qed.

Lemma StructureSet_keys_of_directory_witness :
  let w0 := snd (StructureSet.__init__ 1 None sample_world) in
  ∃ names,
    StructureSet.keys 6 w0 = (Ok names, w0)
    ∧ ∀ k, k ∈ names ↔
           ∃ x, is_Some (nodes sample_world
                           !! (["work"; "converted"; "P1"; "RTSTRUCT"; "b"] ++ [x]))
                ∧ py_str.endswith ".nii.gz" x = true
                ∧ k = py_str.replace ".nii.gz" "" x.
Proof.
  apply (StructureSet_keys_of_directory 1 sample_world row_b 6
           ["work"; "converted"; "P1"; "RTSTRUCT"; "b"]
           ltac:(vm_compute; reflexivity) ltac:(vm_compute; reflexivity)
           ltac:(vm_compute; reflexivity) ltac:(vm_compute; reflexivity)).
Defined.
